(** * process_schemas.py: the GA4GH schema-to-class generator

    A shallow embedding of [scripts/process_schemas.py].  The script reads
    the Avro definitions of the GA4GH protocol (one [.avsc] file per type),
    and prints one Python class per type, followed by the table of POST
    end points, into a single output file.

    Conventions of the embedding:
    - Python text is [string]; Avro names are ASCII identifiers, and text is
      compared character by character on the character codes, as Python
      compares it;
    - a Python exception is a value of [exn], and code that can raise returns
      a [result];
    - the output file is an append-only text: code that prints returns the
      text it printed together with its [result] (the monad [W]);
    - what comes from libraries whose code is not part of the script
      ([avro.schema.parse], [textwrap.fill], the JSON round trip of
      [formatSchema]) is a variable of the section that uses it. *)

From Stdlib Require Import String Ascii List Bool Sorted Permutation Lia.
From stdpp Require Import base option list strings gmap sorting.

Local Open Scope string_scope.
Local Open Scope list_scope.

(** ** Python text *)

Module Py.

(** [" " * n] *)
Fixpoint repeat_str (s : string) (n : nat) : string :=
  match n with
  | O => ""
  | S n' => s +:+ repeat_str s n'
  end.

(** [sep.join(l)] *)
Fixpoint join (sep : string) (l : list string) : string :=
  match l with
  | [] => ""
  | [x] => x
  | x :: l' => x +:+ sep +:+ join sep l'
  end.

(** [c.lower()] on one ASCII character: the letters A to Z move to a to z. *)
Definition lower_char (c : ascii) : ascii :=
  let n := nat_of_ascii c in
  if (65 <=? n)%nat && (n <=? 90)%nat then ascii_of_nat (n + 32) else c.

(** [s.lower()] *)
Fixpoint lower (s : string) : string :=
  match s with
  | EmptyString => EmptyString
  | String c s' => String (lower_char c) (lower s')
  end.

(** [s[n:]] *)
Fixpoint skip (n : nat) (s : string) : string :=
  match n, s with
  | O, _ => s
  | S n', String _ s' => skip n' s'
  | S _, EmptyString => EmptyString
  end.

(** [s.find(c) != -1] for a one-character needle. *)
Fixpoint contains_char (c : ascii) (s : string) : bool :=
  match s with
  | EmptyString => false
  | String d s' => if Ascii.eqb c d then true else contains_char c s'
  end.

Definition newline : string := String "010" EmptyString.
Definition quote : string := String "034" EmptyString.
Definition backslash : string := String "092" EmptyString.
Definition triple_quote : string := quote +:+ quote +:+ quote.

End Py.

(** ** Exceptions and results *)

Inductive exn : Type :=
| AssertionError
| ValueError
| IndexError
| AttributeError
| KeyError
| SchemaParseException
| Exception (msg : string).

Inductive result (A : Type) : Type :=
| Ok (a : A)
| Raise (e : exn).
Arguments Ok {A} a.
Arguments Raise {A} e.

Global Instance result_ret : MRet result := λ A a, Ok a.
Global Instance result_bind : MBind result := λ A B k m,
  match m with
  | Ok a => k a
  | Raise e => Raise e
  end.

Definition is_ok {A} (r : result A) : bool :=
  match r with Ok _ => true | Raise _ => false end.

(** [assert b] *)
Definition py_assert (b : bool) : result unit :=
  if b then Ok tt else Raise AssertionError.

(** [l[i]]: IndexError out of range. *)
Definition py_index {A} (l : list A) (i : nat) : result A :=
  match l !! i with
  | Some x => Ok x
  | None => Raise IndexError
  end.

(** [l.remove(x)]: drops the first occurrence, ValueError when there is none. *)
Fixpoint py_remove (x : string) (l : list string) : result (list string) :=
  match l with
  | [] => Raise ValueError
  | y :: l' =>
      if decide (y = x) then Ok l'
      else match py_remove x l' with
           | Ok r => Ok (y :: r)
           | Raise e => Raise e
           end
  end.

(** A loop whose body can raise: the first exception ends it. *)
Fixpoint rfold {A B} (body : A → B → result A) (acc : A) (l : list B)
  : result A :=
  match l with
  | [] => Ok acc
  | x :: l' =>
      match body acc x with
      | Ok acc' => rfold body acc' l'
      | Raise e => Raise e
      end
  end.

(** ** [sorted] and [list.sort]

    Python's sort is stable, and two stable sorts of one list by one total
    preorder give the same list; the embedding uses the stable insertion
    sort.  [x] is put in front of the first element that is not below it,
    so it stays in front of the elements with its key that came after it. *)

Section Sorting.
Context {A K : Type} (le : relation K) `{!RelDecision le} (key : A → K).

Fixpoint sorted_insert (x : A) (l : list A) : list A :=
  match l with
  | [] => [x]
  | y :: l' =>
      if decide (le (key x) (key y)) then x :: y :: l'
      else y :: sorted_insert x l'
  end.

Fixpoint sorted (l : list A) : list A :=
  match l with
  | [] => []
  | x :: l' => sorted_insert x (sorted l')
  end.
End Sorting.

(** Text in ascending order, and in strictly ascending order. *)
Definition str_lt (a b : string) : Prop := String.le a b ∧ a ≠ b.

(** [sorted(l)] on a list of text. *)
Definition sorted_strings : list string → list string :=
  sorted String.le id.

(** ** The two patterns of the script

    ['Search.+Request'] and ['Search.+Response'] are a literal, one or more
    characters other than a newline, and a literal.  [re.search] tries the
    start positions from the left; at a start position the greedy [.+]
    takes as many characters as it can and gives them back one at a time
    until the closing literal matches. *)

Module Re.

Definition is_newline (c : ascii) : bool := Ascii.eqb c "010".

(** [.*lit] at the head of [s]; the result is what [.*] took. *)
Fixpoint star_then (lit s : string) : option string :=
  match s with
  | EmptyString => if String.prefix lit s then Some "" else None
  | String c s' =>
      match (if is_newline c then None else star_then lit s') with
      | Some g => Some (String c g)
      | None => if String.prefix lit s then Some "" else None
      end
  end.

(** [.+lit] at the head of [s]. *)
Definition plus_then (lit s : string) : option string :=
  match s with
  | EmptyString => None
  | String c s' =>
      if is_newline c then None
      else String c <$> star_then lit s'
  end.

(** [pre(.+)post] at the head of [s]. *)
Definition match_here (pre post s : string) : option string :=
  if String.prefix pre s
  then plus_then post (Py.skip (String.length pre) s)
  else None.

(** [re.search(pre + '(.+)' + post, s)]: [None] when nothing matches,
    else the text of the group. *)
Fixpoint search (pre post s : string) : option string :=
  match match_here pre post s with
  | Some g => Some g
  | None =>
      match s with
      | EmptyString => None
      | String _ s' => search pre post s'
      end
  end.

End Re.

(** ** Avro schemas, as [avro.schema] hands them to the script

    One constructor per schema class; [isinstance] is a match on the
    constructor.  Of a schema the script reads [name], [doc], [fields],
    [symbols], [items], [schemas] and the [type] of a primitive; of a field
    [name], [type], [has_default] and [default], here [field_name],
    [field_type], [has_default] and [default].  [default] is kept as the
    text that [format] prints for it ([None] when the field has none). *)

Record Field_ (S : Type) : Type := mkField {
  field_name : string;
  field_type : S;
  has_default : bool;
  default : string;
}.
Arguments mkField {S} _ _ _ _.
Arguments field_name {S} _.
Arguments field_type {S} _.
Arguments has_default {S} _.
Arguments default {S} _.

#[local] Unset Elimination Schemes.
Inductive Schema : Type :=
| PrimitiveSchema (type : string)
| FixedSchema (name : string) (size : nat)
| EnumSchema (name : string) (doc : option string) (symbols : list string)
| ArraySchema (items : Schema)
| MapSchema (values : Schema)
| UnionSchema (schemas : list Schema)
| RecordSchema (name : string) (doc : option string)
               (fields : list (Field_ Schema)).

#[local] Set Elimination Schemes.

Abbreviation Field := (Field_ Schema).

(** [schema.name]: the named schemas have one. *)
Definition schema_name (s : Schema) : result string :=
  match s with
  | FixedSchema n _ | EnumSchema n _ _ | RecordSchema n _ _ => Ok n
  | _ => Raise AttributeError
  end.

(** [schema.doc] *)
Definition schema_doc (s : Schema) : result (option string) :=
  match s with
  | EnumSchema _ d _ | RecordSchema _ d _ => Ok d
  | _ => Raise AttributeError
  end.

(** [schema.fields] *)
Definition schema_fields (s : Schema) : result (list Field) :=
  match s with
  | RecordSchema _ _ fs => Ok fs
  | _ => Raise AttributeError
  end.

Definition isRecordSchema (s : Schema) : bool :=
  match s with RecordSchema _ _ _ => true | _ => false end.

Definition isEnumSchema (s : Schema) : bool :=
  match s with EnumSchema _ _ _ => true | _ => false end.

(** [isinstance(t, PrimitiveSchema) and t.type == "null"] *)
Definition isNullPrimitive (t : Schema) : bool :=
  match t with
  | PrimitiveSchema ty => bool_decide (ty = "null")
  | _ => false
  end.

(** ** class SchemaClass *)

Record SchemaClass : Type := mkSchemaClass {
  sourceFile : string;
  schemaSource : string;
  schema : Schema;
  name : string;
}.

(** An edge of the embedded types: the pair [(field.name, record name)]. *)
Abbreviation Edge := (string * string)%type.

(** A row of the end point table: the tuple [(url, request, response)]. *)
Abbreviation Signature := (string * string * string)%type.

Section SchemaClassMethods.
Variable self : SchemaClass.

(** [sorted(self.schema.fields, key=lambda f: f.name)] *)
Definition getFields : result (list Field) :=
  fs ← schema_fields (schema self);
  Ok (sorted String.le field_name fs).

(** [re.search('Search.+Request', self.name) is not None] *)
Definition isSearchRequest : bool :=
  bool_decide (is_Some (Re.search "Search" "Request" (name self))).

(** [re.search('Search.+Response', self.name) is not None] *)
Definition isSearchResponse : bool :=
  bool_decide (is_Some (Re.search "Search" "Response" (name self))).

Definition getValueListName : result string :=
  _ ← py_assert isSearchResponse;
  fs ← getFields;
  let names := field_name <$> fs in
  names ← py_remove "next_page_token" names;
  _ ← py_assert (length names =? 1)%nat;
  py_index names 0.

(** The body of the loop of [getEmbeddedTypes], on one field. *)
Definition getEmbeddedTypes_field (ret : list Edge) (field : Field)
  : result (list Edge) :=
  match field_type field with
  | ArraySchema items =>
      match items with
      | RecordSchema n _ _ => Ok (ret ++ [(field_name field, n)])
      | _ => Ok ret
      end
  | RecordSchema n _ _ => Ok (ret ++ [(field_name field, n)])
  | UnionSchema schemas =>
      t0 ← py_index schemas 0;
      t1 ← py_index schemas 1;
      if isNullPrimitive t0 then
        match t1 with
        | RecordSchema n _ _ => Ok (ret ++ [(field_name field, n)])
        | _ => Ok ret
        end
      else Raise (Exception "Schema union assumptions violated")
  | _ => Ok ret
  end.

Definition getEmbeddedTypes : result (list Edge) :=
  if isRecordSchema (schema self) then
    fs ← getFields;
    rfold getEmbeddedTypes_field [] fs
  else Ok [].

(** The fields collected by the loop of [writeRequiredFields]. *)
Definition requiredFields : result (list Field) :=
  fs ← getFields;
  Ok (List.filter (λ field, negb (has_default field)) fs).

End SchemaClassMethods.

(** The dictionary a literal [{k1: v1, k2: v2, ...}] builds: a later entry
    replaces an earlier one with its key. *)
Definition py_dict {V} (l : list (string * V)) : gmap string V :=
  foldl (λ m kv, <[kv.1 := kv.2]> m) ∅ l.

(** The two class methods of an emitted class: the text that
    [writeEmbeddedTypesClassMethods] prints for them builds the dictionary
    [embeddedTypes] from the edges and then tests, or gets, [fieldName]. *)
Definition isEmbeddedType (cls : SchemaClass) (fieldName : string)
  : result bool :=
  et ← getEmbeddedTypes cls;
  Ok (bool_decide (is_Some (py_dict et !! fieldName))).

Definition getEmbeddedType (cls : SchemaClass) (fieldName : string)
  : result string :=
  et ← getEmbeddedTypes cls;
  match py_dict et !! fieldName with
  | Some ft => Ok ft
  | None => Raise KeyError
  end.

(** ** The output file

    [out] is the text printed, [res] how the code ended.  An exception
    keeps what was printed before it. *)

Record W (A : Type) : Type := mkW { out : string; res : result A }.
Arguments mkW {A} _ _.
Arguments out {A} _.
Arguments res {A} _.

Global Instance W_ret : MRet W := λ A a, mkW "" (Ok a).
Global Instance W_bind : MBind W := λ A B k m,
  match res m with
  | Ok a => let r := k a in mkW (out m +:+ out r) (res r)
  | Raise e => mkW (out m) (Raise e)
  end.

(** A call that prints nothing. *)
Definition lift {A} (r : result A) : W A := mkW "" r.

(** [print(s, file=outputFile)] *)
Definition print (s : string) : W unit := mkW (s +:+ Py.newline) (Ok tt).

(** [outputFile.write(s)] *)
Definition file_write (s : string) : W unit := mkW s (Ok tt).

(** [for x in l: body(x)] *)
Fixpoint for_each {B} (l : list B) (body : B → W unit) : W unit :=
  match l with
  | [] => mret tt
  | x :: l' => body x ;; for_each l' body
  end.

(** [enumerate(l)] *)
Definition enumerate {B} (l : list B) : list (nat * B) :=
  zip (seq 0 (length l)) l.

(** ** Printing one class *)

Definition HEADER_COMMENT : string :=
  Py.newline +:+
  "DO NOT EDIT THIS FILE!!" +:+ Py.newline +:+
  "This file is automatically generated by the process_schemas.py program"
  +:+ Py.newline +:+
  "in the scripts directory. It is not intended to be edited directly. If"
  +:+ Py.newline +:+
  "you need to update the GA4GH protocol classes, please run the script"
  +:+ Py.newline +:+
  "on the appropriate schema version." +:+ Py.newline.

Section Emitter.
(** [textwrap.fill(text, initial_indent=indent, subsequent_indent=indent)] *)
Variable textwrap_fill : string → string → string.
(** [textwrap.wrap(text)] *)
Variable textwrap_wrap : string → list string.
(** [json.dumps] of [json.loads(source)] with every ["doc"] blanked: lines
    112 to 126 of [formatSchema]. *)
Variable json_strip_docs : string → string.

Definition _writeWithIndent (string_ : string) (indentLevel : nat) : W unit :=
  let indent := Py.repeat_str " " (indentLevel * 4) in
  print (indent +:+ string_).

Definition _writeWrappedWithIndent (string_ : string) (indentLevel : nat)
  : W unit :=
  let indent := Py.repeat_str " " (indentLevel * 4) in
  print (textwrap_fill string_ indent).

Definition _writeNewline (numNewlines : nat) : W unit :=
  print (Py.repeat_str Py.newline (numNewlines - 1)).

Definition formatSchema (self : SchemaClass) : string :=
  let jsonData := json_strip_docs (schemaSource self) in
  Py.join Py.newline (textwrap_wrap jsonData) +:+ Py.newline.

Definition writeRequiredFields (self : SchemaClass) : W unit :=
  fields ← lift (requiredFields self);
  if (length fields <? 1)%nat then
    _writeWithIndent "requiredFields = set([])" 1
  else
    _writeWithIndent "requiredFields = set([" 1;;
    for_each fields (λ field,
      _writeWithIndent (Py.quote +:+ field_name field +:+ Py.quote +:+ ",") 2);;
    _writeWithIndent "])" 1.

Definition writeConstructor (self : SchemaClass) : W unit :=
  fs ← lift (getFields self);
  let slotString := "'" +:+ Py.join "', '" (field_name <$> fs) +:+ "'" in
  _writeWithIndent "__slots__ = [" 1;;
  _writeWrappedWithIndent slotString 2;;
  _writeWithIndent "]" 1;;
  _writeNewline 1;;
  _writeWithIndent "def __init__(self):" 1;;
  fs ← lift (getFields self);
  for_each fs (λ field,
    _writeWithIndent
      ("self." +:+ field_name field +:+ " = " +:+ default field) 2).

(** The inner function [writeEmbeddedTypes]. *)
Definition writeEmbeddedTypes (self : SchemaClass) : W unit :=
  et ← lift (getEmbeddedTypes self);
  if (length et =? 0)%nat then
    _writeWithIndent "embeddedTypes = {}" 2
  else
    _writeWithIndent "embeddedTypes = {" 2;;
    et ← lift (getEmbeddedTypes self);
    for_each et (λ e,
      _writeWithIndent ("'" +:+ e.1 +:+ "': " +:+ e.2 +:+ ",") 3);;
    _writeWithIndent "}" 2.

Definition writeEmbeddedTypesClassMethods (self : SchemaClass) : W unit :=
  _writeWithIndent "@classmethod" 1;;
  _writeWithIndent "def isEmbeddedType(cls, fieldName):" 1;;
  writeEmbeddedTypes self;;
  _writeWithIndent "return fieldName in embeddedTypes" 2;;
  _writeNewline 1;;
  _writeWithIndent "@classmethod" 1;;
  _writeWithIndent "def getEmbeddedType(cls, fieldName):" 1;;
  writeEmbeddedTypes self;;
  _writeNewline 1;;
  _writeWithIndent "return embeddedTypes[fieldName]" 2;;
  _writeNewline 1.

(** [SchemaClass.write] *)
Definition SchemaClass_write (self : SchemaClass) : W unit :=
  let superclass :=
    if isEnumSchema (schema self) then "object"
    else if isSearchRequest self then "SearchRequest"
    else if isSearchResponse self then "SearchResponse"
    else "ProtocolElement" in
  _writeNewline 2;;
  clsname ← lift (schema_name (schema self));
  print ("class " +:+ clsname +:+ "(" +:+ superclass +:+ "):");;
  doc ← lift (schema_doc (schema self));
  let doc := match doc with Some d => d | None => "No documentation" end in
  _writeWithIndent Py.triple_quote 1;;
  _writeWrappedWithIndent doc 1;;
  _writeWithIndent Py.triple_quote 1;;
  match schema self with
  | RecordSchema _ _ _ =>
      _writeWithIndent
        ("_schemaSource = " +:+ Py.triple_quote +:+ Py.newline +:+
         formatSchema self +:+ Py.triple_quote) 1;;
      _writeWithIndent "schema = avro.schema.parse(_schemaSource)" 1;;
      writeRequiredFields self;;
      (if isSearchResponse self then
         valueListName ← lift (getValueListName self);
         _writeWithIndent
           ("_valueListName = " +:+ Py.quote +:+ valueListName +:+ Py.quote) 1
       else mret tt);;
      _writeNewline 1;;
      writeEmbeddedTypesClassMethods self;;
      writeConstructor self
  | EnumSchema _ _ symbols =>
      for_each symbols (λ symbol,
        _writeWithIndent
          (symbol +:+ " = " +:+ Py.quote +:+ symbol +:+ Py.quote) 1)
  | _ => mret tt
  end.

End Emitter.

(** ** class SchemaGenerator *)

(** Python's order on the tuples [(url, request, response)]: the first
    component that differs decides. *)
Definition signature_compare (a b : Signature) : comparison :=
  match String.compare a.1.1 b.1.1 with
  | Eq =>
      match String.compare a.1.2 b.1.2 with
      | Eq => String.compare a.2 b.2
      | c => c
      end
  | c => c
  end.

Definition signature_le (a b : Signature) : Prop :=
  signature_compare a b ≠ Gt.

Global Instance signature_le_dec : RelDecision signature_le :=
  λ a b, not_dec (decide (signature_compare a b = Gt)).

Record SchemaGenerator : Type := mkSchemaGenerator {
  version : string;
  schemaDir : string;
  outputFile : string;
  verbosity : nat;
  classes : list SchemaClass;
  postSignatures : list Signature;
}.

(** The body of the loop over the pairs of [zip], lines 274 to 277. *)
Definition postSignatures_pair (acc : list Signature) (p : string * string)
  : result (list Signature) :=
  let (request, response) := p in
  match Re.search "Search" "Request" request with
  | None => Raise AttributeError
  | Some objname =>
      let url := "/" +:+ Py.lower objname +:+ "/search" in
      Ok (acc ++ [(url, request, response)])
  end.

(** Lines 267 to 278 of [SchemaGenerator.__init__]: the end point table of
    the classes, in the order in which [glob] listed their files.  [groups]
    on a failed search would raise AttributeError. *)
Definition makePostSignatures (classes : list SchemaClass)
  : result (list Signature) :=
  let requestClassNames := name <$> List.filter isSearchRequest classes in
  let responseClassNames := name <$> List.filter isSearchResponse classes in
  postSignatures ←
    rfold postSignatures_pair []
          (zip requestClassNames responseClassNames);
  Ok (sorted signature_le id postSignatures).

Section Generator.
Variable textwrap_fill : string → string → string.
Variable textwrap_wrap : string → list string.
Variable json_strip_docs : string → string.
(** [avro.schema.parse] *)
Variable avro_schema_parse : string → result Schema.

(** [SchemaClass.__init__], on the path of a file and what [read] gives. *)
Definition SchemaClass_init (sourceFile schemaSource : string)
  : result SchemaClass :=
  schema ← avro_schema_parse schemaSource;
  name ← schema_name schema;
  Ok (mkSchemaClass sourceFile schemaSource schema name).

(** [self.classes.append(SchemaClass(avscFile))] *)
Definition appendClass (acc : list SchemaClass) (f : string * string)
  : result (list SchemaClass) :=
  cls ← SchemaClass_init f.1 f.2;
  Ok (acc ++ [cls]).

(** [SchemaGenerator.__init__]; [avscFiles] is what [glob] lists, each path
    with the text of its file. *)
Definition SchemaGenerator_init (version schemaDir outputFile : string)
    (verbosity : nat) (avscFiles : list (string * string))
  : result SchemaGenerator :=
  classes ← rfold appendClass [] avscFiles;
  postSignatures ← makePostSignatures classes;
  Ok (mkSchemaGenerator version schemaDir outputFile verbosity
        classes postSignatures).

Definition writeHeader (self : SchemaGenerator) : W unit :=
  print (Py.triple_quote +:+ HEADER_COMMENT +:+ Py.triple_quote);;
  print "from protocol import ProtocolElement";;
  print "from protocol import SearchRequest";;
  print "from protocol import SearchResponse";;
  print "";;
  print "import avro.schema";;
  print "";;
  versionStr ← lift (
    match version self with
    | EmptyString => Raise IndexError
    | String c rest =>
        if bool_decide (Py.lower_char c = "v"%char)
           && Py.contains_char "." (version self)
        then Ok rest
        else Ok (version self)
    end);
  print ("version = '" +:+ versionStr +:+ "'").

(** The names in the order in which [write] prints their classes. *)
Definition emissionOrder (self : SchemaGenerator) : list string :=
  sorted_strings (name <$> classes self).

(** The loop of [write] over the classes.  [utils.log(name)], at a
    verbosity above 1, writes to the console and not to the file. *)
Definition writeClasses (self : SchemaGenerator) : W unit :=
  let classes := py_dict ((λ cls, (name cls, cls)) <$> classes self) in
  for_each (emissionOrder self) (λ name,
    cls ← lift (match classes !! name with
                | Some cls => Ok cls
                | None => Raise KeyError
                end);
    SchemaClass_write textwrap_fill textwrap_wrap json_strip_docs cls).

(** The end of [write]: the literal of [postMethods]. *)
Definition writePostMethods (self : SchemaGenerator) : W unit :=
  file_write (Py.newline +:+ "postMethods = " +:+ Py.backslash +:+
              Py.newline +:+ "    [('");;
  for_each (enumerate (postSignatures self)) (λ it,
    let '(i, (url, request, response)) := it in
    (if negb (i =? 0)%nat then file_write "     ('" else mret tt);;
    file_write url;;
    file_write ("'," +:+ Py.newline +:+ "      ");;
    file_write request;;
    file_write ("," +:+ Py.newline +:+ "      ");;
    file_write response;;
    file_write ")";;
    if (i =? length (postSignatures self) - 1)%nat
    then file_write ("]" +:+ Py.newline)
    else file_write ("," +:+ Py.newline)).

(** [SchemaGenerator.write], inside [with open(self.outputFile, "w")]. *)
Definition SchemaGenerator_write (self : SchemaGenerator) : W unit :=
  writeHeader self;;
  writeClasses self;;
  writePostMethods self.

(** The end of [SchemaProcessor.run]: build the generator, then write.
    [old] is the output file before the run ([None]: there is none).
    [open(..., "w")] empties the file, and leaving the [with] block, also
    by an exception, closes it with what was printed. *)
Definition generate (version schemaDir outputFile : string)
    (verbosity : nat) (avscFiles : list (string * string))
    (old : option string) : option string * result unit :=
  match SchemaGenerator_init version schemaDir outputFile verbosity
          avscFiles with
  | Raise e => (old, Raise e)
  | Ok sg =>
      let w := SchemaGenerator_write sg in
      (Some (out w), res w)
  end.

End Generator.

(** ** What the field of a record refers to

    [embeddedRecord t] is the record that the loop body of
    [getEmbeddedTypes] records for a field of type [t], when it raises
    nothing: a record, an array of records, or a union that starts with
    [null] and a record.  [spec_embeddedRecord] is the reading of the
    design text, whose union has exactly the two branches. *)

Definition embeddedRecord (t : Schema) : option string :=
  match t with
  | RecordSchema n _ _ => Some n
  | ArraySchema (RecordSchema n _ _) => Some n
  | UnionSchema (t0 :: RecordSchema n _ _ :: _) =>
      if isNullPrimitive t0 then Some n else None
  | _ => None
  end.

Definition spec_embeddedRecord (t : Schema) : option string :=
  match t with
  | RecordSchema n _ _ => Some n
  | ArraySchema (RecordSchema n _ _) => Some n
  | UnionSchema [t0; RecordSchema n _ _] =>
      if isNullPrimitive t0 then Some n else None
  | _ => None
  end.

(** The edge of one field, if it has one. *)
Definition edgeOf (f : Field) : option Edge :=
  (λ n, (field_name f, n)) <$> embeddedRecord (field_type f).

(** Fields in strictly ascending order of their names. *)
Definition field_lt (a b : Field) : Prop :=
  str_lt (field_name a) (field_name b).

Definition url_of (s : Signature) : string := s.1.1.

(** The text that [writeRequiredFields] prints for the names [names]. *)
Definition requiredFieldsLiteral (names : list string) : string :=
  match names with
  | [] => ("    " +:+ "requiredFields = set([])") +:+ Py.newline
  | _ =>
      (("    " +:+ "requiredFields = set([") +:+ Py.newline) +:+
      foldr (λ n acc,
               (("        " +:+ Py.quote +:+ n +:+ Py.quote +:+ ",")
                +:+ Py.newline) +:+ acc)
            (("    " +:+ "])") +:+ Py.newline) names
  end.

(** The record has the two fields [next_page_token] and [X]. *)
Definition responseShape (c : SchemaClass) (X : string) : Prop :=
  isSearchResponse c = true ∧
  ∃ fs, schema_fields (schema c) = Ok fs ∧
        field_name <$> fs ≡ₚ ["next_page_token"; X].

(** One row of the table, for a request paired with a response. *)
Definition signatureOf (p : string * string) (s : Signature) : Prop :=
  s.1.2 = p.1 ∧ s.2 = p.2 ∧
  ∃ object, Re.search "Search" "Request" p.1 = Some object ∧
            s.1.1 = "/" +:+ Py.lower object +:+ "/search".

(** ** Sample schemas *)

Module Samples.

Definition null : Schema := PrimitiveSchema "null".
Definition str : Schema := PrimitiveSchema "string".
Definition Call : Schema := RecordSchema "Call" None [].
Definition Variant : Schema := RecordSchema "Variant" None [].

Definition record (n : string) (fs : list Field) : SchemaClass :=
  mkSchemaClass (n +:+ ".avsc") n (RecordSchema n None fs) n.

(** The pair of the design text. *)
Definition SearchVariantsRequest : SchemaClass :=
  record "SearchVariantsRequest"
    [ mkField "reference_name" str false "None";
      mkField "page_token" (UnionSchema [null; str]) true "None" ].

Definition SearchVariantsResponse : SchemaClass :=
  record "SearchVariantsResponse"
    [ mkField "variants" (ArraySchema Variant) true "[]";
      mkField "next_page_token" (UnionSchema [null; str]) true "None" ].

(** A response without [next_page_token]. *)
Definition SearchCallsResponse : SchemaClass :=
  record "SearchCallsResponse"
    [ mkField "calls" (ArraySchema Call) true "[]" ].

(** Union[null, Array[Record("Call")]] *)
Definition nullableCalls : Field :=
  mkField "calls" (UnionSchema [null; ArraySchema Call]) true "None".
Definition CallSet : SchemaClass :=
  record "CallSet" [ mkField "id" str false "None"; nullableCalls ].

(** A union of three branches that starts with [null] and a record. *)
Definition callOrName : Field :=
  mkField "call" (UnionSchema [null; Call; str]) true "None".
Definition Genotype : SchemaClass :=
  record "Genotype" [ mkField "id" str false "None"; callOrName ].

(** A union that does not start with [null]. *)
Definition nameOrNull : Field :=
  mkField "alias" (UnionSchema [str; null]) false "None".

(** A union of a single branch. *)
Definition onlyNull : Field :=
  mkField "nothing" (UnionSchema [null]) true "None".
Definition Odd : SchemaClass :=
  record "Odd" [ mkField "value" Call false "None"; onlyNull ].

(** Two search pairs, and two orders in which [glob] can list them. *)
Definition response (n item : string) : SchemaClass :=
  record n
    [ mkField item (ArraySchema Call) true "[]";
      mkField "next_page_token" (UnionSchema [null; str]) true "None" ].
Definition SearchARequest : SchemaClass := record "SearchARequest" [].
Definition SearchBRequest : SchemaClass := record "SearchBRequest" [].
Definition SearchAResponse : SchemaClass := response "SearchAResponse" "as_".
Definition SearchBResponse : SchemaClass := response "SearchBResponse" "bs".

Definition listing1 : list SchemaClass :=
  [SearchARequest; SearchAResponse; SearchBRequest; SearchBResponse].
Definition listing2 : list SchemaClass :=
  [SearchBRequest; SearchAResponse; SearchARequest; SearchBResponse].

(** Stand-ins for the library calls, to run the generator on the samples:
    a parser that knows the sample schemas by the text of their files,
    and wrapping that leaves short text on one line. *)
Definition parse (known : list SchemaClass) (source : string)
  : result Schema :=
  match List.find (λ c, bool_decide (schemaSource c = source)) known with
  | Some c => Ok (schema c)
  | None => Raise SchemaParseException
  end.
Definition fill (text indent : string) : string := indent +:+ text.
Definition wrap (text : string) : list string := [text].
Definition strip (source : string) : string := source.

Definition file (c : SchemaClass) : string * string :=
  (sourceFile c, schemaSource c).

Definition known : list SchemaClass :=
  listing1 ++ [SearchVariantsRequest; SearchVariantsResponse;
               SearchCallsResponse; CallSet; Genotype; Odd].

(** The generator of the pair of the design text. *)
Definition generator : SchemaGenerator :=
  mkSchemaGenerator "v0.5.1" "avro" "out.py" 0
    [SearchVariantsResponse; SearchVariantsRequest]
    [("/variants/search", "SearchVariantsRequest",
      "SearchVariantsResponse")].

Definition run (avscFiles : list (string * string))
  : option string * result unit :=
  generate fill wrap strip (parse known) "v0.5.1" "avro" "out.py" 0
    avscFiles None.

End Samples.

(** * The rest of the script: descriptions for its properties *)

(** ** Names that the patterns match *)

(** No character of [s] is a newline: the characters that [.] takes. *)
Fixpoint no_newline (s : string) : bool :=
  match s with
  | EmptyString => true
  | String c s' => negb (Re.is_newline c) && no_newline s'
  end.

(** [s] holds [pre], then one character or more on one line, then [post]. *)
Definition matches (pre post s : string) : Prop :=
  ∃ a g b, s = a +:+ pre +:+ g +:+ post +:+ b ∧ g ≠ "" ∧ no_newline g = true.

(** ** Unions that the resolver accepts *)

(** A type on which the loop body of [getEmbeddedTypes] raises nothing:
    any type but a union, and a union of two branches or more that starts
    with [null]. *)
Definition unionOk (t : Schema) : bool :=
  match t with
  | UnionSchema (t0 :: _ :: _) => isNullPrimitive t0
  | UnionSchema _ => false
  | _ => true
  end.

(** ** The literal of [postMethods] *)

(** One row, from its url to its closing bracket; the quote and bracket
    that open it belong to the text in front of it. *)
Definition rowText (s : Signature) : string :=
  s.1.1 +:+ ("'," +:+ Py.newline +:+ "      ") +:+
  s.1.2 +:+ ("," +:+ Py.newline +:+ "      ") +:+
  s.2 +:+ ")".

(** The rows, separated by a comma and a newline, and the closing bracket
    of the list after the last of them. *)
Fixpoint rowsText (rows : list Signature) : string :=
  match rows with
  | [] => ""
  | [r] => rowText r +:+ ("]" +:+ Py.newline)
  | r :: rows' =>
      rowText r +:+ ("," +:+ Py.newline) +:+ "     ('" +:+ rowsText rows'
  end.

Definition postMethodsText (rows : list Signature) : string :=
  (Py.newline +:+ "postMethods = " +:+ Py.backslash +:+ Py.newline +:+
   "    [('") +:+ rowsText rows.

(** ** The constructor of an emitted class *)

(** The text between the brackets of [__slots__], before it is wrapped. *)
Definition slotString (names : list string) : string :=
  "'" +:+ Py.join "', '" names +:+ "'".

(** The line of the constructor that sets one field. *)
Definition assignmentLine (f : Field) : string :=
  ("        " +:+ "self." +:+ field_name f +:+ " = " +:+ default f)
  +:+ Py.newline.

(** What [writeConstructor] prints for the fields [fs], in their order;
    [fill] is [textwrap.fill]. *)
Definition constructorText (fill : string → string → string)
    (fs : list Field) : string :=
  (("    " +:+ "__slots__ = [") +:+ Py.newline) +:+
  (fill (slotString (field_name <$> fs)) "        " +:+ Py.newline) +:+
  (("    " +:+ "]") +:+ Py.newline) +:+
  Py.newline +:+
  (("    " +:+ "def __init__(self):") +:+ Py.newline) +:+
  foldr (λ f acc, assignmentLine f +:+ acc) "" fs.

(** ** The dictionary of the classes *)

(** The class that comes last in the listing among those named [n]. *)
Definition lastNamed (classes : list SchemaClass) (n : string)
  : option SchemaClass :=
  List.find (λ c, bool_decide (name c = n)) (rev classes).

(** ** The loop of [formatSchema] that blanks the documentation

    [json.loads] gives every JSON object a dictionary of its own, and the
    loop changes the dictionaries in place, through the references that it
    keeps on its stack.  The dictionaries are the cells of a heap; a value
    that is a dictionary is the number of its cell.  Lists and the other
    values are never changed and stay where they are.  The entries of a
    dictionary are in the order in which [values] lists them. *)

Module StripDocs.

#[local] Unset Elimination Schemes.
Inductive value : Type :=
| VNull
| VBool (b : bool)
| VNumber (text : string)
| VString (s : string)
| VList (items : list value)
| VDict (ref : nat).
#[local] Set Elimination Schemes.

Abbreviation dict := (list (string * value)).
Abbreviation heap := (list dict).

(** ["doc" in elm] *)
Definition has_doc (elm : dict) : bool := bool_decide ("doc" ∈ elm.*1).

(** [elm["doc"] = ""]: the entry keeps its place. *)
Definition set_doc (elm : dict) : dict :=
  (λ kv, if decide (kv.1 = "doc") then (kv.1, VString "") else kv) <$> elm.

(** What the body of [for value in elm.values()] appends to the stack for
    one value, in the order in which it appends. *)
Definition pushed_value (v : value) : list nat :=
  match v with
  | VDict ref => [ref]
  | VList items =>
      items ≫= λ dic, match dic with VDict ref => [ref] | _ => [] end
  | _ => []
  end.

Definition pushed (elm : dict) : list nat := elm.*2 ≫= pushed_value.

(** One turn of the [while] loop.  The head of [stack] is the end of the
    Python list, where [pop] takes and [append] adds.  [None]: the stack is
    empty, or the reference is to no cell of the heap. *)
Definition iteration (h : heap) (stack : list nat)
  : option (heap * list nat) :=
  match stack with
  | [] => None
  | ref :: rest =>
      elm ← h !! ref;
      let h' := if has_doc elm then <[ref := set_doc elm]> h else h in
      elm' ← h' !! ref;
      Some (h', rev (pushed elm') ++ rest)
  end.

(** The [while] loop, for at most [fuel] turns. *)
Fixpoint loop (fuel : nat) (h : heap) (stack : list nat) : option heap :=
  match stack with
  | [] => Some h
  | _ :: _ =>
      match fuel with
      | O => None
      | S fuel' =>
          match iteration h stack with
          | Some (h', stack') => loop fuel' h' stack'
          | None => None
          end
      end
  end.

(** The dictionary [ref'] is pushed when [ref] is popped: it is the value
    of an entry of [ref] other than [doc], or an item of the list that is
    the value of such an entry. *)
Definition link (h : heap) (ref ref' : nat) : Prop :=
  ∃ elm, h !! ref = Some elm ∧ ref' ∈ pushed (set_doc elm).

(** The references go forward, as when the dictionaries are numbered in
    the order of the text. *)
Definition forward (h : heap) : Prop :=
  ∀ ref elm ref', h !! ref = Some elm → ref' ∈ pushed elm →
                  ref < ref' < length h.

(** [forward], as a test that runs. *)
Definition forwardb (h : heap) : bool :=
  forallb (λ it : nat * dict,
             forallb (λ ref', (it.1 <? ref')%nat && (ref' <? length h)%nat)
                     (pushed it.2))
          (enumerate h).

(** The turns that the loop takes for [ref] and all that it pushes, down
    to [depth] links. *)
Fixpoint cost (h : heap) (depth : nat) (ref : nat) : nat :=
  match depth with
  | O => 1
  | S depth' =>
      match h !! ref with
      | Some elm => S (sum_list_with (cost h depth') (pushed (set_doc elm)))
      | None => 1
      end
  end.

(** A record with two fields; the type of the second is a list in a list,
    whose dictionary the loop does not reach. *)
Definition sample : heap :=
  [ [ ("type", VString "record"); ("name", VString "R");
      ("doc", VString "about R"); ("fields", VList [VDict 1; VDict 2]) ];
    [ ("name", VString "a"); ("doc", VString "about a");
      ("type", VString "string") ];
    [ ("name", VString "b"); ("doc", VString "about b");
      ("type", VList [VString "null"; VList [VDict 3]]) ];
    [ ("type", VString "map"); ("doc", VString "inner");
      ("values", VString "int") ] ].

Definition stripped : heap :=
  [ [ ("type", VString "record"); ("name", VString "R");
      ("doc", VString ""); ("fields", VList [VDict 1; VDict 2]) ];
    [ ("name", VString "a"); ("doc", VString "");
      ("type", VString "string") ];
    [ ("name", VString "b"); ("doc", VString "");
      ("type", VList [VString "null"; VList [VDict 3]]) ];
    [ ("type", VString "map"); ("doc", VString "inner");
      ("values", VString "int") ] ].

End StripDocs.

(** ** The processor *)

(** [SchemaProcessor] and [main] work through calls of the libraries and of
    [utils]: a program here is a tree of such calls, each continued on what
    the call returns or raises, and a world answers every call from the
    calls made so far. *)
Module Processor.

(** What [parser.parse_args()] returns. *)
Module Args.
Record t : Type := mk {
  outputFile : string;
  version : string;
  avro_tools_jar : option string;
  inputSchemasDirectory : option string;
  verbose : nat
}.
End Args.

Inductive call : Type :=
| tempfile_mkdtemp (prefix : string)
| utils_log (msg : string)
| shutil_rmtree (path : string)
  (** [utils.FileDownloader(url, destination).download()] *)
| utils_download (url destination : string)
  (** [utils.runCommandSplits(args)], [silent] when it is passed *)
| utils_runCommandSplits (args : list string) (silent : option bool)
| os_path_abspath (path : string)
| tarfile_open (name mode : string)
| tarball_extractall (name path : string)
  (** leaving the [with] block of the tarball *)
| tarball_exit (name : string)
| os_path_exists (path : string)
| os_makedirs (path : string)
| glob_iglob (pattern : string)
| os_path_isfile (path : string)
| shutil_copy2 (src dst : string)
| os_getcwd
| os_chdir (path : string)
| glob_glob (pattern : string)
  (** [SchemaGenerator(version, schemaDir, outputFile, verbosity).write()],
      the subject of [generate] *)
| SchemaGenerator_run (version schemaDir outputFile : string)
                      (verbosity : nat).

(** What a call returns. *)
Definition answer (c : call) : Type :=
  match c with
  | tempfile_mkdtemp _ | os_path_abspath _ | os_getcwd => string
  | os_path_exists _ | os_path_isfile _ => bool
  | glob_iglob _ | glob_glob _ => list string
  | _ => unit
  end.

Inductive prog (A : Type) : Type :=
| Return (a : A)
| Throw (e : exn)
| Ask (c : call) (k : result (answer c) → prog A).
Arguments Return {A} a.
Arguments Throw {A} e.
Arguments Ask {A} c k.

Fixpoint prog_bind {A B} (k : A → prog B) (p : prog A) : prog B :=
  match p with
  | Return a => k a
  | Throw e => Throw e
  | Ask c k' => Ask c (λ r, prog_bind k (k' r))
  end.

#[global] Instance prog_ret : MRet prog := λ A a, Return a.
#[global] Instance prog_mbind : MBind prog := λ A B k p, prog_bind k p.

(** A call whose exception is not caught. *)
Definition do (c : call) : prog (answer c) :=
  Ask c (λ r, match r with Ok a => Return a | Raise e => Throw e end).

(** [try: body finally: final]; an exception of [final] replaces the
    outcome of [body]. *)
Fixpoint try_finally {A} (body : prog A) (final : prog unit) : prog A :=
  match body with
  | Return a => final;; Return a
  | Throw e => final;; Throw e
  | Ask c k => Ask c (λ r, try_finally (k r) final)
  end.

(** [for x in l: body(x)] *)
Fixpoint for_in {B} (l : list B) (body : B → prog unit) : prog unit :=
  match l with
  | [] => Return tt
  | x :: l' => body x;; for_in l' body
  end.

(** [if b: p] *)
Definition when (b : bool) (p : prog unit) : prog unit :=
  if b then p else Return tt.

(** A world answers a call from the calls made before it. *)
Definition world : Type := list call → ∀ c : call, result (answer c).

(** The calls made, after [past], and the outcome. *)
Fixpoint exec {A} (w : world) (past : list call) (p : prog A)
  : list call * result A :=
  match p with
  | Return a => (past, Ok a)
  | Throw e => (past, Raise e)
  | Ask c k => exec w (past ++ [c]) (k (w past c))
  end.

Definition trace {A} (w : world) (p : prog A) : list call :=
  (exec w [] p).1.
Definition outcome {A} (w : world) (p : prog A) : result A :=
  (exec w [] p).2.

(** Every call that [p] can make, whatever it is answered, is in [P]. *)
Inductive uses {A} (P : call → Prop) : prog A → Prop :=
| uses_Return a : uses P (Return a)
| uses_Throw e : uses P (Throw e)
| uses_Ask c k : P c → (∀ r, uses P (k r)) → uses P (Ask c k).

Record SchemaProcessor : Type := mkSchemaProcessor {
  version : string;
  destinationFile : string;
  verbosity : nat;
  tmpDir : string;
  sourceTar : string;
  avroJarPath : option string;
  schemaDir : string;
  avroJar : string;
  sourceDir : option string;
  avroPath : string
}.

(** The calls of [run] before it asks for the working directory, and the
    calls of its conversions. *)
Definition is_setup (c : call) : bool :=
  match c with
  | os_getcwd | os_chdir _ | glob_glob _ | utils_runCommandSplits _ _
  | SchemaGenerator_run _ _ _ _ | shutil_rmtree _ | utils_log _
  | tempfile_mkdtemp _ => false
  | _ => true
  end.

Definition is_conversion (c : call) : bool :=
  match c with
  | utils_log _ | utils_runCommandSplits _ _ => true
  | _ => false
  end.

Definition is_remote (c : call) : bool :=
  match c with
  | utils_download _ _ | tarfile_open _ _ | tarball_extractall _ _
  | tarball_exit _ => true
  | _ => false
  end.

(** The commands run, of the calls made. *)
Definition commands (t : list call)
  : list (list string * option bool) :=
  omap (λ c, match c with
             | utils_runCommandSplits args silent => Some (args, silent)
             | _ => None
             end) t.

(** The directories changed to, and the generators run, of the calls
    made. *)
Definition chdirs (t : list call) : list string :=
  omap (λ c, match c with os_chdir path => Some path | _ => None end) t.

Definition generated (t : list call)
  : list (string * string * string * nat) :=
  omap (λ c, match c with
             | SchemaGenerator_run v d o n => Some (v, d, o, n)
             | _ => None
             end) t.



(** The command of [convertAvro] for one file, and how it is run. *)
Definition command (jar : string) (verbosity : nat) (avdlFile : string)
  : list string * option bool :=
  (["java"; "-jar"; jar; "idl2schemata"; avdlFile],
   if (1 <? verbosity)%nat then None else Some true).

(** [self.avroJar = jar] *)
Definition with_avroJar (self : SchemaProcessor) (jar : string)
  : SchemaProcessor :=
  mkSchemaProcessor
    (version self) (destinationFile self) (verbosity self)
    (tmpDir self) (sourceTar self) (avroJarPath self)
    (schemaDir self) jar (sourceDir self) (avroPath self).

Section Program.
(** [os.path.join], of two paths *)
Variable os_path_join : string → string → string.

(** [SchemaProcessor.__init__] *)
Definition init (args : Args.t) : prog SchemaProcessor :=
  tmpDir ← do (tempfile_mkdtemp "ga4gh_");
  let sourceTar := os_path_join tmpDir "schemas.tar.gz" in
  let string := "schemas-" +:+ Py.skip 1 (Args.version args) in
  let schemaDir := os_path_join tmpDir string in
  Return (mkSchemaProcessor
            (Args.version args) (Args.outputFile args) (Args.verbose args)
            tmpDir sourceTar (Args.avro_tools_jar args) schemaDir
            (os_path_join schemaDir "avro-tools.jar")
            (Args.inputSchemasDirectory args)
            "src/main/resources/avro").

Definition cleanup (self : SchemaProcessor) : prog unit :=
  when (1 <? verbosity self)%nat
    (do (utils_log ("Cleaning up tmp dir " +:+ tmpDir self)));;
  do (shutil_rmtree (tmpDir self)).

Definition download (url destination : string) : prog unit :=
  do (utils_download url destination).

Definition convertAvro (self : SchemaProcessor) (avdlFile : string)
  : prog unit :=
  let args := ["java"; "-jar"; avroJar self; "idl2schemata"; avdlFile] in
  when (0 <? verbosity self)%nat
    (do (utils_log ("converting " +:+ avdlFile)));;
  when (1 <? verbosity self)%nat
    (do (utils_log ("running: " +:+ Py.join " " args)));;
  if (1 <? verbosity self)%nat
  then do (utils_runCommandSplits args None)
  else do (utils_runCommandSplits args (Some true)).

(** [setupAvroJar] assigns [self.avroJar] in its first branch: it returns
    the processor after it. *)
Definition setupAvroJar (self : SchemaProcessor) : prog SchemaProcessor :=
  match avroJarPath self with
  | Some path =>
      jar ← do (os_path_abspath path);
      Return (with_avroJar self jar)
  | None =>
      let url := "http://www.carfab.com/apachesoftware/avro/stable/java/"
                 +:+ "avro-tools-1.7.7.jar" in
      download url (avroJar self);;
      Return self
  end.

Definition getSchemaFromGitHub (self : SchemaProcessor) : prog unit :=
  let url := "https://github.com/ga4gh/schemas/archive/" +:+ version self
             +:+ ".tar.gz" in
  download url (sourceTar self);;
  do (tarfile_open (sourceTar self) "r");;
  try_finally (do (tarball_extractall (sourceTar self) (tmpDir self)))
              (do (tarball_exit (sourceTar self))).

(** [shutil.copy2], for the files among what [iglob] lists *)
Definition copyFile (destDir avdlFile : string) : prog unit :=
  isfile ← do (os_path_isfile avdlFile);
  when isfile (do (shutil_copy2 avdlFile destDir)).

Definition getSchemaFromLocal (self : SchemaProcessor) : prog unit :=
  let destDir := os_path_join (schemaDir self) (avroPath self) in
  exists_ ← do (os_path_exists destDir);
  when (negb exists_) (do (os_makedirs destDir));;
  match sourceDir self with
  | None => Throw AttributeError
  | Some sourceDir =>
      avdlFiles ← do (glob_iglob (os_path_join sourceDir "*.avdl"));
      for_in avdlFiles (copyFile destDir)
  end.

Definition run (self : SchemaProcessor) : prog unit :=
  match sourceDir self with
  | None => getSchemaFromGitHub self
  | Some _ => getSchemaFromLocal self
  end;;
  let directory := os_path_join (schemaDir self) (avroPath self) in
  self ← setupAvroJar self;
  cwd ← do os_getcwd;
  do (os_chdir directory);;
  avdlFiles ← do (glob_glob "*.avdl");
  for_in avdlFiles (convertAvro self);;
  do (os_chdir cwd);;
  when (0 <? verbosity self)%nat
    (do (utils_log ("Writing schemas to " +:+ destinationFile self)));;
  do (SchemaGenerator_run (version self) directory (destinationFile self)
        (verbosity self)).

(** [main], from the parsed arguments on. *)
Definition main (args : Args.t) : prog unit :=
  sp ← init args;
  try_finally (run sp) (cleanup sp).

End Program.

(** A world in which every call returns, and one in which the conversion
    of [b.avdl] fails. *)
Module Samples.

Definition join (a b : string) : string := a +:+ "/" +:+ b.

Definition fine : world := λ _ c,
  match c return result (answer c) with
  | tempfile_mkdtemp prefix => Ok ("/tmp/" +:+ prefix +:+ "x")
  | os_path_abspath path => Ok ("/home/" +:+ path)
  | os_getcwd => Ok "/home"
  | os_path_exists _ => Ok false
  | os_path_isfile _ => Ok true
  | glob_iglob _ => Ok ["in/a.avdl"; "in/b.avdl"]
  | glob_glob _ => Ok ["a.avdl"; "b.avdl"]
  | utils_log _ | shutil_rmtree _ | utils_download _ _
  | utils_runCommandSplits _ _ | tarfile_open _ _
  | tarball_extractall _ _ | tarball_exit _ | os_makedirs _
  | shutil_copy2 _ _ | os_chdir _ | SchemaGenerator_run _ _ _ _ => Ok tt
  end.

Definition failing : world := λ past c,
  match c return result (answer c) with
  | utils_runCommandSplits ["java"; "-jar"; _; "idl2schemata"; "b.avdl"] _ =>
      Raise (Exception "java")
  | c => fine past c
  end.

(** [-j avro-tools.jar -i in v0.5.1] *)
Definition local : Args.t :=
  Args.mk "out.py" "v0.5.1" (Some "avro-tools.jar") (Some "in") 0.

(** [v0.5.1] *)
Definition remote : Args.t := Args.mk "out.py" "v0.5.1" None None 0.

(** The processor that [__init__] makes of the arguments in these worlds. *)
Definition processor (args : Args.t) : SchemaProcessor :=
  let tmpDir := "/tmp/ga4gh_x" in
  let schemaDir := join tmpDir ("schemas-" +:+ Py.skip 1 (Args.version args)) in
  mkSchemaProcessor
    (Args.version args) (Args.outputFile args) (Args.verbose args)
    tmpDir (join tmpDir "schemas.tar.gz") (Args.avro_tools_jar args)
    schemaDir (join schemaDir "avro-tools.jar")
    (Args.inputSchemasDirectory args) "src/main/resources/avro".

End Samples.

End Processor.

(** ** More samples *)

Module More.

(** The generator of the sample pair, for the version without its [v]. *)
Definition plainVersion : SchemaGenerator :=
  mkSchemaGenerator "0.5.1" "avro" "out.py" 0
    [Samples.SearchVariantsResponse; Samples.SearchVariantsRequest]
    [("/variants/search", "SearchVariantsRequest",
      "SearchVariantsResponse")].

End More.

(** * Properties *)

(** ** The monads *)

Lemma rbind_Ok {A B} (m : result A) (k : A → result B) (b : B) :
  m ≫= k = Ok b ↔ ∃ a, m = Ok a ∧ k a = Ok b.
Proof.
  destruct m as [a|e]; simpl.
  - split; [eauto|]. by intros (a' & [= <-] & ?).
  - split; [done|]. by intros (? & ? & ?).
Qed.

Lemma rfold_cons {A B} (body : A → B → result A) (acc : A) x l :
  rfold body acc (x :: l) =
  match body acc x with
  | Ok acc' => rfold body acc' l
  | Raise e => Raise e
  end.
Proof. done. Qed.

Lemma is_ok_true {A} (r : result A) : is_ok r = true ↔ ∃ a, r = Ok a.
Proof. destruct r; simpl; split; [eauto|by intros [? ?]|done|by intros [? ?]]. Qed.

Lemma is_ok_false {A} (r : result A) : is_ok r = false ↔ ∃ e, r = Raise e.
Proof. destruct r; simpl; split; [done|by intros [? ?]|eauto|by intros [? ?]]. Qed.

Lemma out_bind_Ok {A B} (m : W A) (k : A → W B) (a : A) :
  res m = Ok a →
  out (m ≫= k) = out m +:+ out (k a) ∧ res (m ≫= k) = res (k a).
Proof. intros Hm. unfold mbind, W_bind. by rewrite Hm. Qed.

Lemma out_bind_Raise {A B} (m : W A) (k : A → W B) (e : exn) :
  res m = Raise e → out (m ≫= k) = out m ∧ res (m ≫= k) = Raise e.
Proof. intros Hm. unfold mbind, W_bind. by rewrite Hm. Qed.

(** ** [sorted] *)

Section SortingFacts.
Context {A K : Type} (le : relation K) `{!RelDecision le} (key : A → K).

Local Abbreviation keyed := (λ a b : A, le (key a) (key b)).
Local Abbreviation strict := (λ a b : A, le (key a) (key b) ∧ key a ≠ key b).

Lemma sorted_insert_perm x l : sorted_insert le key x l ≡ₚ x :: l.
Proof.
  induction l as [|y l IH]; simpl; [done|].
  case_decide; [done|]. by rewrite IH, Permutation_swap.
Qed.

Lemma sorted_perm l : sorted le key l ≡ₚ l.
Proof.
  induction l as [|x l IH]; simpl; [done|].
  by rewrite sorted_insert_perm, IH.
Qed.

Lemma sorted_insert_HdRel `{!Total le} x y l :
  le (key y) (key x) → HdRel keyed y l →
  HdRel keyed y (sorted_insert le key x l).
Proof.
  intros Hyx Hhd. destruct Hhd as [|z l Hyz]; simpl.
  - by constructor.
  - case_decide; by constructor.
Qed.

Lemma sorted_insert_Sorted `{!Total le} x l :
  Sorted keyed l → Sorted keyed (sorted_insert le key x l).
Proof.
  induction 1 as [|y l Hl IH Hhd]; simpl.
  - by repeat constructor.
  - case_decide as Hxy.
    + by repeat constructor.
    + constructor; [done|].
      apply sorted_insert_HdRel; [|done].
      by destruct (total le (key x) (key y)).
Qed.

Lemma sorted_Sorted `{!Total le} l : Sorted keyed (sorted le key l).
Proof.
  induction l as [|x l IH]; simpl; [constructor|].
  by apply sorted_insert_Sorted.
Qed.

Lemma sorted_StronglySorted `{!Total le, !Transitive le} l :
  StronglySorted keyed (sorted le key l).
Proof.
  apply Sorted.Sorted_StronglySorted; [|apply sorted_Sorted].
  intros a b c ??. by etrans.
Qed.

Lemma NoDup_fmap_elem (l : list A) x y :
  NoDup (key <$> l) → x ∈ l → y ∈ l → key x = key y → x = y.
Proof.
  induction l as [|z l IH]; csimpl; [by inversion 2|].
  rewrite NoDup_cons, !elem_of_cons, list_elem_of_fmap.
  intros [Hz Hl] [->|Hx] [->|Hy] Hk; eauto.
  - destruct Hz. eauto.
  - destruct Hz. eauto.
Qed.

Lemma sorted_strict `{!Total le, !Transitive le} l :
  NoDup (key <$> l) → StronglySorted strict (sorted le key l).
Proof.
  intros Hnd.
  assert (NoDup (key <$> sorted le key l)) as Hnd'.
  { by rewrite sorted_perm. }
  pose proof (sorted_StronglySorted l) as Hs.
  induction Hs as [|x s Hs IH Hx]; [constructor|].
  csimpl in Hnd'. apply NoDup_cons in Hnd' as [Hnx Hnd'].
  constructor; [by apply IH|].
  rewrite Forall_forall in Hx |- *. intros y Hy. split; [by apply Hx|].
  intros Hk. apply Hnx. rewrite Hk. by apply list_elem_of_fmap_2.
Qed.

Lemma sorted_perm_eq `{!Total le, !PartialOrder le} l1 l2 :
  l1 ≡ₚ l2 → NoDup (key <$> l1) → sorted le key l1 = sorted le key l2.
Proof.
  intros Hp Hnd.
  apply (StronglySorted_unique_strong keyed);
    [|apply sorted_StronglySorted..|by rewrite !sorted_perm].
  intros x1 x2 H1 H2 H12 H21.
  apply (NoDup_fmap_elem l1); [done| | |by apply (anti_symm le)].
  - by rewrite <-(sorted_perm l1).
  - by rewrite Hp, <-(sorted_perm l2).
Qed.

Lemma sorted_filter_strict (P : A → bool) l :
  StronglySorted strict l → StronglySorted strict (List.filter P l).
Proof.
  induction 1 as [|x l Hl IH Hx]; simpl; [constructor|].
  destruct (P x); [|done]. constructor; [done|].
  rewrite Forall_forall in Hx |- *. intros y Hy. apply Hx.
  apply list_elem_of_In. apply list_elem_of_In in Hy.
  by apply List.filter_In in Hy as [? _].
Qed.
End SortingFacts.

(** [sorted] on text, where the key is the text itself. *)
Lemma sorted_strings_perm_eq (l1 l2 : list string) :
  l1 ≡ₚ l2 → sorted_strings l1 = sorted_strings l2.
Proof.
  intros Hp. unfold sorted_strings.
  apply (StronglySorted_unique String.le).
  - apply (sorted_StronglySorted String.le id).
  - apply (sorted_StronglySorted String.le id).
  - by rewrite !sorted_perm.
Qed.

(** ** Dictionaries built from a list of entries *)

Lemma py_dict_snoc {V} (l : list (string * V)) k v :
  py_dict (l ++ [(k, v)]) = <[k := v]> (py_dict l).
Proof. unfold py_dict. by rewrite foldl_app. Qed.

Lemma py_dict_lookup {V} (l : list (string * V)) k v :
  NoDup l.*1 → py_dict l !! k = Some v ↔ (k, v) ∈ l.
Proof.
  induction l as [|[k' v'] l IH] using rev_ind; intros Hnd.
  - unfold py_dict; simpl. rewrite lookup_empty. split; [done|by inversion 1].
  - rewrite fmap_app in Hnd. apply NoDup_app in Hnd as (Hnd & Hk' & _).
    rewrite py_dict_snoc, elem_of_app, list_elem_of_singleton.
    destruct (decide (k' = k)) as [->|Hne].
    + rewrite lookup_insert_eq. split.
      * intros [= ->]. by right.
      * intros [Hin|[= ->]]; [|done].
        exfalso. apply (Hk' k); [|by left].
        apply list_elem_of_fmap. by exists (k, v).
    + rewrite lookup_insert_ne by done. rewrite IH by done.
      split; [by left|]. intros [?|[= ? ?]]; [done|]. by subst.
Qed.

Lemma py_dict_lookup_None {V} (l : list (string * V)) k :
  py_dict l !! k = None ↔ k ∉ l.*1.
Proof.
  induction l as [|[k' v'] l IH] using rev_ind.
  - unfold py_dict; simpl. rewrite lookup_empty. split; [|done].
    intros _. by inversion 1.
  - rewrite py_dict_snoc, fmap_app, not_elem_of_app. csimpl.
    rewrite list_elem_of_singleton.
    destruct (decide (k' = k)) as [->|Hne].
    + rewrite lookup_insert_eq. split; [done|]. by intros [_ []].
    + rewrite lookup_insert_ne by done. rewrite IH.
      split; [by intros ?; split|by intros [? _]].
Qed.

Lemma py_dict_perm {V} (l1 l2 : list (string * V)) :
  l1 ≡ₚ l2 → NoDup l1.*1 → py_dict l1 = py_dict l2.
Proof.
  intros Hp Hnd. apply map_eq. intros k. apply option_eq. intros v.
  rewrite !py_dict_lookup; [by rewrite Hp|by rewrite <-Hp|done].
Qed.

(** ** Order of emission *)

Lemma getFields_record (c : SchemaClass) (fs : list Field) :
  schema_fields (schema c) = Ok fs →
  getFields c = Ok (sorted String.le field_name fs).
Proof. intros Hfs. unfold getFields. by rewrite Hfs. Qed.

Lemma str_lt_fields (l : list Field) :
  StronglySorted
    (λ a b, String.le (field_name a) (field_name b)
            ∧ field_name a ≠ field_name b) l ↔
  StronglySorted field_lt l.
Proof. done. Qed.

Section EmissionOrder.
Variable textwrap_fill : string → string → string.
Variable textwrap_wrap : string → list string.
Variable json_strip_docs : string → string.

Lemma writeClasses_perm (g g' : SchemaGenerator) :
  classes g' ≡ₚ classes g →
  NoDup (name <$> classes g) →
  writeClasses textwrap_fill textwrap_wrap json_strip_docs g' =
  writeClasses textwrap_fill textwrap_wrap json_strip_docs g.
Proof.
  intros Hp Hnd. unfold writeClasses, emissionOrder.
  rewrite (sorted_strings_perm_eq _ (name <$> classes g))
    by (by rewrite Hp).
  rewrite (py_dict_perm _ ((λ cls, (name cls, cls)) <$> classes g)).
  - done.
  - by rewrite Hp.
  - rewrite <-list_fmap_compose.
    assert (name <$> classes g' ≡ₚ name <$> classes g) as Hn
      by (by rewrite Hp).
    by rewrite <-Hn in Hnd.
Qed.

(** C6: the classes are printed in strictly ascending order of their
    names, and the fields that the required set, the constructor and the
    slots go through are in strictly ascending order of their names.
    Neither order depends on the order in which the classes were listed or
    the fields were declared: listing the same classes in another order
    prints the same text for them, and declaring the same fields in
    another order gives the same field sequence.  Names are unique, as in
    every Avro record and every schema directory. *)
Theorem emission_sorted_by_name (g : SchemaGenerator) :
  NoDup (name <$> classes g) →
  (∀ c fs, c ∈ classes g → schema_fields (schema c) = Ok fs →
           NoDup (field_name <$> fs)) →
  StronglySorted str_lt (emissionOrder g) ∧
  emissionOrder g ≡ₚ name <$> classes g ∧
  (∀ g', classes g' ≡ₚ classes g →
     emissionOrder g' = emissionOrder g ∧
     writeClasses textwrap_fill textwrap_wrap json_strip_docs g' =
     writeClasses textwrap_fill textwrap_wrap json_strip_docs g) ∧
  (∀ c fs, c ∈ classes g → schema_fields (schema c) = Ok fs →
     ∃ sfs,
       getFields c = Ok sfs ∧
       requiredFields c =
         Ok (List.filter (λ f, negb (has_default f)) sfs) ∧
       sfs ≡ₚ fs ∧
       StronglySorted field_lt sfs ∧
       StronglySorted field_lt
         (List.filter (λ f, negb (has_default f)) sfs) ∧
       (∀ c' fs', schema_fields (schema c') = Ok fs' → fs' ≡ₚ fs →
                  getFields c' = Ok sfs)).
Proof.
  intros Hnd Hfields. repeat split.
  - unfold emissionOrder, sorted_strings.
    apply (sorted_strict String.le id (name <$> classes g)).
    by rewrite list_fmap_id.
  - unfold emissionOrder, sorted_strings. apply sorted_perm.
  - unfold emissionOrder. apply sorted_strings_perm_eq. by rewrite H.
  - by apply writeClasses_perm.
  - intros c fs Hc Hfs.
    exists (sorted String.le field_name fs).
    assert (StronglySorted field_lt (sorted String.le field_name fs)) as Hs.
    { apply str_lt_fields, (sorted_strict String.le field_name). eauto. }
    split_and!.
    + by apply getFields_record.
    + unfold requiredFields. by rewrite (getFields_record c fs).
    + apply sorted_perm.
    + done.
    + by apply (sorted_filter_strict String.le field_name).
    + intros c' fs' Hfs' Hp. rewrite (getFields_record c' fs') by done.
      apply (f_equal Ok), (sorted_perm_eq String.le field_name); [done|].
      rewrite Hp. eauto.
Qed.
End EmissionOrder.

(** ** Text *)

Lemma append_cons (x : ascii) (a b : string) :
  String x a +:+ b = String x (a +:+ b).
Proof. done. Qed.

Lemma append_assoc (a b c : string) : (a +:+ b) +:+ c = a +:+ (b +:+ c).
Proof. induction a as [|x a IH]; [done|]. by rewrite !append_cons, IH. Qed.

Lemma append_nil_r (a : string) : a +:+ "" = a.
Proof. induction a as [|x a IH]; [done|]. by rewrite append_cons, IH. Qed.

Lemma append_length (a b : string) :
  String.length (a +:+ b) = String.length a + String.length b.
Proof.
  induction a as [|x a IH]; [done|]. rewrite append_cons. simpl. by rewrite IH.
Qed.

(** ** The required fields *)

Lemma for_each_Ok {B} (l : list B) (body : B → W unit) :
  (∀ x, res (body x) = Ok tt) →
  res (for_each l body) = Ok tt ∧
  out (for_each l body) = foldr (λ x acc, out (body x) +:+ acc) "" l.
Proof.
  intros Hbody. induction l as [|x l [IHr IHo]]; [done|].
  simpl for_each. simpl foldr.
  destruct (out_bind_Ok (body x) (λ _, for_each l body) tt (Hbody x))
    as [-> ->].
  by rewrite IHo.
Qed.

Lemma foldr_append_base {B} (g : B → string) (b : string) (l : list B) :
  foldr (λ x acc, g x +:+ acc) b l = foldr (λ x acc, g x +:+ acc) "" l +:+ b.
Proof.
  induction l as [|x l IH]; [done|]. simpl. by rewrite IH, append_assoc.
Qed.

Lemma for_each_then {B} (l : list B) (body : B → W unit) (k : W unit) :
  (∀ x, res (body x) = Ok tt) →
  out (for_each l body ;; k) = foldr (λ x acc, out (body x) +:+ acc) (out k) l
  ∧ res (for_each l body ;; k) = res k.
Proof.
  intros Hbody. destruct (for_each_Ok l body Hbody) as [Hr Ho].
  destruct (out_bind_Ok (for_each l body) (λ _, k) tt Hr) as [-> ->].
  by rewrite Ho, <-foldr_append_base.
Qed.

(** C7: the fields that [writeRequiredFields] collects are the fields of
    the record that have no default value, and the set literal that it
    prints lists their names and nothing else. *)
Theorem requiredFields_no_default (c : SchemaClass) (fs : list Field) :
  schema_fields (schema c) = Ok fs →
  ∃ req,
    requiredFields c = Ok req ∧
    (∀ n, n ∈ field_name <$> req ↔
          ∃ f, f ∈ fs ∧ field_name f = n ∧ has_default f = false) ∧
    out (writeRequiredFields c) = requiredFieldsLiteral (field_name <$> req) ∧
    res (writeRequiredFields c) = Ok tt.
Proof.
  intros Hfs.
  exists (List.filter (λ f, negb (has_default f))
            (sorted String.le field_name fs)).
  assert (requiredFields c =
          Ok (List.filter (λ f, negb (has_default f))
                (sorted String.le field_name fs))) as Hreq.
  { unfold requiredFields. by rewrite (getFields_record c fs). }
  split; [done|]. split.
  - intros n. rewrite list_elem_of_fmap. split.
    + intros (f & -> & Hf). exists f.
      apply list_elem_of_In, List.filter_In in Hf as [Hf Hd].
      apply list_elem_of_In in Hf. rewrite sorted_perm in Hf.
      split_and!; [done..|]. by destruct (has_default f).
    + intros (f & Hf & <- & Hd). exists f. split; [done|].
      apply list_elem_of_In, List.filter_In. split.
      * apply list_elem_of_In. by rewrite sorted_perm.
      * by rewrite Hd.
  - unfold writeRequiredFields. rewrite Hreq.
    destruct (List.filter _ _) as [|f req]; [done|].
    change (lift (Ok (f :: req)) ≫= ?k) with (mkW (out (k (f :: req)))
                                                 (res (k (f :: req)))).
    cbn [out res length Nat.ltb Nat.leb].
    set (body := λ field : Field, _writeWithIndent _ 2).
    destruct (for_each_then (f :: req) body (_writeWithIndent "])" 1))
      as [Ho Hr]; [done|].
    unfold mbind at 1 3, W_bind at 1 3. cbn [res _writeWithIndent print].
    rewrite Ho, Hr. split; [|done].
    unfold requiredFieldsLiteral.
    change (field_name <$> f :: req)
      with (field_name f :: (field_name <$> req)).
    cbv beta iota.
    change (field_name f :: (field_name <$> req))
      with (field_name <$> f :: req).
    rewrite foldr_fmap. reflexivity.
Qed.

(** ** The value list of a search response *)

Lemma py_remove_Ok (x : string) (l r : list string) :
  py_remove x l = Ok r → l ≡ₚ x :: r.
Proof.
  revert r. induction l as [|y l IH]; intros r; simpl; [done|].
  case_decide as Hy.
  - intros [= <-]. by subst.
  - destruct (py_remove x l) as [r'|e]; [|done].
    intros [= <-]. by rewrite (IH r'), Permutation_swap.
Qed.

Lemma py_remove_Raise (x : string) (l : list string) :
  x ∉ l ↔ py_remove x l = Raise ValueError.
Proof.
  induction l as [|y l IH]; simpl.
  - split; [done|]. intros _. by inversion 1.
  - rewrite not_elem_of_cons. case_decide as Hy.
    + split; [|done]. by intros [[] _].
    + destruct (py_remove x l) as [r'|e].
      * split; [|done]. intros [_ Hx]. by apply IH in Hx.
      * split; [|by intros; split; [|apply IH]].
        intros [_ Hx]. apply IH in Hx. by injection Hx as ->.
Qed.

Lemma py_remove_is_Ok (x : string) (l : list string) :
  x ∈ l → ∃ r, py_remove x l = Ok r.
Proof.
  induction l as [|y l IH]; simpl; [by inversion 1|].
  rewrite elem_of_cons. case_decide as Hy; [by eauto|].
  intros [->|Hx]; [done|]. destruct (IH Hx) as [r ->]. eauto.
Qed.

(** C4: [getValueListName] returns [X] exactly when the class is a search
    response and its fields are [next_page_token] and [X]; otherwise it
    raises.  The script has no exception class of its own: what the design
    text calls ResponseShapeError is the AssertionError of its two [assert]
    statements, the ValueError of [remove] when there is no
    [next_page_token], and the AttributeError of [fields] on a schema that is
    not a record. *)
Theorem getValueListName_shape (c : SchemaClass) :
  (∀ X, getValueListName c = Ok X ↔ responseShape c X) ∧
  ((∀ X, ¬ responseShape c X) →
   ∃ e, getValueListName c = Raise e ∧
        (e = AssertionError ∨ e = ValueError ∨ e = AttributeError)) ∧
  (isSearchResponse c = false → getValueListName c = Raise AssertionError) ∧
  (∀ fs, isSearchResponse c = true → schema_fields (schema c) = Ok fs →
         "next_page_token" ∉ field_name <$> fs →
         getValueListName c = Raise ValueError) ∧
  (∀ fs, isSearchResponse c = true → schema_fields (schema c) = Ok fs →
         "next_page_token" ∈ field_name <$> fs → length fs ≠ 2 →
         getValueListName c = Raise AssertionError).
Proof.
  assert (∀ X, getValueListName c = Ok X ↔ responseShape c X) as Hiff.
  { intros X. unfold getValueListName, responseShape, getFields. split.
    - destruct (isSearchResponse c); [|done]. simpl.
      destruct (schema_fields (schema c)) as [fs|]; [|done]. simpl.
      destruct (py_remove _ _) as [r|] eqn:Hr; [|done]. simpl.
      apply py_remove_Ok in Hr.
      destruct r as [|Y [|??]]; simpl; [done| |done].
      unfold py_index; simpl. intros [= ->]. split; [done|].
      exists fs. split; [done|]. rewrite <-Hr.
      by rewrite (sorted_perm String.le field_name fs).
    - intros [-> (fs & -> & Hp)]. simpl.
      rewrite <-(sorted_perm String.le field_name fs) in Hp.
      symmetry in Hp. apply Permutation_length_2_inv in Hp as [-> | ->].
      + done.
      + simpl. case_decide as HX; [by subst|]. done. }
  split; [done|]. split_and!.
  - intros Hno. destruct (getValueListName c) as [X|e] eqn:Hr.
    { exfalso. apply (Hno X). by apply Hiff. }
    clear Hiff.
    exists e. split; [done|]. revert Hr.
    unfold getValueListName, getFields.
    destruct (isSearchResponse c); simpl; [|naive_solver].
    destruct (schema c); simpl; try naive_solver.
    destruct (py_remove _ _) as [r|e'] eqn:Hr; simpl.
    + destruct r as [|Y [|??]]; simpl; naive_solver.
    + intros [= <-]. right; left.
      destruct (decide ("next_page_token" ∈
                field_name <$> sorted String.le field_name fields))
        as [Hin|Hout].
      * apply py_remove_is_Ok in Hin as [? Hin]. congruence.
      * apply py_remove_Raise in Hout. congruence.
  - unfold getValueListName. by intros ->.
  - intros fs Hs Hfs Hnot. unfold getValueListName, getFields.
    rewrite Hs, Hfs. simpl.
    rewrite <-(sorted_perm String.le field_name fs) in Hnot.
    apply py_remove_Raise in Hnot. by rewrite Hnot.
  - intros fs Hs Hfs Hin Hlen. unfold getValueListName, getFields.
    rewrite Hs, Hfs. simpl.
    rewrite <-(sorted_perm String.le field_name fs) in Hin.
    destruct (py_remove_is_Ok _ _ Hin) as [r Hr]. rewrite Hr. simpl.
    apply py_remove_Ok in Hr.
    assert (length r ≠ 1) as Hr1.
    { intros Hr1. apply Hlen.
      apply Permutation_length in Hr. simpl in Hr.
      rewrite length_fmap in Hr.
      pose proof (Permutation_length (sorted_perm String.le field_name fs)).
      lia. }
    destruct r as [|? [|??]]; simpl in *; done.
Qed.

(** ** The embedded types *)

Lemma getEmbeddedTypes_field_Ok (ret r : list Edge) (f : Field) :
  getEmbeddedTypes_field ret f = Ok r → r = ret ++ option_list (edgeOf f).
Proof.
  unfold getEmbeddedTypes_field, edgeOf, embeddedRecord.
  destruct (field_type f) as [| | |items| |schemas|]; simpl;
    try (intros [= <-]; by rewrite ?app_nil_r).
  - destruct items; simpl; intros [= <-]; by rewrite ?app_nil_r.
  - destruct schemas as [|t0 [|t1 rest]]; simpl; [done..|].
    unfold py_index; simpl.
    destruct (isNullPrimitive t0); [|done].
    destruct t1; simpl; intros [= <-]; by rewrite ?app_nil_r.
Qed.

Lemma getEmbeddedTypes_field_Raise (ret ret' : list Edge) (f : Field) e :
  getEmbeddedTypes_field ret f = Raise e →
  getEmbeddedTypes_field ret' f = Raise e.
Proof.
  unfold getEmbeddedTypes_field.
  destruct (field_type f) as [| | |items| |schemas|]; simpl; try done.
  - by destruct items.
  - destruct schemas as [|t0 [|t1 rest]]; simpl; [done..|].
    unfold py_index; simpl.
    destruct (isNullPrimitive t0); [|done]. by destruct t1.
Qed.

Lemma rfold_edges (ret et : list Edge) (fs : list Field) :
  rfold getEmbeddedTypes_field ret fs = Ok et → et = ret ++ omap edgeOf fs.
Proof.
  revert ret. induction fs as [|f fs IH]; intros ret; simpl.
  - intros [= <-]. by rewrite app_nil_r.
  - destruct (getEmbeddedTypes_field ret f) as [r|] eqn:Hf; [|done].
    apply getEmbeddedTypes_field_Ok in Hf as ->.
    intros ->%IH. rewrite <-app_assoc. by destruct (edgeOf f).
Qed.

Lemma rfold_first_failure (ret : list Edge) (pre post : list Field) f e :
  (∀ g r, g ∈ pre → is_ok (getEmbeddedTypes_field r g) = true) →
  getEmbeddedTypes_field ret f = Raise e →
  rfold getEmbeddedTypes_field ret (pre ++ f :: post) = Raise e.
Proof.
  revert ret. induction pre as [|g pre IH]; intros ret Hpre Hf; simpl.
  - by rewrite Hf.
  - destruct (getEmbeddedTypes_field ret g) as [r|e'] eqn:Hg.
    + apply IH; [|by eapply getEmbeddedTypes_field_Raise].
      intros ???. apply Hpre. by right.
    + specialize (Hpre g ret). rewrite Hg in Hpre. discriminate Hpre.
      by left.
Qed.

Lemma rfold_failure (ret : list Edge) (fs : list Field) f e :
  f ∈ fs → getEmbeddedTypes_field ret f = Raise e →
  is_ok (rfold getEmbeddedTypes_field ret fs) = false.
Proof.
  revert ret. induction fs as [|g fs IH]; intros ret; [by inversion 1|].
  rewrite elem_of_cons. simpl. intros [<-|Hin] Hf.
  - by rewrite Hf.
  - destruct (getEmbeddedTypes_field ret g) as [r|e'] eqn:Hg; [|done].
    apply IH; [done|]. by eapply getEmbeddedTypes_field_Raise.
Qed.

Lemma omap_edgeOf_keys (fs : list Field) :
  NoDup (field_name <$> fs) → NoDup (omap edgeOf fs).*1.
Proof.
  induction fs as [|f fs IH]; csimpl; [constructor|].
  rewrite NoDup_cons. intros [Hf Hnd].
  unfold edgeOf at 1. destruct (embeddedRecord (field_type f)); csimpl; auto.
  apply NoDup_cons. split; [|auto].
  intros Hin. apply Hf.
  apply list_elem_of_fmap in Hin as ([k n] & Hk & Hin). simpl in Hk. subst k.
  apply list_elem_of_omap in Hin as (g & Hg & He).
  unfold edgeOf in He. destruct (embeddedRecord (field_type g)); [|done].
  simpl in He. injection He as Hname _. rewrite <-Hname.
  by apply list_elem_of_fmap_2.
Qed.

Lemma getEmbeddedTypes_edges (c : SchemaClass) (fs : list Field) et :
  schema_fields (schema c) = Ok fs →
  getEmbeddedTypes c = Ok et →
  et = omap edgeOf (sorted String.le field_name fs).
Proof.
  intros Hfs. unfold getEmbeddedTypes.
  rewrite (getFields_record c fs Hfs).
  destruct (schema c); try done. simpl. apply rfold_edges.
Qed.

Lemma edge_of_field (fs : list Field) (f : Field) (n : string) :
  NoDup (field_name <$> fs) → f ∈ fs →
  (field_name f, n) ∈ omap edgeOf fs ↔ embeddedRecord (field_type f) = Some n.
Proof.
  intros Hnd Hf. rewrite list_elem_of_omap. unfold edgeOf. split.
  - intros (g & Hg & He).
    destruct (embeddedRecord (field_type g)) as [m|] eqn:Hm; [|done].
    simpl in He. injection He as Hname ->.
    by rewrite (NoDup_fmap_elem field_name fs f g).
  - intros Hn. exists f. by rewrite Hn.
Qed.

(** C1, as the code has it: on a field whose type is a union of at least
    two branches, the resolver records the edge to the second branch
    exactly when the first branch is [null] and the second a record; when
    the first branch is [null] and the second is no record the field is
    passed over and nothing is raised; when the first branch is not [null]
    the resolver raises the exception "Schema union assumptions violated",
    and so does the resolution of a record that has such a field unless an
    earlier field has already raised. *)
Theorem union_field_resolution (ret : list Edge) (f : Field)
    (t0 t1 : Schema) (rest : list Schema) :
  field_type f = UnionSchema (t0 :: t1 :: rest) →
  (∀ n, getEmbeddedTypes_field ret f = Ok (ret ++ [(field_name f, n)]) ↔
        isNullPrimitive t0 = true ∧ ∃ d fs, t1 = RecordSchema n d fs) ∧
  (isNullPrimitive t0 = true → isRecordSchema t1 = false →
   getEmbeddedTypes_field ret f = Ok ret) ∧
  (isNullPrimitive t0 = false →
   getEmbeddedTypes_field ret f =
     Raise (Exception "Schema union assumptions violated")) ∧
  (∀ c fs, isRecordSchema (schema c) = true → getFields c = Ok fs →
           f ∈ fs → isNullPrimitive t0 = false →
           is_ok (getEmbeddedTypes c) = false).
Proof.
  intros Hty.
  assert (isNullPrimitive t0 = false →
          ∀ r, getEmbeddedTypes_field r f =
               Raise (Exception "Schema union assumptions violated")) as Hbad.
  { intros Hn r. unfold getEmbeddedTypes_field. rewrite Hty. simpl.
    unfold py_index; simpl. by rewrite Hn. }
  split_and!.
  - intros n. unfold getEmbeddedTypes_field. rewrite Hty. simpl.
    unfold py_index; simpl.
    destruct (isNullPrimitive t0); [|split; [done|by intros [? _]]].
    assert (∀ e : Edge, Ok ret ≠ Ok (ret ++ [e])) as Hne.
    { intros e [= He]. apply (f_equal length) in He.
      rewrite length_app in He. simpl in He. lia. }
    destruct t1; simpl; split;
      try (by intros ?%Hne); try (by intros [_ (? & ? & ?)]).
    + intros [= He]. apply app_inv_head in He. injection He as ->. eauto.
    + by intros [_ (? & ? & [= ->])].
  - intros Hn Hr. unfold getEmbeddedTypes_field. rewrite Hty. simpl.
    unfold py_index; simpl. rewrite Hn. by destruct t1.
  - intros Hn. by apply Hbad.
  - intros c fs Hrec Hfs Hin Hn. unfold getEmbeddedTypes.
    rewrite Hrec, Hfs. simpl. eapply rfold_failure; [done|]. by apply Hbad.
Qed.

(** C5, as the code has it: when the resolution of a record raises
    nothing, a field of the record is an embedded type exactly when its
    type is a record, an array of records, or a union whose first two
    branches are [null] and a record (whatever follows them); the edge from
    the name of the field to the name of that record is then in the edge
    list, and [getEmbeddedType] returns it. *)
Theorem embedded_type_of_field (c : SchemaClass) (fs : list Field)
    (et : list Edge) (f : Field) :
  schema_fields (schema c) = Ok fs →
  NoDup (field_name <$> fs) →
  getEmbeddedTypes c = Ok et →
  f ∈ fs →
  isEmbeddedType c (field_name f) =
    Ok (bool_decide (is_Some (embeddedRecord (field_type f)))) ∧
  (∀ n, (field_name f, n) ∈ et ↔ embeddedRecord (field_type f) = Some n) ∧
  (∀ n, getEmbeddedType c (field_name f) = Ok n ↔
        embeddedRecord (field_type f) = Some n).
Proof.
  intros Hfs Hnd Het Hf.
  pose proof (getEmbeddedTypes_edges c fs et Hfs Het) as ->.
  set (sfs := sorted String.le field_name fs) in *.
  assert (NoDup (field_name <$> sfs)) as Hnd'.
  { unfold sfs. by rewrite sorted_perm. }
  assert (f ∈ sfs) as Hf' by (unfold sfs; by rewrite sorted_perm).
  assert (∀ n, py_dict (omap edgeOf sfs) !! field_name f = Some n ↔
               embeddedRecord (field_type f) = Some n) as Hdict.
  { intros n. rewrite py_dict_lookup by by apply omap_edgeOf_keys.
    by apply edge_of_field. }
  split_and!.
  - unfold isEmbeddedType. rewrite Het. simpl. f_equal.
    apply bool_decide_ext. unfold is_Some.
    split; intros [n Hn]; exists n; by apply Hdict.
  - intros n. by apply edge_of_field.
  - intros n. unfold getEmbeddedType. rewrite Het. simpl.
    rewrite <-Hdict.
    destruct (py_dict (omap edgeOf sfs) !! field_name f) as [m|].
    + split; [by intros [= ->]|by intros [= ->]].
    + split; [done|done].
Qed.

(** C10: the resolver reads the first two branches of a union before it
    looks at either.  On a field whose union has fewer than two branches
    the read is out of range: the loop body raises IndexError, not the
    exception of the union check; the resolution of a record with such a
    field always raises, and what it raises is IndexError when the fields
    sorted before it resolve.  So the resolver returns a result only on
    records whose unions all have two branches or more. *)
Theorem union_branches_read_unguarded (c : SchemaClass) (sfs : list Field)
    (f : Field) (schemas : list Schema) :
  isRecordSchema (schema c) = true →
  getFields c = Ok sfs →
  f ∈ sfs →
  field_type f = UnionSchema schemas →
  length schemas < 2 →
  (∀ ret, getEmbeddedTypes_field ret f = Raise IndexError) ∧
  is_ok (getEmbeddedTypes c) = false ∧
  (∀ pre post, sfs = pre ++ f :: post →
     (∀ g ret, g ∈ pre → is_ok (getEmbeddedTypes_field ret g) = true) →
     getEmbeddedTypes c = Raise IndexError).
Proof.
  intros Hrec Hfs Hin Hty Hlen.
  assert (∀ ret, getEmbeddedTypes_field ret f = Raise IndexError) as Hf.
  { intros ret. unfold getEmbeddedTypes_field. rewrite Hty.
    destruct schemas as [|t0 [|t1 rest]]; simpl in *; [done..|lia]. }
  split_and!; [done|..].
  - unfold getEmbeddedTypes. rewrite Hrec, Hfs. simpl.
    by eapply rfold_failure.
  - intros pre post -> Hpre. unfold getEmbeddedTypes. rewrite Hrec, Hfs.
    simpl. apply rfold_first_failure; [|done].
    intros g r Hg. by apply Hpre.
Qed.

(** ** The patterns *)

Lemma prefix_split (p s : string) :
  String.prefix p s = true → s = p +:+ Py.skip (String.length p) s.
Proof.
  revert p. induction s as [|c s IH]; intros [|d p]; simpl; try done.
  destruct (ascii_dec d c) as [->|]; [|done].
  intros Hp. rewrite append_cons. f_equal. by apply IH.
Qed.

Lemma star_then_cons (lit : string) (c : ascii) (s : string) :
  Re.star_then lit (String c s) =
  match (if Re.is_newline c then None else Re.star_then lit s) with
  | Some g => Some (String c g)
  | None => if String.prefix lit (String c s) then Some "" else None
  end.
Proof. done. Qed.

Lemma star_then_split (lit s g : string) :
  Re.star_then lit s = Some g → ∃ b, s = g +:+ lit +:+ b.
Proof.
  revert g. induction s as [|c s IH]; intros g.
  - simpl. destruct lit; [|done]. intros [= <-]. by exists "".
  - rewrite star_then_cons. destruct (if Re.is_newline c then None else Re.star_then lit s)
      as [g'|] eqn:Hg.
    + intros [= <-]. destruct (Re.is_newline c); [done|].
      destruct (IH g' Hg) as [b ->]. by exists b.
    + destruct (String.prefix lit (String c s)) eqn:Hp; [|done].
      intros [= <-]. apply prefix_split in Hp. eauto.
Qed.

Lemma search_split (pre post s g : string) :
  Re.search pre post s = Some g →
  ∃ a b, s = a +:+ pre +:+ g +:+ post +:+ b ∧ g ≠ "".
Proof.
  assert (∀ s, Re.match_here pre post s = Some g →
               ∃ b, s = pre +:+ g +:+ post +:+ b ∧ g ≠ "") as Hhere.
  { intros s'. unfold Re.match_here.
    destruct (String.prefix pre s') eqn:Hp; [|done].
    apply prefix_split in Hp. revert Hp.
    generalize (Py.skip (String.length pre) s'). intros r -> Hr.
    unfold Re.plus_then in Hr. destruct r as [|c r]; [done|].
    destruct (Re.is_newline c); [done|].
    destruct (Re.star_then post r) as [g'|] eqn:Hg; [|done].
    injection Hr as <-. apply star_then_split in Hg as [b ->].
    by exists b. }
  induction s as [|c s IH]; simpl.
  - destruct (Re.match_here pre post "") eqn:Hm; [|done].
    intros [= ->]. destruct (Hhere _ Hm) as (b & ? & ?). by exists "", b.
  - destruct (Re.match_here pre post (String c s)) eqn:Hm.
    + intros [= ->]. destruct (Hhere _ Hm) as (b & ? & ?). by exists "", b.
    + intros (a & b & -> & ?)%IH. by exists (String c a), b.
Qed.

(** ** The end point table *)

Lemma string_le_compare (a b : string) :
  String.le a b ↔ String.compare a b ≠ Gt.
Proof.
  unfold String.le, String.leb. by destruct (String.compare a b).
Qed.

Lemma signature_le_total : Total signature_le.
Proof.
  intros [[u1 r1] s1] [[u2 r2] s2]. unfold signature_le, signature_compare.
  simpl. rewrite (String.compare_antisym u2 u1).
  rewrite (String.compare_antisym r2 r1), (String.compare_antisym s2 s1).
  destruct (String.compare u1 u2); simpl; auto.
  destruct (String.compare r1 r2); simpl; auto.
  destruct (String.compare s1 s2); simpl; auto.
Qed.

Lemma signature_le_url (a b : Signature) :
  signature_le a b → String.le (url_of a) (url_of b).
Proof.
  unfold signature_le, signature_compare, url_of.
  rewrite string_le_compare. by destruct (String.compare a.1.1 b.1.1).
Qed.

Lemma isSearchRequest_search (c : SchemaClass) :
  isSearchRequest c = true →
  ∃ object, Re.search "Search" "Request" (name c) = Some object.
Proof. unfold isSearchRequest. intros [o Ho]%bool_decide_eq_true. eauto. Qed.

Lemma postSignatures_loop (acc : list Signature) (l : list (string * string)) :
  Forall (λ p, is_Some (Re.search "Search" "Request" p.1)) l →
  ∃ rows,
    rfold postSignatures_pair acc l = Ok (acc ++ rows) ∧
    Forall2 signatureOf l rows.
Proof.
  revert acc. induction l as [|[req resp] l IH]; intros acc Hl.
  - exists []. simpl. by rewrite app_nil_r.
  - apply Forall_cons in Hl as [[o Ho] Hl]. simpl in Ho.
    assert (postSignatures_pair acc (req, resp) =
            Ok (acc ++ [("/" +:+ Py.lower o +:+ "/search", req, resp)]))
      as Hstep by (unfold postSignatures_pair; by rewrite Ho).
    rewrite rfold_cons, Hstep.
    destruct (IH (acc ++ [("/" +:+ Py.lower o +:+ "/search", req, resp)]) Hl)
      as (rows & -> & Hrows).
    exists (("/" +:+ Py.lower o +:+ "/search", req, resp) :: rows).
    rewrite <-app_assoc. split; [done|].
    constructor; [|done]. unfold signatureOf. simpl. eauto.
Qed.

(** C8: the table is always built; its rows are in ascending order of
    their urls; it has one row for each request paired with a response,
    and the url of a row is ["/"], the lower-cased text that the group of
    [Search(.+)Request] takes from the name of the request, and
    ["/search"].  The pair of the design text gives the row of the design
    text. *)
Theorem endpoint_table (classes : list SchemaClass) :
  ∃ table,
    makePostSignatures classes = Ok table ∧
    StronglySorted String.le (url_of <$> table) ∧
    (∀ request response,
       (request, response) ∈
         zip (name <$> List.filter isSearchRequest classes)
             (name <$> List.filter isSearchResponse classes) ↔
       ∃ url, (url, request, response) ∈ table) ∧
    (∀ url request response,
       (url, request, response) ∈ table →
       ∃ object pre post,
         Re.search "Search" "Request" request = Some object ∧
         request = pre +:+ "Search" +:+ object +:+ "Request" +:+ post ∧
         url = "/" +:+ Py.lower object +:+ "/search") ∧
    makePostSignatures
      [Samples.SearchVariantsRequest; Samples.SearchVariantsResponse] =
    Ok [("/variants/search", "SearchVariantsRequest",
         "SearchVariantsResponse")].
Proof.
  unfold makePostSignatures.
  set (pairs := zip (name <$> List.filter isSearchRequest classes)
                    (name <$> List.filter isSearchResponse classes)).
  destruct (postSignatures_loop [] pairs) as (rows & Hrows & Hall).
  { apply Forall_forall. intros [req resp] Hin. simpl.
    apply elem_of_zip_l, list_elem_of_fmap in Hin as (c & -> & Hc).
    apply list_elem_of_In, List.filter_In in Hc as [_ Hc].
    destruct (isSearchRequest_search c Hc) as [o Ho]. by exists o. }
  exists (sorted signature_le id rows). rewrite Hrows. simpl.
  split_and!; [done|..|done].
  - apply Sorted.Sorted_StronglySorted; [by intros ???; etrans|].
    apply (Sorted_fmap url_of signature_le String.le);
      [apply signature_le_url|].
    apply (@sorted_Sorted _ _ signature_le _ id signature_le_total).
  - intros req resp. setoid_rewrite (sorted_perm signature_le id rows).
    split.
    + intros Hin. apply list_elem_of_lookup in Hin as [i Hi].
      destruct (Forall2_lookup_l _ _ _ _ _ Hall Hi)
        as ([[u r] s] & Hs & Hr & Hp & _).
      simpl in *. subst. exists u. by eapply list_elem_of_lookup_2.
    + intros [url Hin]. apply list_elem_of_lookup in Hin as [i Hi].
      destruct (Forall2_lookup_r _ _ _ _ _ Hall Hi)
        as ([r s] & Hs & Hr & Hp & _).
      simpl in *. subst. by eapply list_elem_of_lookup_2.
  - intros url req resp Hin. rewrite (sorted_perm signature_le id rows) in Hin.
    apply list_elem_of_lookup in Hin as [i Hi].
    destruct (Forall2_lookup_r _ _ _ _ _ Hall Hi)
      as ([r s] & Hs & Hr & Hp & o & Ho & Hurl).
    simpl in *. subst.
    destruct (search_split _ _ _ _ Ho) as (a & b & Heq & _).
    by exists o, a, b.
Qed.

Lemma makePostSignatures_Ok (classes : list SchemaClass) :
  is_ok (makePostSignatures classes) = true.
Proof.
  unfold makePostSignatures.
  destruct (postSignatures_loop []
              (zip (name <$> List.filter isSearchRequest classes)
                   (name <$> List.filter isSearchResponse classes)))
    as (rows & -> & _); [|done].
  apply Forall_forall. intros [req resp] Hin. simpl.
  apply elem_of_zip_l, list_elem_of_fmap in Hin as (c & -> & Hc).
  apply list_elem_of_In, List.filter_In in Hc as [_ Hc].
  destruct (isSearchRequest_search c Hc) as [o Ho]. by exists o.
Qed.

Lemma listing_perm : Samples.listing1 ≡ₚ Samples.listing2.
Proof.
  unfold Samples.listing1, Samples.listing2.
  etrans; [apply Permutation_swap|].
  etrans; [apply Permutation_skip, Permutation_swap|].
  apply Permutation_swap.
Qed.

(** C2: the code pairs the requests with the responses in the order in
    which the classes were listed; it sorts the rows only after it has
    paired them.  The same four classes, listed in two orders, give two
    tables: the second listing answers the search for A with the response
    for B. *)
Theorem pairing_follows_listing :
  Samples.listing1 ≡ₚ Samples.listing2 ∧
  makePostSignatures Samples.listing1 =
    Ok [("/a/search", "SearchARequest", "SearchAResponse");
        ("/b/search", "SearchBRequest", "SearchBResponse")] ∧
  makePostSignatures Samples.listing2 =
    Ok [("/a/search", "SearchARequest", "SearchBResponse");
        ("/b/search", "SearchBRequest", "SearchAResponse")].
Proof.
  split_and!; [apply listing_perm|by vm_compute..].
Qed.

(** ** The output file *)

Section OutputFile.
Variable textwrap_fill : string → string → string.
Variable textwrap_wrap : string → list string.
Variable json_strip_docs : string → string.
Variable avro_schema_parse : string → result Schema.

Local Abbreviation write :=
  (SchemaGenerator_write textwrap_fill textwrap_wrap json_strip_docs).
Local Abbreviation writeClasses' :=
  (writeClasses textwrap_fill textwrap_wrap json_strip_docs).
Local Abbreviation init := (SchemaGenerator_init avro_schema_parse).
Local Abbreviation gen :=
  (generate textwrap_fill textwrap_wrap json_strip_docs avro_schema_parse).

Lemma writePostMethods_Ok (g : SchemaGenerator) :
  res (writePostMethods g) = Ok tt.
Proof.
  unfold writePostMethods.
  match goal with
  | |- res (?m ≫= ?k) = _ =>
      destruct (out_bind_Ok m k tt eq_refl) as [_ ->]
  end.
  apply for_each_Ok. intros [i [[url request] response]].
  by destruct (i =? 0)%nat,
       (i =? length (postSignatures g) - 1)%nat.
Qed.

Lemma writeHeader_Ok (g : SchemaGenerator) :
  version g ≠ "" → res (writeHeader g) = Ok tt.
Proof.
  unfold writeHeader. destruct (version g) as [|c rest]; [done|].
  intros _. simpl. by destruct (_ && _).
Qed.

Lemma write_out (g : SchemaGenerator) :
  res (writeHeader g) = Ok tt →
  (res (writeClasses' g) = Ok tt →
   out (write g) =
     out (writeHeader g) +:+ out (writeClasses' g) +:+
     out (writePostMethods g) ∧
   res (write g) = Ok tt) ∧
  (∀ e, res (writeClasses' g) = Raise e →
   out (write g) = out (writeHeader g) +:+ out (writeClasses' g) ∧
   res (write g) = Raise e).
Proof.
  intros Hh. unfold SchemaGenerator_write.
  destruct (out_bind_Ok (writeHeader g)
              (λ _, writeClasses' g ;; writePostMethods g) tt Hh)
    as [-> ->].
  split.
  - intros Hc.
    destruct (out_bind_Ok (writeClasses' g) (λ _, writePostMethods g) tt Hc)
      as [-> ->].
    by rewrite writePostMethods_Ok.
  - intros e Hc.
    by destruct (out_bind_Raise (writeClasses' g)
                   (λ _, writePostMethods g) e Hc) as [-> ->].
Qed.

(** C9, as the code has it: a run that fails while the classes are read
    (a file that does not parse) ends before the output file is opened and
    leaves it as it was.  A run that fails later has opened and emptied the
    output file, and leaves in it what was printed up to the exception:
    for a version that is not empty, the header and the text of the
    classes printed so far, without the end point table. *)
Theorem failed_run_output (ver dir path : string)
    (verb : nat) (avscFiles : list (string * string))
    (old : option string) (e : exn) :
  (gen ver dir path verb avscFiles old).2 = Raise e →
  (init ver dir path verb avscFiles = Raise e ∧
   (gen ver dir path verb avscFiles old).1 = old ∧
   ∃ f, f ∈ avscFiles ∧
        is_ok (SchemaClass_init avro_schema_parse f.1 f.2) = false) ∨
  (∃ sg,
     init ver dir path verb avscFiles = Ok sg ∧
     res (write sg) = Raise e ∧
     (gen ver dir path verb avscFiles old).1 =
       Some (out (write sg)) ∧
     (ver ≠ "" →
      res (writeClasses' sg) = Raise e ∧
      out (write sg) = out (writeHeader sg) +:+ out (writeClasses' sg))).
Proof.
  unfold generate.
  destruct (SchemaGenerator_init _ _ _ _ _ _) as [sg|e'] eqn:Hinit;
    cbv zeta; cbn [fst snd].
  - intros He. right. exists sg. split_and!; [done..|].
    intros Hv.
    assert (ver = version sg) as Hsg.
    { revert Hinit. unfold SchemaGenerator_init.
      destruct (rfold _ _ _); [|done]. simpl.
      destruct (makePostSignatures _); [|done]. simpl. by intros [= <-]. }
    rewrite Hsg in Hv.
    destruct (write_out sg (writeHeader_Ok sg Hv)) as [Hok Hraise].
    destruct (res (writeClasses' sg)) as [[]|e''] eqn:Hc.
    + destruct Hok as [_ Hok]; [done|]. congruence.
    + destruct (Hraise e'') as [Ho Hr]; [done|]. split; congruence.
  - intros [= ->]. left. split_and!; [done..|].
    revert Hinit. unfold SchemaGenerator_init.
    destruct (rfold _ _ _) as [cs|e''] eqn:Hcs; simpl.
    { pose proof (makePostSignatures_Ok cs) as Hp.
      by destruct (makePostSignatures cs). }
    intros _. clear e. revert Hcs. generalize (@nil SchemaClass).
    induction avscFiles as [|f fs IH]; intros acc; [done|].
    rewrite rfold_cons. unfold appendClass at 1.
    destruct (SchemaClass_init avro_schema_parse f.1 f.2) as [c|] eqn:Hf;
      simpl.
    + intros (g & Hg & ?)%IH. exists g. split; [by right|done].
    + intros _. exists f. split; [by left|]. by rewrite Hf.
Qed.
End OutputFile.

(** C3: the output depends on the order in which the files are listed.
    The same four files, listed in two orders, give two runs that both
    succeed and two different output files, whatever the wrapping and the
    JSON printing do: the files differ in the table of [postMethods], by
    the pairing of C2. *)
Theorem output_follows_listing
    (textwrap_fill : string → string → string)
    (textwrap_wrap : string → list string)
    (json_strip_docs : string → string) :
  let run :=
    generate textwrap_fill textwrap_wrap json_strip_docs
      (Samples.parse Samples.known) "v0.5.1" "avro" "out.py" 0 in
  Samples.file <$> Samples.listing1 ≡ₚ Samples.file <$> Samples.listing2 ∧
  (run (Samples.file <$> Samples.listing1) None).2 = Ok tt ∧
  (run (Samples.file <$> Samples.listing2) None).2 = Ok tt ∧
  (run (Samples.file <$> Samples.listing1) None).1 ≠
  (run (Samples.file <$> Samples.listing2) None).1.
Proof.
  intros run. subst run.
  set (g1 := mkSchemaGenerator "v0.5.1" "avro" "out.py" 0 Samples.listing1
               [("/a/search", "SearchARequest", "SearchAResponse");
                ("/b/search", "SearchBRequest", "SearchBResponse")]).
  set (g2 := mkSchemaGenerator "v0.5.1" "avro" "out.py" 0 Samples.listing2
               [("/a/search", "SearchARequest", "SearchBResponse");
                ("/b/search", "SearchBRequest", "SearchAResponse")]).
  assert (SchemaGenerator_init (Samples.parse Samples.known)
            "v0.5.1" "avro" "out.py" 0 (Samples.file <$> Samples.listing1)
          = Ok g1) as Hg1 by (by vm_compute).
  assert (SchemaGenerator_init (Samples.parse Samples.known)
            "v0.5.1" "avro" "out.py" 0 (Samples.file <$> Samples.listing2)
          = Ok g2) as Hg2 by (by vm_compute).
  unfold generate. rewrite Hg1, Hg2. cbv zeta. cbn [fst snd].
  assert (NoDup (name <$> classes g1)) as Hnd.
  { apply (bool_decide_unpack _). by vm_compute. }
  assert (writeClasses textwrap_fill textwrap_wrap json_strip_docs g2 =
          writeClasses textwrap_fill textwrap_wrap json_strip_docs g1) as Hc.
  { apply writeClasses_perm; [|done]. symmetry. apply listing_perm. }
  assert (res (writeClasses textwrap_fill textwrap_wrap json_strip_docs g1)
          = Ok tt) as Hr by (by vm_compute).
  destruct (write_out textwrap_fill textwrap_wrap json_strip_docs g1)
    as [[Ho1 Hr1] _]; [done..|].
  destruct (write_out textwrap_fill textwrap_wrap json_strip_docs g2)
    as [[Ho2 Hr2] _]; [done|by rewrite Hc|].
  split_and!; [by rewrite listing_perm|done..|].
  rewrite Ho1, Ho2, Hc. intros [= H].
  apply (inj (String.app _)), (inj (String.app _)) in H.
  vm_compute in H. discriminate H.
Qed.

(** ** The claims on the samples *)

(** C1 does not hold as it is written: the field
    Union[null, Array[Record("Call")]] is passed over, the resolution of its
    record returns the empty edge list, and nothing is raised. *)
Lemma nullable_array_is_skipped :
  field_type Samples.nullableCalls =
    UnionSchema [Samples.null; ArraySchema Samples.Call] ∧
  getEmbeddedTypes_field [] Samples.nullableCalls = Ok [] ∧
  getEmbeddedTypes Samples.CallSet = Ok [] ∧
  ¬ ∃ e, getEmbeddedTypes Samples.CallSet = Raise e.
Proof. split_and!; [done..|]. by intros [e He]. Qed.

(** C5 does not hold as it is written: a union of three branches is none
    of the three shapes of the claim, and its field is an embedded type. *)
Lemma three_branch_union_is_embedded :
  Samples.callOrName ∈ [mkField "id" Samples.str false "None";
                        Samples.callOrName] ∧
  spec_embeddedRecord (field_type Samples.callOrName) = None ∧
  isEmbeddedType Samples.Genotype (field_name Samples.callOrName) = Ok true ∧
  getEmbeddedType Samples.Genotype (field_name Samples.callOrName) = Ok "Call".
Proof. split_and!; [by right; left|by vm_compute..]. Qed.

(** C9 does not hold as it is written: the run on a response that has no
    [next_page_token] fails with the ValueError of [remove] after the
    output file has been opened; there was no output file before the run,
    and after it there is one, with the header and the start of the class. *)
Lemma failed_run_leaves_partial_file :
  (Samples.run (Samples.file <$> [Samples.SearchCallsResponse])).2 =
    Raise ValueError ∧
  ∃ text,
    (Samples.run (Samples.file <$> [Samples.SearchCallsResponse])).1 =
      Some text ∧
    String.prefix (Py.triple_quote +:+ HEADER_COMMENT) text = true ∧
    String.length text = 630.
Proof.
  split; [by vm_compute|]. eexists. split; [by vm_compute|].
  split; by vm_compute.
Qed.

(** The hypotheses of C6 hold of the generator of the sample pair. *)
Lemma emission_sorted_by_name_witness :
  NoDup (name <$> classes Samples.generator) ∧
  StronglySorted str_lt (emissionOrder Samples.generator) ∧
  emissionOrder Samples.generator =
    ["SearchVariantsRequest"; "SearchVariantsResponse"].
Proof.
  assert (NoDup (name <$> classes Samples.generator)) as Hnd.
  { apply (bool_decide_unpack _). vm_compute. exact I. }
  split; [exact Hnd|]. split; [|reflexivity].
  apply (emission_sorted_by_name Samples.fill Samples.wrap Samples.strip
           Samples.generator Hnd).
  intros c fs Hc Hfs. simpl in Hc.
  apply elem_of_cons in Hc as [->|Hc];
    [|apply elem_of_cons in Hc as [->|Hc];
      [|by apply elem_of_nil in Hc]];
    injection Hfs as <-; apply (bool_decide_unpack _); vm_compute; exact I.
Defined.

(** The hypothesis of C7 holds of the sample request, whose one required
    field is [reference_name]. *)
Lemma requiredFields_no_default_witness :
  schema_fields (schema Samples.SearchVariantsRequest) =
    Ok [ mkField "reference_name" Samples.str false "None";
         mkField "page_token"
           (UnionSchema [Samples.null; Samples.str]) true "None" ] ∧
  ∃ req,
    requiredFields Samples.SearchVariantsRequest = Ok req ∧
    (∀ n, n ∈ field_name <$> req ↔
          ∃ f, f ∈ [ mkField "reference_name" Samples.str false "None";
                     mkField "page_token"
                       (UnionSchema [Samples.null; Samples.str]) true "None" ]
               ∧ field_name f = n ∧ has_default f = false) ∧
    out (writeRequiredFields Samples.SearchVariantsRequest) =
      requiredFieldsLiteral (field_name <$> req) ∧
    res (writeRequiredFields Samples.SearchVariantsRequest) = Ok tt.
Proof.
  split; [reflexivity|].
  apply (requiredFields_no_default Samples.SearchVariantsRequest).
  reflexivity.
Defined.

(** The hypothesis of C1 holds of the nullable array of calls. *)
Lemma union_field_resolution_witness :
  field_type Samples.nullableCalls =
    UnionSchema (Samples.null :: ArraySchema Samples.Call :: []) ∧
  (isNullPrimitive Samples.null = true →
   isRecordSchema (ArraySchema Samples.Call) = false →
   getEmbeddedTypes_field [] Samples.nullableCalls = Ok []).
Proof.
  split; [reflexivity|].
  apply (union_field_resolution [] Samples.nullableCalls Samples.null
           (ArraySchema Samples.Call) []).
  reflexivity.
Defined.

(** The hypotheses of C5 hold of the union of three branches. *)
Lemma embedded_type_of_field_witness :
  schema_fields (schema Samples.Genotype) =
    Ok [mkField "id" Samples.str false "None"; Samples.callOrName] ∧
  NoDup (field_name <$>
           [mkField "id" Samples.str false "None"; Samples.callOrName]) ∧
  getEmbeddedTypes Samples.Genotype = Ok [("call", "Call")] ∧
  Samples.callOrName ∈
    [mkField "id" Samples.str false "None"; Samples.callOrName] ∧
  isEmbeddedType Samples.Genotype (field_name Samples.callOrName) =
    Ok (bool_decide
          (is_Some (embeddedRecord (field_type Samples.callOrName)))).
Proof.
  assert (NoDup (field_name <$>
            [mkField "id" Samples.str false "None"; Samples.callOrName]))
    as Hnd.
  { apply (bool_decide_unpack _). vm_compute. exact I. }
  assert (Samples.callOrName ∈
            [mkField "id" Samples.str false "None"; Samples.callOrName])
    as Hin.
  { apply elem_of_cons. right. apply elem_of_cons. left. reflexivity. }
  split; [reflexivity|]. split; [exact Hnd|]. split; [reflexivity|].
  split; [exact Hin|].
  apply (embedded_type_of_field Samples.Genotype
           [mkField "id" Samples.str false "None"; Samples.callOrName]
           [("call", "Call")] Samples.callOrName
           eq_refl Hnd eq_refl Hin).
Defined.

(** The hypotheses of C10 hold of the union of a single branch. *)
Lemma union_branches_read_unguarded_witness :
  isRecordSchema (schema Samples.Odd) = true ∧
  getFields Samples.Odd =
    Ok [Samples.onlyNull; mkField "value" Samples.Call false "None"] ∧
  Samples.onlyNull ∈
    [Samples.onlyNull; mkField "value" Samples.Call false "None"] ∧
  field_type Samples.onlyNull = UnionSchema [Samples.null] ∧
  length [Samples.null] < 2 ∧
  (∀ ret, getEmbeddedTypes_field ret Samples.onlyNull = Raise IndexError) ∧
  is_ok (getEmbeddedTypes Samples.Odd) = false.
Proof.
  assert (Samples.onlyNull ∈
            [Samples.onlyNull; mkField "value" Samples.Call false "None"])
    as Hin.
  { apply elem_of_cons. left. reflexivity. }
  assert (length [Samples.null] < 2) as Hlen by (simpl; lia).
  split; [reflexivity|]. split; [reflexivity|]. split; [exact Hin|].
  split; [reflexivity|]. split; [exact Hlen|].
  destruct (union_branches_read_unguarded Samples.Odd
              [Samples.onlyNull; mkField "value" Samples.Call false "None"]
              Samples.onlyNull [Samples.null]
              eq_refl eq_refl Hin eq_refl Hlen) as (H1 & H2 & _).
  split; [exact H1|exact H2].
Defined.

(** The hypothesis of C9 holds of the run on the response without
    [next_page_token]. *)
Lemma failed_run_output_witness :
  (Samples.run (Samples.file <$> [Samples.SearchCallsResponse])).2 =
    Raise ValueError ∧
  ((SchemaGenerator_init (Samples.parse Samples.known)
      "v0.5.1" "avro" "out.py" 0
      (Samples.file <$> [Samples.SearchCallsResponse]) = Raise ValueError ∧
    (Samples.run (Samples.file <$> [Samples.SearchCallsResponse])).1 = None ∧
    ∃ f, f ∈ Samples.file <$> [Samples.SearchCallsResponse] ∧
         is_ok (SchemaClass_init (Samples.parse Samples.known) f.1 f.2)
         = false) ∨
   (∃ sg,
      SchemaGenerator_init (Samples.parse Samples.known)
        "v0.5.1" "avro" "out.py" 0
        (Samples.file <$> [Samples.SearchCallsResponse]) = Ok sg ∧
      res (SchemaGenerator_write Samples.fill Samples.wrap Samples.strip sg)
        = Raise ValueError ∧
      (Samples.run (Samples.file <$> [Samples.SearchCallsResponse])).1 =
        Some (out (SchemaGenerator_write Samples.fill Samples.wrap
                     Samples.strip sg)) ∧
      ("v0.5.1" ≠ "" →
       res (writeClasses Samples.fill Samples.wrap Samples.strip sg)
         = Raise ValueError ∧
       out (SchemaGenerator_write Samples.fill Samples.wrap Samples.strip sg)
         = out (writeHeader sg) +:+
           out (writeClasses Samples.fill Samples.wrap Samples.strip sg)))).
Proof.
  assert ((Samples.run (Samples.file <$> [Samples.SearchCallsResponse])).2 =
          Raise ValueError) as Hrun by (vm_compute; reflexivity).
  split; [exact Hrun|].
  apply (failed_run_output Samples.fill Samples.wrap Samples.strip
           (Samples.parse Samples.known) "v0.5.1" "avro" "out.py" 0
           (Samples.file <$> [Samples.SearchCallsResponse]) None ValueError
           Hrun).
Defined.

(** * Properties of the rest of the script *)

(** ** The patterns *)

Lemma prefix_app (p b : string) : String.prefix p (p +:+ b) = true.
Proof.
  induction p as [|c p IH]; [by destruct b|].
  rewrite append_cons. simpl. by destruct (ascii_dec c c).
Qed.

Lemma skip_app (p r : string) : Py.skip (String.length p) (p +:+ r) = r.
Proof. induction p as [|c p IH]; [done|]. by rewrite append_cons. Qed.

Lemma no_newline_app (a b : string) :
  no_newline (a +:+ b) = no_newline a && no_newline b.
Proof.
  induction a as [|c a IH]; [done|].
  rewrite append_cons. simpl. rewrite IH. by destruct (Re.is_newline c).
Qed.

Lemma star_then_sound (lit s g : string) :
  Re.star_then lit s = Some g →
  (∃ b, s = g +:+ lit +:+ b) ∧ no_newline g = true.
Proof.
  revert g. induction s as [|c s IH]; intros g.
  - simpl. destruct lit; [|done]. intros [= <-]. split; [by exists ""|done].
  - rewrite star_then_cons.
    destruct (if Re.is_newline c then None else Re.star_then lit s)
      as [g'|] eqn:Hg.
    + intros [= <-]. destruct (Re.is_newline c) eqn:Hc; [done|].
      destruct (IH g' Hg) as [[b ->] Hn]. split; [by exists b|].
      simpl. by rewrite Hc, Hn.
    + destruct (String.prefix lit (String c s)) eqn:Hp; [|done].
      intros [= <-]. apply prefix_split in Hp. split; [|done]. eauto.
Qed.

Lemma star_then_complete (lit g b : string) :
  no_newline g = true → is_Some (Re.star_then lit (g +:+ lit +:+ b)).
Proof.
  induction g as [|c g IH]; intros Hg.
  - change ("" +:+ lit +:+ b) with (lit +:+ b).
    destruct (lit +:+ b) as [|d s] eqn:Hs.
    + destruct lit; [|done]. by exists "".
    + rewrite star_then_cons.
      destruct (if Re.is_newline d then None else Re.star_then lit s);
        [by eexists|].
      rewrite <-Hs, prefix_app. by eexists.
  - simpl in Hg. apply andb_true_iff in Hg as [Hc Hg].
    apply negb_true_iff in Hc.
    rewrite append_cons, star_then_cons, Hc.
    destruct (IH Hg) as [g' ->]. by eexists.
Qed.

(** The longest run: no other way to cut [s] gives [.*] more characters. *)
Lemma star_then_longest (lit s g g' b' : string) :
  Re.star_then lit s = Some g →
  s = g' +:+ lit +:+ b' → no_newline g' = true →
  (String.length g' ≤ String.length g)%nat.
Proof.
  revert g g'. induction s as [|c s IH]; intros g g' Hs Heq Hn.
  - destruct g'; [simpl; lia|done].
  - rewrite star_then_cons in Hs.
    destruct g' as [|d g']; [simpl; lia|].
    rewrite append_cons in Heq. injection Heq as <- ->.
    simpl in Hn. apply andb_true_iff in Hn as [Hc Hn].
    apply negb_true_iff in Hc. rewrite Hc in Hs.
    destruct (star_then_complete lit g' b' Hn) as [g1 Hg1].
    rewrite Hg1 in Hs. injection Hs as <-. simpl.
    pose proof (IH g1 g' Hg1 eq_refl Hn). lia.
Qed.

Lemma match_here_sound (pre post s g : string) :
  Re.match_here pre post s = Some g →
  ∃ b, s = pre +:+ g +:+ post +:+ b ∧ g ≠ "" ∧ no_newline g = true ∧
       ∀ g' b', s = pre +:+ g' +:+ post +:+ b' → no_newline g' = true →
                (String.length g' ≤ String.length g)%nat.
Proof.
  unfold Re.match_here. destruct (String.prefix pre s) eqn:Hp; [|done].
  apply prefix_split in Hp. revert Hp.
  generalize (Py.skip (String.length pre) s). intros r -> Hr.
  unfold Re.plus_then in Hr. destruct r as [|c r]; [done|].
  destruct (Re.is_newline c) eqn:Hc; [done|].
  destruct (Re.star_then post r) as [g1|] eqn:Hg; [|done].
  injection Hr as <-.
  destruct (star_then_sound _ _ _ Hg) as [[b ->] Hn].
  exists b. split_and!; [done|done|by simpl; rewrite Hc, Hn|].
  intros g' b' Heq Hn'. apply (inj (String.app pre)) in Heq.
  destruct g' as [|d g']; [simpl; lia|].
  rewrite !append_cons in Heq. injection Heq as <- Heq. simpl.
  simpl in Hn'. apply andb_true_iff in Hn' as [_ Hn'].
  pose proof (star_then_longest _ _ _ _ _ Hg Heq Hn'). lia.
Qed.

Lemma match_here_complete (pre post g b : string) :
  g ≠ "" → no_newline g = true →
  is_Some (Re.match_here pre post (pre +:+ g +:+ post +:+ b)).
Proof.
  intros Hg Hn. unfold Re.match_here. rewrite prefix_app, skip_app.
  destruct g as [|c g]; [done|]. rewrite append_cons. simpl.
  simpl in Hn. apply andb_true_iff in Hn as [Hc Hn].
  apply negb_true_iff in Hc. rewrite Hc.
  destruct (star_then_complete post g b Hn) as [g' ->]. by eexists.
Qed.

Lemma search_cons (pre post : string) (c : ascii) (s : string) :
  Re.search pre post (String c s) =
  match Re.match_here pre post (String c s) with
  | Some g => Some g
  | None => Re.search pre post s
  end.
Proof. done. Qed.

Lemma search_nil (pre post : string) :
  Re.search pre post "" = Re.match_here pre post "".
Proof. simpl. by destruct (Re.match_here pre post ""). Qed.

Lemma search_sound (pre post s g : string) :
  Re.search pre post s = Some g →
  ∃ a b,
    s = a +:+ pre +:+ g +:+ post +:+ b ∧ g ≠ "" ∧ no_newline g = true ∧
    (∀ a' g' b', s = a' +:+ pre +:+ g' +:+ post +:+ b' →
                 g' ≠ "" → no_newline g' = true →
                 (String.length a ≤ String.length a')%nat) ∧
    (∀ g' b', pre +:+ g +:+ post +:+ b = pre +:+ g' +:+ post +:+ b' →
              no_newline g' = true →
              (String.length g' ≤ String.length g)%nat).
Proof.
  induction s as [|c s IH].
  - rewrite search_nil. intros Hm.
    destruct (match_here_sound _ _ _ _ Hm) as (b & Hs & Hg & Hn & Hl).
    exists "", b. split_and!; [done..| |].
    + intros; simpl; lia.
    + intros g' b' Heq. apply (Hl g' b'). by rewrite Hs.
  - rewrite search_cons.
    destruct (Re.match_here pre post (String c s)) as [g0|] eqn:Hm.
    + intros [= ->].
      destruct (match_here_sound _ _ _ _ Hm) as (b & Hs & Hg & Hn & Hl).
      exists "", b. split_and!; [done..| |].
      * intros; simpl; lia.
      * intros g' b' Heq. apply (Hl g' b'). by rewrite Hs.
    + intros (a & b & -> & Hg & Hn & Hleft & Hlong)%IH.
      exists (String c a), b. split_and!; [done..| |done].
      intros a' g' b' Heq Hg' Hn'. destruct a' as [|d a'].
      * change ("" +:+ pre +:+ g' +:+ post +:+ b')
          with (pre +:+ g' +:+ post +:+ b') in Heq.
        pose proof (match_here_complete pre post g' b' Hg' Hn') as [? Hc].
        rewrite <-Heq in Hc. congruence.
      * rewrite !append_cons in Heq. injection Heq as <- Heq. simpl.
        pose proof (Hleft a' g' b' Heq Hg' Hn'). lia.
Qed.

Lemma search_complete (pre post s : string) :
  matches pre post s → is_Some (Re.search pre post s).
Proof.
  intros (a & g & b & -> & Hg & Hn).
  induction a as [|c a IH].
  - change ("" +:+ pre +:+ g +:+ post +:+ b)
      with (pre +:+ g +:+ post +:+ b).
    destruct (match_here_complete pre post g b Hg Hn) as [g' Hm].
    destruct (pre +:+ g +:+ post +:+ b) as [|d s].
    + rewrite search_nil, Hm. by eexists.
    + rewrite search_cons, Hm. by eexists.
  - rewrite append_cons, search_cons.
    by destruct (Re.match_here pre post _); [eexists|].
Qed.

(** X1: a class is a search request exactly when its name holds [Search],
    then at least one character, none of them a newline, then [Request];
    and a search response likewise, with [Response].  The name
    [SearchRequest] itself, with nothing in between, is neither. *)
Theorem search_classes_by_name (c : SchemaClass) :
  (isSearchRequest c = true ↔ matches "Search" "Request" (name c)) ∧
  (isSearchResponse c = true ↔ matches "Search" "Response" (name c)).
Proof.
  unfold isSearchRequest, isSearchResponse.
  rewrite !bool_decide_eq_true. split; split.
  - intros [g Hg]. destruct (search_sound _ _ _ _ Hg)
      as (a & b & ? & ? & ? & _). by exists a, g, b.
  - apply search_complete.
  - intros [g Hg]. destruct (search_sound _ _ _ _ Hg)
      as (a & b & ? & ? & ? & _). by exists a, g, b.
  - apply search_complete.
Qed.

(** X2: the object that [Search(.+)Request] takes from the name of a
    request is not empty, is on one line, starts after the leftmost
    [Search] from which the pattern matches, and runs up to the last
    [Request] that it can reach: no other cut of the name starts earlier,
    and none from that start is longer. *)
Theorem captured_object_leftmost_longest (request object : string) :
  Re.search "Search" "Request" request = Some object →
  ∃ pre post,
    request = pre +:+ "Search" +:+ object +:+ "Request" +:+ post ∧
    object ≠ "" ∧ no_newline object = true ∧
    (∀ pre' object' post',
       request = pre' +:+ "Search" +:+ object' +:+ "Request" +:+ post' →
       object' ≠ "" → no_newline object' = true →
       (String.length pre ≤ String.length pre')%nat) ∧
    (∀ object' post',
       request = pre +:+ "Search" +:+ object' +:+ "Request" +:+ post' →
       no_newline object' = true →
       (String.length object' ≤ String.length object)%nat).
Proof.
  intros Hs.
  destruct (search_sound _ _ _ _ Hs) as (a & b & Heq & Hg & Hn & Hl & Hg').
  exists a, b. split_and!; [done..|].
  intros o' p' Heq' Hn'. apply (Hg' o' p'); [|done].
  rewrite Heq in Heq'. by apply (inj (String.app a)) in Heq'.
Qed.

(** ** When the resolution of the embedded types returns *)

Lemma getEmbeddedTypes_field_is_ok (ret : list Edge) (f : Field) :
  is_ok (getEmbeddedTypes_field ret f) = unionOk (field_type f).
Proof.
  unfold getEmbeddedTypes_field, unionOk.
  destruct (field_type f) as [| | |items| |schemas|]; try done.
  - by destruct items.
  - destruct schemas as [|t0 [|t1 rest]]; [done..|].
    unfold py_index; simpl. destruct (isNullPrimitive t0); [|done].
    by destruct t1.
Qed.

Lemma getEmbeddedTypes_field_error (ret : list Edge) (f : Field) e :
  getEmbeddedTypes_field ret f = Raise e →
  e = IndexError ∨ e = Exception "Schema union assumptions violated".
Proof.
  unfold getEmbeddedTypes_field.
  destruct (field_type f) as [| | |items| |schemas|]; try done.
  - by destruct items.
  - destruct schemas as [|t0 [|t1 rest]]; simpl;
      [intros [= <-]; by left..|].
    unfold py_index; simpl. destruct (isNullPrimitive t0).
    + by destruct t1.
    + intros [= <-]. by right.
Qed.

Lemma rfold_edges_is_ok (ret : list Edge) (fs : list Field) :
  is_ok (rfold getEmbeddedTypes_field ret fs) =
  forallb (λ f, unionOk (field_type f)) fs.
Proof.
  revert ret. induction fs as [|f fs IH]; intros ret; [done|].
  rewrite rfold_cons. simpl. rewrite <-(getEmbeddedTypes_field_is_ok ret f).
  destruct (getEmbeddedTypes_field ret f); simpl; [apply IH|done].
Qed.

Lemma rfold_edges_error (ret : list Edge) (fs : list Field) e :
  rfold getEmbeddedTypes_field ret fs = Raise e →
  e = IndexError ∨ e = Exception "Schema union assumptions violated".
Proof.
  revert ret. induction fs as [|f fs IH]; intros ret; [done|].
  rewrite rfold_cons.
  destruct (getEmbeddedTypes_field ret f) eqn:Hf; [apply IH|].
  intros [= <-]. by eapply getEmbeddedTypes_field_error.
Qed.

(** X3: the resolution of the embedded types of a class returns exactly
    when every field of union type has two branches or more and [null] as
    the first; a class that is no record always gets the empty list.  When
    it raises, it raises the IndexError of the branch access or the
    exception of the union check, and nothing else. *)
Theorem getEmbeddedTypes_returns_iff (c : SchemaClass) :
  (is_ok (getEmbeddedTypes c) = true ↔
   ∀ fs f, schema_fields (schema c) = Ok fs → f ∈ fs →
           unionOk (field_type f) = true) ∧
  (isRecordSchema (schema c) = false → getEmbeddedTypes c = Ok []) ∧
  (∀ e, getEmbeddedTypes c = Raise e →
        e = IndexError ∨ e = Exception "Schema union assumptions violated").
Proof.
  unfold getEmbeddedTypes, getFields. split_and!.
  - destruct (schema c) as [| | | | | |n d fs']; simpl; try done.
    rewrite rfold_edges_is_ok, forallb_forall. split.
    + intros Hall fs f [= <-] Hf. apply Hall, list_elem_of_In.
      by rewrite sorted_perm.
    + intros Hall f Hf. apply (Hall fs' f); [done|].
      apply list_elem_of_In in Hf. by rewrite sorted_perm in Hf.
  - by intros ->.
  - intros e. destruct (schema c); simpl; try done.
    apply rfold_edges_error.
Qed.





(** ** The rows of the end point table *)

Lemma lower_char_idemp (c : ascii) :
  Py.lower_char (Py.lower_char c) = Py.lower_char c.
Proof. by destruct c as [[] [] [] [] [] [] [] []]; vm_compute. Qed.

Lemma lower_idemp (s : string) : Py.lower (Py.lower s) = Py.lower s.
Proof.
  induction s as [|c s IH]; [done|]. simpl. by rewrite lower_char_idemp, IH.
Qed.

Lemma lower_app (a b : string) :
  Py.lower (a +:+ b) = Py.lower a +:+ Py.lower b.
Proof.
  induction a as [|c a IH]; [done|]. rewrite append_cons. simpl.
  by rewrite IH.
Qed.

Lemma lower_length (s : string) : String.length (Py.lower s) = String.length s.
Proof. induction s as [|c s IH]; [done|]. simpl. by rewrite IH. Qed.

Lemma makePostSignatures_rows (classes : list SchemaClass) :
  ∃ rows,
    makePostSignatures classes = Ok (sorted signature_le id rows) ∧
    Forall2 signatureOf
      (zip (name <$> List.filter isSearchRequest classes)
           (name <$> List.filter isSearchResponse classes)) rows.
Proof.
  unfold makePostSignatures.
  destruct (postSignatures_loop []
              (zip (name <$> List.filter isSearchRequest classes)
                   (name <$> List.filter isSearchResponse classes)))
    as (rows & -> & Hall); [|by exists rows].
  apply Forall_forall. intros [req resp] Hin. simpl.
  apply elem_of_zip_l, list_elem_of_fmap in Hin as (c & -> & Hc).
  apply list_elem_of_In, List.filter_In in Hc as [_ Hc].
  destruct (isSearchRequest_search c Hc) as [o Ho]. by exists o.
Qed.

(** X5: the table has as many rows as the shorter of the two lists, the
    search requests and the search responses of the classes: [zip] stops at
    the end of the shorter list, so the requests or responses beyond it are
    left out of the table and nothing is raised. *)
Theorem table_length_is_min (classes : list SchemaClass) :
  ∃ table,
    makePostSignatures classes = Ok table ∧
    length table =
      min (length (List.filter isSearchRequest classes))
          (length (List.filter isSearchResponse classes)).
Proof.
  destruct (makePostSignatures_rows classes) as (rows & -> & Hall).
  eexists. split; [done|].
  rewrite (Permutation_length (sorted_perm signature_le id rows)).
  rewrite <-(Forall2_length _ _ _ Hall), length_zip_with, !length_fmap.
  done.
Qed.

(** X6: in every row of the table the request is the name of a class that
    is a search request and the response the name of a class that is a
    search response; the url is in lower case, and it has nine characters
    or more: the object between [/] and [/search] is never empty. *)
Theorem table_rows_well_formed (classes : list SchemaClass)
    (table : list Signature) (url request response : string) :
  makePostSignatures classes = Ok table →
  (url, request, response) ∈ table →
  (∃ c, c ∈ classes ∧ isSearchRequest c = true ∧ name c = request) ∧
  (∃ c, c ∈ classes ∧ isSearchResponse c = true ∧ name c = response) ∧
  Py.lower url = url ∧
  (9 ≤ String.length url)%nat.
Proof.
  destruct (makePostSignatures_rows classes) as (rows & -> & Hall).
  intros [= <-] Hin. rewrite (sorted_perm signature_le id rows) in Hin.
  apply list_elem_of_lookup in Hin as [i Hi].
  destruct (Forall2_lookup_r _ _ _ _ _ Hall Hi)
    as ([r s] & Hp & Hr & Hs & o & Ho & Hurl).
  simpl in *. subst.
  apply list_elem_of_lookup_2 in Hp.
  destruct (search_split _ _ _ _ Ho) as (a & b & _ & Hne).
  split_and!.
  - apply elem_of_zip_l, list_elem_of_fmap in Hp as (c & -> & Hc).
    apply list_elem_of_In, List.filter_In in Hc as [Hc ?].
    exists c. by rewrite list_elem_of_In.
  - apply elem_of_zip_r, list_elem_of_fmap in Hp as (c & -> & Hc).
    apply list_elem_of_In, List.filter_In in Hc as [Hc ?].
    exists c. by rewrite list_elem_of_In.
  - by rewrite !lower_app, lower_idemp.
  - rewrite !append_length, lower_length. destruct o; [done|]. simpl. lia.
Qed.

(** ** The literal of [postMethods] *)

Lemma append_nil_l (a : string) : "" +:+ a = a.
Proof. done. Qed.

Lemma rowsText_cons (r r' : Signature) (rows : list Signature) :
  rowsText (r :: r' :: rows) =
  rowText r +:+ ("," +:+ Py.newline) +:+ "     ('" +:+ rowsText (r' :: rows).
Proof. done. Qed.

Lemma postMethods_rows (n i : nat) (l : list Signature)
    (body : nat * Signature → W unit) :
  (∀ j row, out (body (j, row)) =
            (if (j =? 0)%nat then "" else "     ('") +:+ rowText row +:+
            (if (j =? n - 1)%nat then "]" +:+ Py.newline
             else "," +:+ Py.newline)) →
  l ≠ [] → i + length l = n →
  foldr (λ it acc, out (body it) +:+ acc) "" (zip (seq i (length l)) l) =
  (if (i =? 0)%nat then "" else "     ('") +:+ rowsText l.
Proof.
  intros Hbody. revert i.
  induction l as [|row l IH]; intros i Hne Hn; [done|].
  change (zip (seq i (length (row :: l))) (row :: l))
    with ((i, row) :: zip (seq (S i) (length l)) l).
  simpl foldr. rewrite Hbody. destruct l as [|row' l].
  - simpl in Hn. replace (i =? n - 1)%nat with true
      by (symmetry; apply Nat.eqb_eq; lia).
    simpl. by rewrite !append_assoc, append_nil_r.
  - rewrite (IH (S i)); [|done|simpl in *; lia].
    replace (i =? n - 1)%nat with false
      by (symmetry; apply Nat.eqb_neq; simpl in Hn; lia).
    rewrite rowsText_cons. change (S i =? 0)%nat with false. cbv iota.
    by rewrite !append_assoc.
Qed.

Lemma writePostMethods_out (g : SchemaGenerator) :
  out (writePostMethods g) = postMethodsText (postSignatures g).
Proof.
  unfold writePostMethods, postMethodsText.
  match goal with
  | |- out (?m ≫= ?k) = _ =>
      destruct (out_bind_Ok m k tt eq_refl) as [-> _]
  end.
  f_equal.
  match goal with
  | |- out (for_each ?l ?body) = _ =>
      destruct (for_each_Ok l body) as [_ ->]
  end.
  { intros [i [[url request] response]].
    by destruct (i =? 0)%nat, (i =? length (postSignatures g) - 1)%nat. }
  unfold enumerate. destruct (postSignatures g) as [|r l] eqn:Hrows; [done|].
  rewrite (postMethods_rows (length (r :: l)) 0 (r :: l)); [done| |done..].
  intros j [[u q] p].
  destruct (j =? 0)%nat, (j =? length (r :: l) - 1)%nat;
    unfold mbind, W_bind, rowText; simpl;
    by rewrite ?append_assoc, ?append_nil_r, ?append_nil_l.
Qed.

(** X7: [write] prints the table as one list literal: the opening text,
    the rows in their order, each from its url to its closing bracket,
    a comma between two rows, and the closing bracket of the list after
    the last row.  With no row at all nothing follows the opening text:
    the literal is left open after its first bracket and quote. *)
Theorem postMethods_literal (g : SchemaGenerator) :
  out (writePostMethods g) = postMethodsText (postSignatures g) ∧
  res (writePostMethods g) = Ok tt ∧
  (postSignatures g = [] →
   out (writePostMethods g) =
     Py.newline +:+ "postMethods = " +:+ Py.backslash +:+ Py.newline +:+
     "    [('").
Proof.
  split_and!; [apply writePostMethods_out|apply writePostMethods_Ok|].
  intros Hnil. rewrite writePostMethods_out, Hnil.
  unfold postMethodsText. simpl rowsText.
  by rewrite ?append_assoc, ?append_nil_r.
Qed.

(** ** The constructor *)

(** X8: for a record, [writeConstructor] raises nothing and prints the
    slot list and the constructor over one and the same sequence, the
    fields in ascending order of their names: one slot name and one
    assignment of the default value for each field.  For a record without
    fields the slot list holds one empty name, and the constructor is left
    without a body. *)
Theorem constructor_text (textwrap_fill : string → string → string)
    (c : SchemaClass) (fs : list Field) :
  schema_fields (schema c) = Ok fs →
  res (writeConstructor textwrap_fill c) = Ok tt ∧
  out (writeConstructor textwrap_fill c) =
    constructorText textwrap_fill (sorted String.le field_name fs) ∧
  (fs = [] →
   out (writeConstructor textwrap_fill c) =
     (("    " +:+ "__slots__ = [") +:+ Py.newline) +:+
     (textwrap_fill "''" "        " +:+ Py.newline) +:+
     (("    " +:+ "]") +:+ Py.newline) +:+
     Py.newline +:+
     (("    " +:+ "def __init__(self):") +:+ Py.newline)).
Proof.
  intros Hfs.
  assert (res (writeConstructor textwrap_fill c) = Ok tt ∧
          out (writeConstructor textwrap_fill c) =
            constructorText textwrap_fill (sorted String.le field_name fs))
    as [Hres Hout].
  { unfold writeConstructor. rewrite (getFields_record c fs Hfs).
    generalize (sorted String.le field_name fs). intros sfs.
    destruct (for_each_Ok sfs
                (λ field, _writeWithIndent
                   ("self." +:+ field_name field +:+ " = " +:+ default field)
                   2)) as [Hr Ho]; [done|].
    unfold mbind, W_bind, lift. cbn [res out _writeWithIndent
      _writeWrappedWithIndent _writeNewline print].
    unfold mbind, W_bind in Hr, Ho. rewrite Hr, Ho. split; [done|].
    reflexivity. }
  split_and!; [done..|].
  intros ->. rewrite Hout. unfold constructorText, slotString. simpl.
  by rewrite ?append_assoc, ?append_nil_r, ?append_nil_l.
Qed.

(** ** How printing ends *)

Lemma res_bind {A B} (m : W A) (k : A → W B) :
  res (m ≫= k) = res m ≫= λ a, res (k a).
Proof. unfold mbind at 1, W_bind. by destruct (res m). Qed.

Lemma res_W_bind {A B} (m : W A) (k : A → W B) :
  res (W_bind A B k m) = res m ≫= λ a, res (k a).
Proof. apply res_bind. Qed.

Ltac res_steps :=
  repeat first [rewrite res_bind | rewrite res_W_bind | progress simpl].

(** The same, without unfolding the printing functions. *)
Ltac res_binds :=
  repeat first [rewrite res_bind | rewrite res_W_bind
               | progress cbv beta iota delta [mbind result_bind]].

Lemma for_each_res {B} (l : list B) (body : B → W unit) :
  (res (for_each l body) = Ok tt ↔ ∀ x, x ∈ l → res (body x) = Ok tt) ∧
  (∀ e, res (for_each l body) = Raise e →
        ∃ x, x ∈ l ∧ res (body x) = Raise e).
Proof.
  induction l as [|x l [IHok IHe]]; simpl for_each.
  - split; [split; [by inversion 2|done]|done].
  - rewrite res_bind. destruct (res (body x)) as [[]|e'] eqn:Hx; simpl.
    + split.
      * rewrite IHok. split.
        -- intros Hl y [->|Hy]%elem_of_cons; eauto.
        -- intros Hl y Hy. apply Hl. by right.
      * intros e (y & Hy & He)%IHe. exists y. split; [by right|done].
    + split.
      * split; [done|]. intros Hl. rewrite Hl in Hx; [done|by left].
      * intros e [= <-]. exists x. split; [by left|done].
Qed.

Lemma writeRequiredFields_res (c : SchemaClass) :
  isRecordSchema (schema c) = true → res (writeRequiredFields c) = Ok tt.
Proof.
  intros Hrec. unfold writeRequiredFields, requiredFields, getFields.
  destruct (schema c); try done. res_steps.
  destruct (_ <? _)%nat; [done|]. res_steps.
  by rewrite (proj2 (proj1 (for_each_res _ _))).
Qed.

Lemma writeConstructor_res (fill : string → string → string)
    (c : SchemaClass) :
  isRecordSchema (schema c) = true → res (writeConstructor fill c) = Ok tt.
Proof.
  intros Hrec. unfold writeConstructor, getFields.
  destruct (schema c); try done. res_steps.
  by rewrite (proj2 (proj1 (for_each_res _ _))).
Qed.

Lemma writeEmbeddedTypes_res (c : SchemaClass) :
  res (writeEmbeddedTypes c) = getEmbeddedTypes c ≫= λ _, Ok tt.
Proof.
  unfold writeEmbeddedTypes. rewrite res_bind. simpl.
  destruct (getEmbeddedTypes c) as [et|e] eqn:Het; [|done]. simpl.
  destruct (length et =? 0)%nat; [done|].
  res_steps. rewrite ?Het. res_steps.
  by rewrite (proj2 (proj1 (for_each_res _ _))).
Qed.

Lemma writeEmbeddedTypesClassMethods_res (c : SchemaClass) :
  res (writeEmbeddedTypesClassMethods c) = getEmbeddedTypes c ≫= λ _, Ok tt.
Proof.
  unfold writeEmbeddedTypesClassMethods.
  repeat first [rewrite res_bind | rewrite res_W_bind
               | rewrite writeEmbeddedTypes_res | progress simpl].
  by destruct (getEmbeddedTypes c).
Qed.

(** The result of printing one class, as a computation that prints
    nothing. *)
Lemma SchemaClass_write_res (fill : string → string → string)
    (wrap : string → list string) (strip : string → string)
    (c : SchemaClass) :
  res (SchemaClass_write fill wrap strip c) =
  match schema c with
  | RecordSchema _ _ _ =>
      (if isSearchResponse c then getValueListName c ≫= λ _, Ok tt
       else Ok tt) ≫= λ _, getEmbeddedTypes c ≫= λ _, Ok tt
  | EnumSchema _ _ _ => Ok tt
  | _ => Raise AttributeError
  end.
Proof.
  unfold SchemaClass_write. rewrite !res_bind.
  destruct (schema c) as [| |n d symbols| | | |n d fs] eqn:Hs;
    try done; res_steps.
  - by rewrite (proj2 (proj1 (for_each_res _ _))).
  - rewrite writeRequiredFields_res by by rewrite Hs.
    res_steps.
    rewrite !writeEmbeddedTypes_res.
    rewrite writeConstructor_res by by rewrite Hs.
    destruct (isSearchResponse c); res_steps.
    + destruct (getValueListName c); simpl; [|done].
      by destruct (getEmbeddedTypes c).
    + by destruct (getEmbeddedTypes c).
Qed.

(** X9: printing a class raises only through the two analyses.  An
    enumeration is always printed.  A record that is a search response
    without the shape of one raises what [getValueListName] raises, whatever
    its unions are; otherwise a record raises what [getEmbeddedTypes]
    raises, and is printed when that returns.  A record that is no search
    response is never asked for its value list. *)
Theorem class_write_raises (textwrap_fill : string → string → string)
    (textwrap_wrap : string → list string)
    (json_strip_docs : string → string) (c : SchemaClass) :
  (isEnumSchema (schema c) = true →
   res (SchemaClass_write textwrap_fill textwrap_wrap json_strip_docs c)
   = Ok tt) ∧
  (isRecordSchema (schema c) = true →
   (∀ e, isSearchResponse c = true → getValueListName c = Raise e →
         res (SchemaClass_write textwrap_fill textwrap_wrap
                json_strip_docs c) = Raise e) ∧
   ((isSearchResponse c = true → is_ok (getValueListName c) = true) →
    res (SchemaClass_write textwrap_fill textwrap_wrap json_strip_docs c)
    = getEmbeddedTypes c ≫= λ _, Ok tt)).
Proof.
  rewrite SchemaClass_write_res. split.
  - by destruct (schema c).
  - intros Hrec. destruct (schema c); try done. split.
    + intros e -> ->. done.
    + intros Hv. destruct (isSearchResponse c); [|done].
      specialize (Hv eq_refl). by destruct (getValueListName c).
Qed.

(** ** Printing all the classes *)

Lemma py_dict_lastNamed (l : list SchemaClass) (n : string) :
  py_dict ((λ cls, (name cls, cls)) <$> l) !! n = lastNamed l n.
Proof.
  unfold lastNamed. induction l as [|c l IH] using rev_ind; [done|].
  rewrite fmap_app. simpl. rewrite py_dict_snoc, rev_app_distr. simpl.
  case_bool_decide as Hn.
  - subst n. by rewrite lookup_insert_eq.
  - by rewrite lookup_insert_ne.
Qed.

Lemma lastNamed_Some (l : list SchemaClass) (n : string) (c : SchemaClass) :
  lastNamed l n = Some c →
  name c = n ∧
  ∃ l1 l2, l = l1 ++ c :: l2 ∧ n ∉ name <$> l2.
Proof.
  unfold lastNamed. induction l as [|d l IH] using rev_ind; [done|].
  rewrite rev_app_distr. simpl. case_bool_decide as Hn.
  - intros [= ->]. split; [done|]. exists l, []. split; [done|].
    by apply not_elem_of_nil.
  - intros (Hc & l1 & l2 & -> & Hl2)%IH. split; [done|].
    exists l1, (l2 ++ [d]). rewrite <-app_assoc. split; [done|].
    rewrite fmap_app, not_elem_of_app. split; [done|].
    simpl. by rewrite list_elem_of_singleton.
Qed.

Lemma lastNamed_is_Some (l : list SchemaClass) (n : string) :
  n ∈ name <$> l → is_Some (lastNamed l n).
Proof.
  rewrite <-py_dict_lastNamed. intros Hn.
  destruct (py_dict _ !! n) eqn:Hd; [by eexists|].
  apply py_dict_lookup_None in Hd.
  by rewrite <-list_fmap_compose in Hd.
Qed.

Lemma getValueListName_error (c : SchemaClass) e :
  getValueListName c = Raise e →
  e = AssertionError ∨ e = ValueError ∨ e = AttributeError.
Proof.
  unfold getValueListName, getFields.
  destruct (isSearchResponse c); simpl; [|intros [= <-]; by left].
  destruct (schema_fields (schema c)) as [fs|e'] eqn:Hfs; simpl.
  - destruct (py_remove _ _) as [r|e'] eqn:Hr; simpl.
    + destruct r as [|Y [|??]]; simpl; try done; intros [= <-]; by left.
    + intros [= <-]. right; left.
      destruct (decide ("next_page_token" ∈
                  field_name <$> sorted String.le field_name fs))
        as [Hin|Hout].
      * apply py_remove_is_Ok in Hin as [? Hin]. congruence.
      * apply py_remove_Raise in Hout. congruence.
  - intros [= <-]. right; right.
    destruct (schema c); simpl in Hfs; congruence.
Qed.

Lemma getEmbeddedTypes_error (c : SchemaClass) e :
  getEmbeddedTypes c = Raise e →
  e = IndexError ∨ e = Exception "Schema union assumptions violated".
Proof.
  unfold getEmbeddedTypes, getFields.
  destruct (schema c); simpl; try done. apply rfold_edges_error.
Qed.

Lemma SchemaClass_write_not_KeyError (fill : string → string → string)
    (wrap : string → list string) (strip : string → string)
    (c : SchemaClass) :
  res (SchemaClass_write fill wrap strip c) ≠ Raise KeyError.
Proof.
  rewrite SchemaClass_write_res. destruct (schema c); try done.
  assert (getEmbeddedTypes c ≫= (λ _, Ok tt) ≠ Raise KeyError) as Het.
  { destruct (getEmbeddedTypes c) as [|e] eqn:He; [done|]. simpl.
    apply getEmbeddedTypes_error in He. intros [= ->]. by destruct He. }
  destruct (isSearchResponse c); [|done].
  destruct (getValueListName c) as [|e] eqn:Hv; [done|]. simpl.
  apply getValueListName_error in Hv. intros [= ->].
  by destruct Hv as [|[|]].
Qed.

Section WriteAll.
Variable textwrap_fill : string → string → string.
Variable textwrap_wrap : string → list string.
Variable json_strip_docs : string → string.

Local Abbreviation writeClass :=
  (SchemaClass_write textwrap_fill textwrap_wrap json_strip_docs).
Local Abbreviation writeAll :=
  (SchemaGenerator_write textwrap_fill textwrap_wrap json_strip_docs).
Local Abbreviation writeClasses_ :=
  (writeClasses textwrap_fill textwrap_wrap json_strip_docs).

Lemma writeClasses_step (g : SchemaGenerator) (n : string) :
  n ∈ emissionOrder g →
  ∃ c, lastNamed (classes g) n = Some c ∧
       res (lift (match py_dict ((λ cls, (name cls, cls)) <$> classes g)
                          !! n with
                  | Some cls => Ok cls
                  | None => Raise KeyError
                  end) ≫= λ cls, writeClass cls) = res (writeClass c).
Proof.
  intros Hn. unfold emissionOrder, sorted_strings in Hn.
  rewrite sorted_perm in Hn.
  destruct (lastNamed_is_Some _ _ Hn) as [c Hc]. exists c.
  split; [done|]. rewrite py_dict_lastNamed, Hc, res_bind. done.
Qed.

Lemma writeHeader_res (g : SchemaGenerator) :
  res (writeHeader g) = Ok tt ↔ version g ≠ "".
Proof.
  split; [|apply writeHeader_Ok].
  unfold writeHeader. by destruct (version g).
Qed.

(** X10: [write] never raises KeyError.  Every name of the sorted list is
    a key of the dictionary of the classes, and what the dictionary holds
    for it is the class listed last under that name: when two files define
    a type of one name, the later class is printed for both and the
    earlier one is never printed. *)
Theorem write_lookup_never_misses (g : SchemaGenerator) :
  (∀ n, n ∈ emissionOrder g →
        ∃ c l1 l2,
          py_dict ((λ cls, (name cls, cls)) <$> classes g) !! n = Some c ∧
          name c = n ∧
          classes g = l1 ++ c :: l2 ∧ n ∉ name <$> l2) ∧
  res (writeClasses_ g) ≠ Raise KeyError ∧
  res (writeAll g) ≠ Raise KeyError.
Proof.
  assert (res (writeClasses_ g) ≠ Raise KeyError) as Hc.
  { intros He. unfold writeClasses in He.
    apply for_each_res in He as (n & Hn & He).
    destruct (writeClasses_step g n Hn) as (c & _ & Hw).
    rewrite Hw in He. by eapply SchemaClass_write_not_KeyError. }
  split_and!; [|done|].
  - intros n Hn. unfold emissionOrder, sorted_strings in Hn.
    rewrite sorted_perm in Hn.
    destruct (lastNamed_is_Some _ _ Hn) as [c Hl].
    destruct (lastNamed_Some _ _ _ Hl) as (Hname & l1 & l2 & Heq & Hl2).
    exists c, l1, l2. by rewrite py_dict_lastNamed.
  - unfold SchemaGenerator_write. rewrite res_bind.
    destruct (res (writeHeader g)) as [[]|e] eqn:Hh; res_binds.
    + destruct (res (writeClasses_ g)) as [[]|e]; [|congruence].
      by rewrite writePostMethods_Ok.
    + destruct (decide (version g = "")) as [Hv|Hv].
      * unfold writeHeader in Hh. rewrite Hv in Hh.
        revert Hh. res_steps. congruence.
      * by rewrite (writeHeader_Ok g Hv) in Hh.
Qed.

(** X11: with unique class names, [write] returns exactly when the version
    is not empty and the printing of every class returns; the file is then
    the header, the classes, and the literal of the table, in this order. *)
Theorem write_returns_iff (g : SchemaGenerator) :
  NoDup (name <$> classes g) →
  (res (writeAll g) = Ok tt ↔
   version g ≠ "" ∧ ∀ c, c ∈ classes g → res (writeClass c) = Ok tt) ∧
  (res (writeAll g) = Ok tt →
   out (writeAll g) =
     out (writeHeader g) +:+ out (writeClasses_ g) +:+
     postMethodsText (postSignatures g)).
Proof.
  intros Hnd.
  assert (res (writeClasses_ g) = Ok tt ↔
          ∀ c, c ∈ classes g → res (writeClass c) = Ok tt) as Hcls.
  { unfold writeClasses. rewrite (proj1 (for_each_res _ _)). split.
    - intros Hall c Hc.
      assert (name c ∈ emissionOrder g) as Hn.
      { unfold emissionOrder, sorted_strings. rewrite sorted_perm.
        by apply list_elem_of_fmap_2. }
      specialize (Hall _ Hn).
      destruct (writeClasses_step g _ Hn) as (c' & Hl & Hw).
      rewrite Hw in Hall.
      rewrite <-py_dict_lastNamed in Hl. apply py_dict_lookup in Hl.
      + apply list_elem_of_fmap in Hl as (c'' & [= Hname ->] & Hin).
        rewrite (NoDup_fmap_elem name (classes g) c c''); done.
      + by rewrite <-list_fmap_compose.
    - intros Hall n Hn.
      destruct (writeClasses_step g n Hn) as (c & Hl & ->).
      apply Hall. apply lastNamed_Some in Hl as (_ & l1 & l2 & -> & _).
      rewrite elem_of_app, elem_of_cons. auto. }
  assert (res (writeAll g) = Ok tt ↔
          version g ≠ "" ∧
          ∀ c, c ∈ classes g → res (writeClass c) = Ok tt) as Hiff.
  { rewrite <-Hcls, <-writeHeader_res.
    unfold SchemaGenerator_write. rewrite res_bind.
    destruct (res (writeHeader g)) as [[]|]; res_binds;
      [|by split; [|intros []]].
    destruct (res (writeClasses_ g)) as [[]|]; [|by split; [|intros []]].
    by rewrite writePostMethods_Ok. }
  split; [done|].
  intros [Hv Hall]%Hiff.
  destruct (write_out textwrap_fill textwrap_wrap json_strip_docs g)
    as [Hok _]; [by apply writeHeader_Ok|].
  destruct Hok as [-> _]; [by apply Hcls|].
  by rewrite writePostMethods_out.
Qed.
End WriteAll.

(** ** Reading the classes *)

Section ReadClasses.
Variable avro_schema_parse : string → result Schema.

Local Abbreviation readClass :=
  (λ f : string * string, SchemaClass_init avro_schema_parse f.1 f.2).

Lemma SchemaClass_init_Ok (sourceFile' source : string) (c : SchemaClass) :
  SchemaClass_init avro_schema_parse sourceFile' source = Ok c ↔
  avro_schema_parse source = Ok (schema c) ∧
  schema_name (schema c) = Ok (name c) ∧
  sourceFile c = sourceFile' ∧ schemaSource c = source.
Proof.
  unfold SchemaClass_init.
  destruct (avro_schema_parse source) as [s|e]; simpl.
  - destruct (schema_name s) as [n|e] eqn:Hn; simpl.
    + split.
      * by intros [= <-].
      * intros ([= ->] & Hn' & <- & <-). destruct c. simpl in *.
        by rewrite Hn in Hn'; injection Hn' as ->.
    + split; [done|]. intros ([= ->] & ? & _). congruence.
  - split; [done|]. by intros [? _].
Qed.

Lemma appendClass_Ok (acc cs : list SchemaClass)
    (files : list (string * string)) :
  rfold (appendClass avro_schema_parse) acc files = Ok cs ↔
  ∃ new, cs = acc ++ new ∧ Forall2 (λ f c, readClass f = Ok c) files new.
Proof.
  revert acc. induction files as [|f files IH]; intros acc.
  - simpl. split.
    + intros [= <-]. exists []. by rewrite app_nil_r.
    + intros (new & -> & ->%Forall2_nil_inv_l). by rewrite app_nil_r.
  - rewrite rfold_cons. unfold appendClass at 1.
    destruct (SchemaClass_init avro_schema_parse f.1 f.2) as [c|e] eqn:Hf;
      simpl.
    + rewrite IH. split.
      * intros (new & -> & Hall). exists (c :: new).
        rewrite <-app_assoc. split; [done|]. by constructor.
      * intros (new & -> & Hall).
        apply Forall2_cons_inv_l in Hall as (c' & new' & Hc & Hall & ->).
        rewrite Hf in Hc. injection Hc as <-.
        exists new'. by rewrite <-app_assoc.
    + split; [done|]. intros (new & _ & Hall).
      apply Forall2_cons_inv_l in Hall as (c' & new' & Hc & _).
      rewrite Hf in Hc. done.
Qed.

Lemma appendClass_Raise (acc : list SchemaClass)
    (files : list (string * string)) (e : exn) :
  rfold (appendClass avro_schema_parse) acc files = Raise e ↔
  ∃ pre f post,
    files = pre ++ f :: post ∧
    Forall (λ f, is_ok (readClass f) = true) pre ∧
    readClass f = Raise e.
Proof.
  revert acc. induction files as [|f files IH]; intros acc.
  - simpl. split; [done|]. intros (pre & f & post & Heq & _).
    by destruct pre.
  - rewrite rfold_cons. unfold appendClass at 1.
    destruct (SchemaClass_init avro_schema_parse f.1 f.2) as [c|e'] eqn:Hf;
      simpl.
    + rewrite IH. split.
      * intros (pre & g & post & -> & Hpre & Hg).
        exists (f :: pre), g, post. split_and!; [done| |done].
        constructor; [by rewrite Hf|done].
      * intros (pre & g & post & Heq & Hpre & Hg).
        destruct pre as [|f' pre]; simpl in Heq; injection Heq as <- ->.
        { rewrite Hf in Hg. done. }
        apply Forall_cons in Hpre as [_ Hpre]. by exists pre, g, post.
    + split.
      * intros [= <-]. exists [], f, files. by split_and!.
      * intros (pre & g & post & Heq & Hpre & Hg).
        destruct pre as [|f' pre]; simpl in Heq; injection Heq as <- ->.
        { rewrite Hf in Hg. by injection Hg as ->. }
        apply Forall_cons in Hpre as [Hf' _]. by rewrite Hf in Hf'.
Qed.

(** X12: [SchemaGenerator.__init__] returns exactly when every listed file
    parses to a schema that has a name.  The classes are then those of the
    files, one for one and in the order of the listing, each with the name
    of its schema, and the table is that of these classes.  Otherwise the
    exception is that of the first file in the listing that fails, and no
    later file decides anything. *)
Theorem init_reads_classes_in_order (ver dir path : string) (verb : nat)
    (avscFiles : list (string * string)) :
  (∀ g, SchemaGenerator_init avro_schema_parse ver dir path verb avscFiles
        = Ok g ↔
        Forall2 (λ f c, readClass f = Ok c) avscFiles (classes g) ∧
        makePostSignatures (classes g) = Ok (postSignatures g) ∧
        version g = ver ∧ schemaDir g = dir ∧ outputFile g = path ∧
        verbosity g = verb) ∧
  (∀ g c, SchemaGenerator_init avro_schema_parse ver dir path verb avscFiles
          = Ok g → c ∈ classes g →
          schema_name (schema c) = Ok (name c)) ∧
  (∀ e, SchemaGenerator_init avro_schema_parse ver dir path verb avscFiles
        = Raise e ↔
        ∃ pre f post,
          avscFiles = pre ++ f :: post ∧
          Forall (λ f, is_ok (readClass f) = true) pre ∧
          readClass f = Raise e).
Proof.
  assert (∀ g, SchemaGenerator_init avro_schema_parse ver dir path verb
                 avscFiles = Ok g ↔
               Forall2 (λ f c, readClass f = Ok c) avscFiles (classes g) ∧
               makePostSignatures (classes g) = Ok (postSignatures g) ∧
               version g = ver ∧ schemaDir g = dir ∧ outputFile g = path ∧
               verbosity g = verb) as Hok.
  { intros g. unfold SchemaGenerator_init.
    destruct (rfold _ _ _) as [cs|e] eqn:Hcs; simpl.
    - apply appendClass_Ok in Hcs as (new & -> & Hall). simpl in *.
      destruct (makePostSignatures new) as [tbl|e] eqn:Htbl; simpl.
      + split.
        * by intros [= <-].
        * intros (Hall' & Htbl' & <- & <- & <- & <-). destruct g. simpl in *.
          assert (classes0 = new) as ->.
          { clear Htbl Htbl'. revert classes0 Hall'.
            induction Hall as [|f c fs cs Hc Hall IH]; intros cs' Hall'.
            - by apply Forall2_nil_inv_l in Hall'.
            - apply Forall2_cons_inv_l in Hall'
                as (c' & cs'' & Hc' & Hall' & ->).
              rewrite Hc in Hc'. injection Hc' as <-. f_equal. by apply IH. }
          rewrite Htbl in Htbl'. by injection Htbl' as ->.
      + pose proof (makePostSignatures_Ok new) as Hp.
        by rewrite Htbl in Hp.
    - split; [done|]. intros (Hall & _).
      assert (rfold (appendClass avro_schema_parse) [] avscFiles
              = Ok ([] ++ classes g)) as Hcs'.
      { apply appendClass_Ok. by exists (classes g). }
      congruence. }
  split_and!; [done| |].
  - intros g c (Hall & _)%Hok Hc.
    apply list_elem_of_lookup in Hc as [i Hi].
    destruct (Forall2_lookup_r _ _ _ _ _ Hall Hi) as (f & _ & Hf).
    by apply SchemaClass_init_Ok in Hf as (_ & ? & _).
  - intros e. rewrite <-(appendClass_Raise []).
    unfold SchemaGenerator_init.
    destruct (rfold _ _ _) as [cs|e'] eqn:Hcs; simpl;
      [|by split; intros [= ->]].
    pose proof (makePostSignatures_Ok cs) as Hp.
    destruct (makePostSignatures cs); [|done]. simpl.
    split; intros [=].
Qed.
End ReadClasses.

(** ** The header *)

Lemma repeat_str_snoc (s : string) (n : nat) :
  Py.repeat_str s n +:+ s = s +:+ Py.repeat_str s n.
Proof.
  induction n as [|n IH]; simpl.
  - by rewrite append_nil_r.
  - by rewrite append_assoc, IH.
Qed.

(** X13: [_writeNewline] prints as many newlines as it is asked for, and
    one newline when it is asked for none: the count that it multiplies
    by is the number less one, and [print] adds the last newline itself. *)
Theorem writeNewline_count (numNewlines : nat) :
  out (_writeNewline numNewlines) =
    Py.repeat_str Py.newline (max 1 numNewlines) ∧
  res (_writeNewline numNewlines) = Ok tt.
Proof.
  split; [|done]. unfold _writeNewline, print. simpl.
  destruct numNewlines as [|n]; [done|].
  rewrite Nat.sub_succ, Nat.sub_0_r.
  change (max 1 (S n)) with (S n).
  by rewrite repeat_str_snoc.
Qed.

Lemma contains_char_cons (c d : ascii) (s : string) :
  Py.contains_char c (String d s) =
  if Ascii.eqb c d then true else Py.contains_char c s.
Proof. done. Qed.

(** X14: a leading [v], small or capital, in front of a version that has
    a dot is left out of the header: such a version and the version
    without the letter give the same header, as long as what follows the
    letter does not itself start with a [v].  A version without a dot is
    printed as it is, with its letter. *)
Theorem header_drops_leading_v (g g' : SchemaGenerator) (c : ascii) :
  version g' = String c (version g) →
  Py.lower_char c = "v"%char →
  (Py.contains_char "." (version g) = true →
   (∀ d rest, version g = String d rest → Py.lower_char d ≠ "v"%char) →
   writeHeader g' = writeHeader g) ∧
  (Py.contains_char "." (version g) = false →
   ∃ text, out (writeHeader g') =
             text +:+ ("version = '" +:+ String c (version g) +:+ "'")
                  +:+ Py.newline).
Proof.
  intros Hg' Hc. unfold writeHeader. rewrite Hg'. split.
  - intros Hdot Hv. rewrite Hc.
    assert ("."%char ≠ c) as Hcd.
    { intros <-. by vm_compute in Hc. }
    rewrite contains_char_cons, (proj2 (Ascii.eqb_neq _ _)) by done.
    rewrite Hdot. rewrite bool_decide_eq_true_2 by done. simpl andb.
    destruct (version g) as [|d rest] eqn:Hver; [done|].
    rewrite bool_decide_eq_false_2 by by eapply Hv. done.
  - intros Hdot. rewrite Hc.
    assert ("."%char ≠ c) as Hcd.
    { intros <-. by vm_compute in Hc. }
    rewrite contains_char_cons, (proj2 (Ascii.eqb_neq _ _)) by done.
    rewrite Hdot, andb_false_r.
    eexists. unfold mbind, W_bind, lift, print. simpl.
    by rewrite <-!append_assoc.
Qed.

(** ** The loop that blanks the documentation *)

Section StripDocsFacts.
Import StripDocs.

Lemma set_doc_idemp (elm : dict) : set_doc (set_doc elm) = set_doc elm.
Proof.
  unfold set_doc. rewrite <-list_fmap_compose. apply list_fmap_ext.
  intros i [k v] _. simpl.
  destruct (decide (k = "doc")) as [Hk|Hk]; simpl.
  - by rewrite decide_True.
  - by rewrite decide_False.
Qed.

Lemma set_doc_keys (elm : dict) : (set_doc elm).*1 = elm.*1.
Proof.
  unfold set_doc. rewrite <-list_fmap_compose. apply list_fmap_ext.
  intros i [k v] _. simpl. by case_decide.
Qed.

Lemma set_doc_no_doc (elm : dict) : has_doc elm = false → set_doc elm = elm.
Proof.
  unfold has_doc, set_doc. intros Hn%bool_decide_eq_false.
  rewrite <-(list_fmap_id elm) at 2. apply list_fmap_ext.
  intros i [k v] Hi. simpl. case_decide as Hk; [|done].
  destruct Hn. simpl in Hk. subst k.
  apply list_elem_of_fmap. exists ("doc", v). split; [done|].
  by eapply list_elem_of_lookup_2.
Qed.

Lemma set_doc_lookup (elm : dict) (i : nat) (k : string) (v : value) :
  elm !! i = Some (k, v) →
  set_doc elm !! i =
    Some (k, if decide (k = "doc") then VString "" else v).
Proof.
  intros Hi. unfold set_doc. rewrite list_lookup_fmap, Hi. simpl.
  by case_decide.
Qed.

Lemma pushed_set_doc (elm : dict) (ref : nat) :
  ref ∈ pushed (set_doc elm) → ref ∈ pushed elm.
Proof.
  unfold pushed, set_doc. rewrite !list_elem_of_bind.
  intros (v & Hv & Hin). exists v. split; [done|].
  apply list_elem_of_fmap in Hin as (kv & -> & Hin).
  apply list_elem_of_fmap in Hin as ([k w] & -> & Hin).
  simpl in *. case_decide; simpl in *.
  - by apply elem_of_nil in Hv.
  - apply list_elem_of_fmap. by exists (k, w).
Qed.

Lemma iteration_step (h : heap) (ref : nat) (rest : list nat) (elm : dict) :
  h !! ref = Some elm →
  iteration h (ref :: rest) =
    Some (<[ref := set_doc elm]> h, rev (pushed (set_doc elm)) ++ rest).
Proof.
  intros Hr. unfold iteration. rewrite Hr. simpl.
  destruct (has_doc elm) eqn:Hd.
  - rewrite list_lookup_insert_eq by by eapply lookup_lt_Some. done.
  - rewrite Hr. simpl. rewrite (set_doc_no_doc elm Hd).
    by rewrite list_insert_id.
Qed.

Lemma iteration_None (h : heap) (ref : nat) (rest : list nat) :
  h !! ref = None → iteration h (ref :: rest) = None.
Proof. intros Hr. unfold iteration. by rewrite Hr. Qed.

Lemma elem_of_rev {A} (l : list A) (x : A) : x ∈ rev l ↔ x ∈ l.
Proof. by rewrite !list_elem_of_In, <-in_rev. Qed.

Lemma loop_cons (fuel : nat) (h : heap) (ref : nat) (rest : list nat) :
  loop (S fuel) h (ref :: rest) =
  match iteration h (ref :: rest) with
  | Some (h', stack') => loop fuel h' stack'
  | None => None
  end.
Proof. done. Qed.

Lemma link_inv (h : heap) (ref x : nat) (elm : dict) :
  h !! ref = Some elm →
  rtc (link h) ref x ↔
  x = ref ∨ ∃ c, c ∈ pushed (set_doc elm) ∧ rtc (link h) c x.
Proof.
  intros Hr. split.
  - intros [->|(c & (elm' & Hr' & Hc) & Hcx)]%rtc_inv; [by left|].
    right. exists c. split; [|done]. congruence.
  - intros [->|(c & Hc & Hcx)]; [done|].
    eapply rtc_l; [|done]. by exists elm.
Qed.

(** What the loop keeps true: the cells that it has popped, [seen], are
    blanked and the others are as they were; what can be reached from the
    root is what was popped and what can be reached from the stack. *)
Lemma loop_invariant (h0 : heap) (root : nat) (fuel : nat) :
  ∀ (h : heap) (stack seen : list nat) (h' : heap),
    length h = length h0 →
    (∀ ref elm, h0 !! ref = Some elm →
       h !! ref =
         Some (if bool_decide (ref ∈ seen) then set_doc elm else elm)) →
    (∀ x, rtc (link h0) root x ↔
          x ∈ seen ∨ ∃ s, s ∈ stack ∧ rtc (link h0) s x) →
    loop fuel h stack = Some h' →
    ∃ visited : list nat,
      (∀ x, rtc (link h0) root x ↔ x ∈ visited) ∧
      length h' = length h0 ∧
      ∀ ref elm, h0 !! ref = Some elm →
        h' !! ref =
          Some (if bool_decide (ref ∈ visited) then set_doc elm else elm).
Proof.
  assert (∀ (h : heap) (seen : list nat) (h' : heap),
            length h = length h0 →
            (∀ ref elm, h0 !! ref = Some elm →
               h !! ref =
                 Some (if bool_decide (ref ∈ seen) then set_doc elm
                       else elm)) →
            (∀ x, rtc (link h0) root x ↔
                  x ∈ seen ∨ ∃ s, s ∈ [] ∧ rtc (link h0) s x) →
            Some h = Some h' →
            ∃ visited : list nat,
              (∀ x, rtc (link h0) root x ↔ x ∈ visited) ∧
              length h' = length h0 ∧
              ∀ ref elm, h0 !! ref = Some elm →
                h' !! ref =
                  Some (if bool_decide (ref ∈ visited) then set_doc elm
                        else elm)) as Hend.
  { intros h seen h' Hlen Hcells Hreach [= <-]. exists seen.
    split_and!; [|done..]. intros x. rewrite Hreach. split; [|by left].
    intros [?|(s & []%elem_of_nil & _)]. done. }
  induction fuel as [|fuel IH]; intros h stack seen h' Hlen Hcells Hreach.
  { destruct stack as [|ref rest]; [|done].
    apply (Hend h seen h' Hlen Hcells Hreach). }
  destruct stack as [|ref rest];
    [apply (Hend h seen h' Hlen Hcells Hreach)|].
  rewrite loop_cons. destruct (h !! ref) as [cur|] eqn:Hcur;
    [|by rewrite iteration_None].
  rewrite (iteration_step h ref rest cur Hcur).
  assert (is_Some (h0 !! ref)) as [elm0 Helm0].
  { apply lookup_lt_is_Some. rewrite <-Hlen. by eapply lookup_lt_Some. }
  assert (set_doc cur = set_doc elm0) as ->.
  { pose proof (Hcells ref elm0 Helm0) as Hc. rewrite Hcur in Hc.
    injection Hc as ->. case_bool_decide; [apply set_doc_idemp|done]. }
  apply (IH _ _ (ref :: seen)).
  - by rewrite length_insert.
  - intros x elm Hx. destruct (decide (x = ref)) as [->|Hne].
    + rewrite list_lookup_insert_eq by by eapply lookup_lt_Some.
      rewrite bool_decide_eq_true_2 by by left. congruence.
    + rewrite list_lookup_insert_ne by done.
      rewrite (Hcells x elm Hx). f_equal.
      case_bool_decide as H1; case_bool_decide as H2; try done.
      * destruct H2. by right.
      * apply elem_of_cons in H2 as [?|?]; done.
  - intros x. rewrite Hreach. split.
    + intros [Hs|(s & [->|Hs]%elem_of_cons & Hsx)].
      * left. by right.
      * apply (link_inv h0 ref x elm0 Helm0) in Hsx
          as [->|(c & Hc & Hcx)]; [left; by left|].
        right. exists c. split; [|done].
        apply elem_of_app. left. by rewrite elem_of_rev.
      * right. exists s. split; [|done]. apply elem_of_app. by right.
    + intros [[->|Hs]%elem_of_cons|(s & [Hs|Hs]%elem_of_app & Hsx)].
      * right. exists ref. split; [by left|done].
      * by left.
      * right. exists ref. split; [by left|].
        apply (link_inv h0 ref x elm0 Helm0). right.
        exists s. split; [|done]. by rewrite elem_of_rev in Hs.
      * right. exists s. split; [by right|done].
Qed.

Lemma loop_visits (h h' : heap) (root fuel : nat) :
  loop fuel h [root] = Some h' →
  ∃ visited : list nat,
    (∀ x, rtc (link h) root x ↔ x ∈ visited) ∧
    length h' = length h ∧
    ∀ ref elm, h !! ref = Some elm →
      h' !! ref =
        Some (if bool_decide (ref ∈ visited) then set_doc elm else elm).
Proof.
  apply (loop_invariant h root fuel h [root] []); [done|..].
  - intros ref elm ->.
    by rewrite bool_decide_eq_false_2 by apply not_elem_of_nil.
  - intros x. split.
    + intros Hx. right. exists root. split; [by left|done].
    + intros [[]%elem_of_nil|(s & ->%list_elem_of_singleton & Hs)]. done.
Qed.

(** ** Enough turns *)

Lemma cost_pos (h : heap) (depth ref : nat) : (1 ≤ cost h depth ref)%nat.
Proof. destruct depth; simpl; [lia|]. destruct (h !! ref); lia. Qed.

Lemma cost_insert (h : heap) (ref : nat) (elm : dict) (depth x : nat) :
  h !! ref = Some elm →
  cost (<[ref := set_doc elm]> h) depth x = cost h depth x.
Proof.
  intros Hr. revert x. induction depth as [|depth IH]; intros x; [done|].
  simpl. destruct (decide (x = ref)) as [->|Hne].
  - rewrite list_lookup_insert_eq by by eapply lookup_lt_Some.
    rewrite Hr, set_doc_idemp. f_equal.
    induction (pushed (set_doc elm)) as [|c l IHl]; [done|].
    simpl. by rewrite IH, IHl.
  - rewrite list_lookup_insert_ne by done.
    destruct (h !! x) as [d|]; [|done]. f_equal.
    induction (pushed (set_doc d)) as [|c l IHl]; [done|].
    simpl. by rewrite IH, IHl.
Qed.

Lemma forward_insert (h : heap) (ref : nat) (elm : dict) :
  forward h → h !! ref = Some elm → forward (<[ref := set_doc elm]> h).
Proof.
  intros Hf Hr x d c Hx Hc. rewrite length_insert.
  destruct (decide (x = ref)) as [->|Hne].
  - rewrite list_lookup_insert_eq in Hx by by eapply lookup_lt_Some.
    injection Hx as <-. apply (Hf ref elm c Hr). by apply pushed_set_doc.
  - rewrite list_lookup_insert_ne in Hx by done. by apply (Hf x d c).
Qed.

Lemma sum_list_with_ext_in {A} (f g : A → nat) (l : list A) :
  (∀ x, x ∈ l → f x = g x) → sum_list_with f l = sum_list_with g l.
Proof.
  induction l as [|x l IH]; intros Hfg; [done|]. simpl.
  rewrite (Hfg x) by by left. rewrite IH; [done|].
  intros y Hy. apply Hfg. by right.
Qed.

Lemma cost_stable (h : heap) (depth ref : nat) :
  forward h → (length h - ref ≤ depth)%nat →
  cost h (S depth) ref = cost h depth ref.
Proof.
  intros Hf. revert ref. induction depth as [|depth IH]; intros ref Hd.
  - simpl. rewrite lookup_ge_None_2 by lia. done.
  - change (cost h (S (S depth)) ref) with
      (match h !! ref with
       | Some elm =>
           S (sum_list_with (cost h (S depth)) (pushed (set_doc elm)))
       | None => 1
       end).
    change (cost h (S depth) ref) with
      (match h !! ref with
       | Some elm => S (sum_list_with (cost h depth) (pushed (set_doc elm)))
       | None => 1
       end).
    destruct (h !! ref) as [elm|] eqn:Hr; [|done]. f_equal.
    apply sum_list_with_ext_in. intros c Hc. apply IH.
    pose proof (Hf ref elm c Hr (pushed_set_doc _ _ Hc)). lia.
Qed.

Lemma loop_terminates (m : nat) :
  ∀ (h : heap) (stack : list nat),
    forward h →
    Forall (λ s, s < length h) stack →
    (sum_list_with (cost h (length h)) stack ≤ m)%nat →
    is_Some (loop m h stack).
Proof.
  induction m as [|m IH]; intros h stack Hf Hstack Hm.
  - destruct stack as [|ref rest]; [by eexists|].
    simpl in Hm. pose proof (cost_pos h (length h) ref). lia.
  - destruct stack as [|ref rest]; [by eexists|].
    apply Forall_cons in Hstack as [Href Hrest].
    destruct (lookup_lt_is_Some_2 h ref Href) as [elm Hr].
    rewrite loop_cons, (iteration_step h ref rest elm Hr).
    apply IH.
    + by apply forward_insert.
    + rewrite length_insert. apply Forall_app. split; [|done].
      apply Forall_forall. intros c Hc. rewrite elem_of_rev in Hc.
      by apply (Hf ref elm c Hr), pushed_set_doc.
    + rewrite length_insert, sum_list_with_app.
      rewrite (sum_list_with_ext_in _ (cost h (length h)))
        by (intros; by apply cost_insert).
      rewrite (sum_list_with_ext_in _ (cost h (length h)) rest)
        by (intros; by apply cost_insert).
      rewrite <-(Permutation_rev (pushed (set_doc elm))).
      simpl in Hm.
      destruct (length h) as [|n] eqn:Hn; [lia|].
      rewrite <-Hn in *.
      assert (cost h (length h) ref =
              S (sum_list_with (cost h (length h)) (pushed (set_doc elm))))
        as Hcost.
      { rewrite Hn at 1. simpl. rewrite Hr. f_equal.
        apply sum_list_with_ext_in. intros c Hc. rewrite Hn.
        symmetry. apply cost_stable; [done|].
        pose proof (Hf ref elm c Hr (pushed_set_doc _ _ Hc)). lia. }
      lia.
Qed.

(** ** Blanking twice *)


Lemma enumerate_lookup {A} (l : list A) (i : nat) (x : A) :
  l !! i = Some x → (i, x) ∈ enumerate l.
Proof.
  intros Hi. unfold enumerate. apply list_elem_of_lookup. exists i.
  apply lookup_zip_with_Some. exists i, x. split_and!; [done| |done].
  apply lookup_seq. split; [done|]. by eapply lookup_lt_Some.
Qed.

Lemma forwardb_forward (h : heap) : forwardb h = true → forward h.
Proof.
  unfold forwardb. rewrite forallb_forall. intros Hall ref elm ref' Hr Hc.
  specialize (Hall (ref, elm)). simpl in Hall.
  rewrite forallb_forall in Hall.
  assert ((ref <? ref')%nat && (ref' <? length h)%nat = true) as Hb.
  { apply Hall; [|by apply list_elem_of_In].
    by apply list_elem_of_In, enumerate_lookup. }
  apply andb_true_iff in Hb as [H1%Nat.ltb_lt H2%Nat.ltb_lt]. lia.
Qed.

(** X15: when the loop ends, the heap has the same dictionaries with the
    same keys in the same places, and no entry other than [doc] has
    changed.  In every dictionary that can be reached from the root, going
    from a dictionary to the dictionaries that are values of its entries
    other than [doc] or items of lists that are such values, the value
    of [doc] is the empty text.  Every other dictionary is as it was: the
    loop does not look into a list inside a list, nor into what [doc]
    held. *)
Theorem strip_loop_blanks_reached (h h' : heap) (root fuel : nat) :
  loop fuel h [root] = Some h' →
  length h' = length h ∧
  ∀ ref elm, h !! ref = Some elm →
    ∃ elm',
      h' !! ref = Some elm' ∧
      elm'.*1 = elm.*1 ∧
      (∀ i k v, elm !! i = Some (k, v) → k ≠ "doc" →
                elm' !! i = Some (k, v)) ∧
      (rtc (link h) root ref →
       ∀ i k v, elm' !! i = Some (k, v) → k = "doc" → v = VString "") ∧
      (¬ rtc (link h) root ref → elm' = elm).
Proof.
  intros (visited & Hreach & Hlen & Hcells)%loop_visits.
  split; [done|]. intros ref elm Hr.
  rewrite (Hcells ref elm Hr). eexists. split; [done|].
  rewrite Hreach. case_bool_decide as Hv; split_and!; try done.
  - apply set_doc_keys.
  - intros i k v Hi Hk. rewrite (set_doc_lookup elm i k v Hi).
    by rewrite decide_False.
  - intros _ i k v Hi ->.
    assert (is_Some (elm !! i)) as [[k' v'] Hi'].
    { apply lookup_lt_is_Some.
      rewrite <-(length_fmap (λ kv, if decide (kv.1 = "doc")
                                    then (kv.1, VString "") else kv)).
      by eapply lookup_lt_Some. }
    rewrite (set_doc_lookup elm i k' v' Hi') in Hi.
    injection Hi as -> <-. by rewrite decide_True.
Qed.

(** X16: on a heap whose references go forward the loop ends, within the
    number of turns that [cost] counts for the root, and with any number
    of turns beyond it.  From a root that is no cell of the heap it has
    nothing to pop and gives no heap. *)
Theorem strip_loop_ends (h : heap) (root : nat) :
  forward h →
  (root < length h →
   ∀ fuel, (cost h (length h) root ≤ fuel)%nat →
           is_Some (loop fuel h [root])) ∧
  (length h ≤ root → ∀ fuel, loop fuel h [root] = None)%nat.
Proof.
  intros Hf. split.
  - intros Hroot fuel Hfuel. apply loop_terminates; [done| |simpl; lia].
    by apply Forall_singleton.
  - intros Hroot [|fuel]; [done|].
    rewrite loop_cons, iteration_None; [done|].
    by apply lookup_ge_None_2.
Qed.

End StripDocsFacts.

(** ** The processor *)

Section ProcessorFacts.
Import Processor.
Variable os_path_join : string → string → string.
Variable w : world.

Lemma exec_bind {A B} (p : prog A) (k : A → prog B) (past : list call) :
  exec w past (p ≫= k)
  = match exec w past p with
    | (t, Ok a) => exec w t (k a)
    | (t, Raise e) => (t, Raise e)
    end.
Proof.
  revert past. induction p as [a|e|c k' IH]; intros past; try reflexivity.
  apply IH.
Qed.

Lemma exec_do (c : call) (past : list call) :
  exec w past (do c) = (past ++ [c], w past c).
Proof. simpl. by destruct (w past c). Qed.

Lemma exec_when (b : bool) (p : prog unit) (past : list call) :
  exec w past (when b p) = if b then exec w past p else (past, Ok tt).
Proof. by destruct b. Qed.

Lemma exec_try_finally {A} (body : prog A) (final : prog unit)
    (past : list call) :
  exec w past (try_finally body final)
  = match exec w (exec w past body).1 final with
    | (t, Ok _) => (t, (exec w past body).2)
    | (t, Raise e) => (t, Raise e)
    end.
Proof.
  revert past. induction body as [a|e|c k IH]; intros past; simpl.
  - rewrite exec_bind. by destruct (exec w past final) as [t [[]|e]].
  - rewrite exec_bind. by destruct (exec w past final) as [t [[]|e']].
  - apply IH.
Qed.

Lemma uses_exec {A} (P : call → Prop) (p : prog A) (past : list call) :
  uses P p → ∃ evs, (exec w past p).1 = past ++ evs ∧ Forall P evs.
Proof.
  intros Hp. revert past.
  induction Hp as [a|e|c k Hc _ IH]; intros past; simpl.
  - exists []. by rewrite app_nil_r.
  - exists []. by rewrite app_nil_r.
  - destruct (IH (w past c) (past ++ [c])) as (evs & -> & Hevs).
    exists (c :: evs). split; [by rewrite <-app_assoc|by constructor].
Qed.

Lemma uses_bind {A B} (P : call → Prop) (p : prog A) (k : A → prog B) :
  uses P p → (∀ a, uses P (k a)) → uses P (p ≫= k).
Proof.
  intros Hp Hk. induction Hp as [a|e|c k' Hc _ IH].
  - apply Hk.
  - constructor.
  - by constructor.
Qed.

Lemma uses_do (P : call → Prop) (c : call) : P c → uses P (do c).
Proof.
  intros Hc. constructor; [done|]. intros [a|e]; constructor.
Qed.

Lemma uses_when (P : call → Prop) (b : bool) (p : prog unit) :
  uses P p → uses P (when b p).
Proof. destruct b; [done|constructor]. Qed.

Lemma uses_try_finally {A} (P : call → Prop) (body : prog A)
    (final : prog unit) :
  uses P body → uses P final → uses P (try_finally body final).
Proof.
  intros Hb Hf. induction Hb as [a|e|c k Hc _ IH]; simpl.
  - apply uses_bind; [done|constructor].
  - apply uses_bind; [done|constructor].
  - by constructor.
Qed.

Lemma uses_for_in {B} (P : call → Prop) (l : list B)
    (body : B → prog unit) :
  (∀ x, uses P (body x)) → uses P (for_in l body).
Proof.
  intros Hb. induction l as [|x l IH]; simpl; [constructor|].
  by apply uses_bind.
Qed.

Ltac exec_do :=
  match goal with
  | |- context [@exec ?A w ?past (do ?c)] =>
      change (@exec A w past (do c)) with (@exec (answer c) w past (do c));
      rewrite (exec_do c past)
  end.

Ltac exec_steps :=
  repeat (first
    [ rewrite exec_bind
    | rewrite exec_when
    | exec_do
    | match goal with
      | |- context [match w ?past ?c with _ => _ end] =>
          destruct (w past c) as [[]|?]
      end ];
    cbv beta iota).

Ltac uses_steps :=
  repeat first
    [ apply uses_bind; [|intros ?]
    | match goal with |- uses _ (do ?c) => apply (uses_do _ c) end
    | apply uses_when
    | apply uses_try_finally
    | apply uses_for_in; intros ?
    | apply uses_Return
    | apply uses_Throw ].

Lemma fetch_uses (P : call → Prop) (self : SchemaProcessor) :
  (∀ c, is_setup c = true →
        (is_remote c = true → sourceDir self = None) → P c) →
  uses P (match sourceDir self with
          | None => getSchemaFromGitHub self
          | Some _ => getSchemaFromLocal os_path_join self
          end).
Proof.
  intros HP. unfold getSchemaFromGitHub, getSchemaFromLocal, download.
  destruct (sourceDir self) as [dir|]; uses_steps; by apply HP.
Qed.

Lemma setupAvroJar_uses (P : call → Prop) (self : SchemaProcessor) :
  (∀ c, is_setup c = true →
        (is_remote c = true → avroJarPath self = None) → P c) →
  uses P (setupAvroJar self).
Proof.
  intros HP. unfold setupAvroJar, download.
  destruct (avroJarPath self); uses_steps; by apply HP.
Qed.

Lemma run_uses (P : call → Prop) (self : SchemaProcessor) :
  (∀ c, (∀ path, c ≠ shutil_rmtree path) →
        (∀ prefix, c ≠ tempfile_mkdtemp prefix) →
        (is_remote c = true →
         sourceDir self = None ∨ avroJarPath self = None) →
        P c) →
  uses P (run os_path_join self).
Proof.
  intros HP.
  assert (∀ c, is_setup c = false → is_remote c = false →
               (∀ path, c ≠ shutil_rmtree path) →
               (∀ prefix, c ≠ tempfile_mkdtemp prefix) → P c) as HP'.
  { intros c _ Hr ??. apply HP; [done..|]. by rewrite Hr. }
  unfold run. uses_steps;
    try (destruct (1 <? verbosity _)%nat; uses_steps);
    try by apply HP'.
  - apply fetch_uses. intros c Hc Hr.
    apply HP; [intros ? ->; discriminate Hc|intros ? ->; discriminate Hc|].
    intros H. left. by apply Hr.
  - apply setupAvroJar_uses. intros c Hc Hr.
    apply HP; [intros ? ->; discriminate Hc|intros ? ->; discriminate Hc|].
    intros H. right. by apply Hr.
Qed.

Lemma cleanup_exec (self : SchemaProcessor) (past : list call) :
  exec w past (cleanup self)
  = if (1 <? verbosity self)%nat
    then match w past (utils_log ("Cleaning up tmp dir " +:+ tmpDir self))
         with
         | Ok _ =>
             (past ++ [utils_log ("Cleaning up tmp dir " +:+ tmpDir self);
                       shutil_rmtree (tmpDir self)],
              w (past ++ [utils_log ("Cleaning up tmp dir " +:+ tmpDir self)])
                (shutil_rmtree (tmpDir self)))
         | Raise e =>
             (past ++ [utils_log ("Cleaning up tmp dir " +:+ tmpDir self)],
              Raise e)
         end
    else (past ++ [shutil_rmtree (tmpDir self)],
          w past (shutil_rmtree (tmpDir self))).
Proof.
  unfold cleanup. rewrite exec_bind, exec_when.
  destruct (1 <? verbosity self)%nat.
  - exec_do. destruct (w past _) as [[]|e]; [|done].
    exec_do. by rewrite <-app_assoc.
  - by exec_do.
Qed.

Lemma lookup_only_last (P : call → Prop) (pre : list call) (c d : call)
    (i : nat) :
  Forall P pre → ¬ P d → (pre ++ [c]) !! i = Some d →
  d = c ∧ S i = length (pre ++ [c]).
Proof.
  intros Hpre Hd [Hi|[Hlen Hi]]%lookup_app_Some.
  - destruct Hd. by eapply (Forall_lookup_1 P pre).
  - apply list_lookup_singleton_Some in Hi as [Hi ->].
    split; [done|]. rewrite length_app. simpl. lia.
Qed.

(** X18: when the temporary directory was made, its removal is the last
    call of [main] on every path on which the announcement of the removal
    does not itself fail, whatever [run] did or raised: with a verbosity of
    at most 1 always, and whenever [main] returns.  Nothing is removed
    before, and nothing else is removed.  When [mkdtemp] raises, no other
    call is made. *)
Theorem cleanup_is_last_call (args : Args.t) :
  let t := trace w (main os_path_join args) in
  let r := outcome w (main os_path_join args) in
  (∀ e, w [] (tempfile_mkdtemp "ga4gh_") = Raise e →
        t = [tempfile_mkdtemp "ga4gh_"] ∧ r = Raise e) ∧
  (∀ tmp, w [] (tempfile_mkdtemp "ga4gh_") = Ok tmp →
     (∀ i path, t !! i = Some (shutil_rmtree path) →
                path = tmp ∧ S i = length t) ∧
     ((Args.verbose args ≤ 1)%nat ∨ r = Ok tt →
      last t = Some (shutil_rmtree tmp)) ∧
     (last t = Some (shutil_rmtree tmp) ∨
      last t = Some (utils_log ("Cleaning up tmp dir " +:+ tmp)) ∧
      ∃ e, r = Raise e)).
Proof.
  cbv zeta. unfold trace, outcome, main, init. rewrite !exec_bind.
  exec_do. split.
  - by intros e ->.
  - intros tmp ->. cbn [exec].
    set (self := mkSchemaProcessor _ _ _ _ _ _ _ _ _ _).
    rewrite exec_try_finally.
    destruct (uses_exec (λ c, ∀ path, c ≠ shutil_rmtree path)
                (run os_path_join self) ([] ++ [tempfile_mkdtemp "ga4gh_"]))
      as (body & Hbody & Hnone).
    { apply run_uses. auto. }
    destruct (exec w _ (run os_path_join self)) as [t0 r0].
    cbn [fst snd app] in *. subst t0.
    set (pre := tempfile_mkdtemp "ga4gh_" :: body).
    assert (Forall (λ c, ∀ path, c ≠ shutil_rmtree path) pre) as Hpre.
    { by constructor. }
    rewrite cleanup_exec.
    change (verbosity self) with (Args.verbose args).
    change (tmpDir self) with tmp.
    destruct (Nat.ltb_spec 1 (Args.verbose args)) as [Hv|Hv].
    + destruct (w pre (utils_log ("Cleaning up tmp dir " +:+ tmp)))
        as [[]|e] eqn:Hlog.
      * assert (pre ++ [utils_log ("Cleaning up tmp dir " +:+ tmp);
                        shutil_rmtree tmp]
                = (pre ++ [utils_log ("Cleaning up tmp dir " +:+ tmp)])
                  ++ [shutil_rmtree tmp]) as ->
          by (by rewrite <-app_assoc).
        assert (Forall (λ c, ∀ path, c ≠ shutil_rmtree path)
                  (pre ++ [utils_log ("Cleaning up tmp dir " +:+ tmp)]))
          as Hpre'.
        { apply Forall_app. split; [done|]. by repeat constructor. }
        destruct (w _ (shutil_rmtree tmp)) as [[]|e];
          cbn [fst snd]; rewrite last_snoc;
          (split_and!; [|done|by left]);
          intros i path Hi;
          (apply (lookup_only_last _ _ _ _ _ Hpre') in Hi as [Heq Hlen];
            [by injection Heq as ->|intros Hp; by apply (Hp path)]).
      * cbn [fst snd]. rewrite last_snoc. split_and!.
        -- intros i path Hi.
           assert (Forall (λ c, ∀ path, c ≠ shutil_rmtree path)
                     (pre ++ [utils_log ("Cleaning up tmp dir " +:+ tmp)]))
             as Hpre'.
           { apply Forall_app. split; [done|]. by repeat constructor. }
           destruct (Forall_lookup_1 _ _ _ _ Hpre' Hi path). done.
        -- intros [?|?]; [lia|done].
        -- right. eauto.
    + destruct (w pre (shutil_rmtree tmp)) as [[]|e];
        cbn [fst snd]; rewrite last_snoc;
        (split_and!; [|done|by left]);
        intros i path Hi;
        (apply (lookup_only_last _ _ _ _ _ Hpre) in Hi as [Heq Hlen];
          [by injection Heq as ->|intros Hp; by apply (Hp path)]).
Qed.

Lemma exec_prefix {A} (p : prog A) (past : list call) :
  past `prefix_of` (exec w past p).1.
Proof.
  revert past. induction p as [a|e|c k IH]; intros past; simpl; [done..|].
  etrans; [|apply IH]. by apply prefix_app_r.
Qed.

Lemma exec_bind_prefix {A B} (p : prog A) (k : A → prog B)
    (past : list call) :
  (exec w past p).1 `prefix_of` (exec w past (p ≫= k)).1.
Proof.
  rewrite exec_bind. destruct (exec w past p) as [t [a|e]]; [|done].
  apply exec_prefix.
Qed.

Lemma exec_try_finally_prefix {A} (body : prog A) (final : prog unit)
    (past : list call) :
  (exec w past body).1 `prefix_of` (exec w past (try_finally body final)).1.
Proof.
  rewrite exec_try_finally.
  pose proof (exec_prefix final (exec w past body).1) as Hp.
  by destruct (exec w (exec w past body).1 final) as [t [[]|e]].
Qed.

Lemma main_uses (P : call → Prop) (args : Args.t) :
  (∀ c, (is_remote c = true →
         Args.inputSchemasDirectory args = None ∨
         Args.avro_tools_jar args = None) → P c) →
  uses P (main os_path_join args).
Proof.
  intros HP. unfold main, init.
  refine (uses_Ask P (tempfile_mkdtemp "ga4gh_") _ _ _); [by apply HP|].
  intros [tmp|e]; [|constructor].
  apply uses_try_finally.
  - apply run_uses. intros c _ _ Hc. by apply HP.
  - unfold cleanup. uses_steps; by apply HP.
Qed.

(** X19: with both [-j] and [-i], [main] downloads nothing and opens no
    tarball, whatever the calls answer.  Without [-i], the first call after
    [mkdtemp] is the download of the tarball of the version as it was
    given, with its first character, to [schemas.tar.gz] in the temporary
    directory. *)
Theorem local_run_is_offline (args : Args.t) :
  let t := trace w (main os_path_join args) in
  (∀ jar dir, Args.avro_tools_jar args = Some jar →
              Args.inputSchemasDirectory args = Some dir →
              Forall (λ c, is_remote c = false) t) ∧
  (∀ tmp, Args.inputSchemasDirectory args = None →
          w [] (tempfile_mkdtemp "ga4gh_") = Ok tmp →
          t !! 1 = Some (utils_download
                           ("https://github.com/ga4gh/schemas/archive/"
                            +:+ Args.version args +:+ ".tar.gz")
                           (os_path_join tmp "schemas.tar.gz"))).
Proof.
  cbv zeta. split.
  - intros jar dir Hjar Hdir.
    destruct (uses_exec (λ c, is_remote c = false)
                (main os_path_join args) []) as (evs & Ht & Hevs).
    + apply main_uses. intros c Hc. destruct (is_remote c); [|done].
      destruct Hc as [Hc|Hc]; [done|congruence|congruence].
    + unfold trace. by rewrite Ht.
  - intros tmp Hdir Htmp. unfold trace, main, init.
    rewrite !exec_bind. exec_do. rewrite Htmp. cbn [exec].
    set (self := mkSchemaProcessor _ _ _ _ _ _ _ _ _ _).
    eapply prefix_lookup_Some; [|apply exec_try_finally_prefix].
    unfold run. change (sourceDir self) with (Args.inputSchemasDirectory args).
    rewrite Hdir.
    eapply prefix_lookup_Some; [|apply exec_bind_prefix].
    unfold getSchemaFromGitHub, download.
    eapply prefix_lookup_Some; [|apply exec_bind_prefix].
    by exec_do.
Qed.

Lemma with_avroJar_same (self : SchemaProcessor) :
  with_avroJar self (avroJar self) = self.
Proof. by destruct self. Qed.

Lemma setupAvroJar_exec (self : SchemaProcessor) (past : list call) :
  ∃ c, is_setup c = true ∧
       (exec w past (setupAvroJar self)).1 = past ++ [c] ∧
       ((∃ e, (exec w past (setupAvroJar self)).2 = Raise e) ∨
        ∃ jar, (exec w past (setupAvroJar self)).2
               = Ok (with_avroJar self jar) ∧
               match avroJarPath self with
               | None => jar = avroJar self
               | Some path => w past (os_path_abspath path) = Ok jar
               end).
Proof.
  unfold setupAvroJar, download. destruct (avroJarPath self) as [path|].
  - exists (os_path_abspath path). rewrite exec_bind. exec_do.
    split; [done|].
    destruct (w past (os_path_abspath path)) as [jar|e]; simpl; eauto.
  - rewrite exec_bind. exec_do.
    match goal with |- context [w past ?c] => exists c end.
    split; [done|].
    destruct (w past (utils_download _ _)) as [[]|e]; simpl; [|eauto].
    split; [done|]. right. exists (avroJar self).
    by rewrite with_avroJar_same.
Qed.

Lemma commands_app (t1 t2 : list call) :
  commands (t1 ++ t2) = commands t1 ++ commands t2.
Proof. apply omap_app. Qed.

Lemma convertAvro_exec (self : SchemaProcessor) (avdlFile : string)
    (past : list call) :
  ∃ evs, (exec w past (convertAvro self avdlFile)).1 = past ++ evs ∧
         evs ≠ [] ∧
         Forall (λ c, is_conversion c = true) evs ∧
         match (exec w past (convertAvro self avdlFile)).2 with
         | Ok _ => commands evs
                   = [command (avroJar self) (verbosity self) avdlFile]
         | Raise _ => commands evs = [] ∨
                      commands evs
                      = [command (avroJar self) (verbosity self) avdlFile]
         end.
Proof.
  unfold convertAvro, command.
  destruct (verbosity self) as [|[|v]]; cbn [Nat.ltb Nat.leb]; exec_steps;
    cbn [fst snd]; rewrite <-?app_assoc; cbn [app];
    (eexists; split_and!; [reflexivity|done|by repeat constructor|]);
    try (destruct (w _ _) as [[]|?]); cbn; auto.
Qed.

Lemma convert_loop (self : SchemaProcessor) (files : list string)
    (past : list call) :
  ∃ evs,
    (exec w past (for_in files (convertAvro self))).1 = past ++ evs ∧
    Forall (λ c, is_conversion c = true) evs ∧
    match (exec w past (for_in files (convertAvro self))).2 with
    | Ok _ => commands evs
              = command (avroJar self) (verbosity self) <$> files
    | Raise _ => evs ≠ [] ∧
                 commands evs `prefix_of`
                   (command (avroJar self) (verbosity self) <$> files)
    end.
Proof.
  revert past. induction files as [|f files IH]; intros past.
  - exists []. simpl. by rewrite app_nil_r.
  - cbn [for_in]. rewrite exec_bind.
    destruct (convertAvro_exec self f past) as (evs & Ht & Hne & Hall & Hc).
    destruct (exec w past (convertAvro self f)) as [t [[]|e]];
      simpl in Ht, Hc; subst t.
    + destruct (IH (past ++ evs)) as (evs' & Ht' & Hall' & Hc').
      exists (evs ++ evs'). rewrite Ht', <-app_assoc. split; [done|].
      split; [by apply Forall_app|]. rewrite commands_app, Hc.
      destruct (exec w (past ++ evs) _).2 as [[]|e].
      * by rewrite Hc'.
      * destruct Hc' as [_ Hc']. split; [by destruct evs|].
        by apply prefix_cons.
    + exists evs. simpl. split_and!; [done..|].
      destruct Hc as [->| ->]; [apply prefix_nil|].
      apply prefix_cons, prefix_nil.
Qed.

Lemma run_shape (self : SchemaProcessor) :
  let d := os_path_join (schemaDir self) (avroPath self) in
  let t := trace w (run os_path_join self) in
  let r := outcome w (run os_path_join self) in
  ∃ pre, Forall (λ c, is_setup c = true) pre ∧
    (((∃ e, r = Raise e) ∧
      ∃ stop, t = pre ++ stop ∧
              stop `prefix_of` [os_getcwd; os_chdir d; glob_glob "*.avdl"])
     ∨ ∃ jar cwd files convs,
         match avroJarPath self with
         | None => jar = avroJar self
         | Some path => ∃ past, w past (os_path_abspath path) = Ok jar
         end ∧
         w pre os_getcwd = Ok cwd ∧
         w (pre ++ [os_getcwd; os_chdir d]) (glob_glob "*.avdl") = Ok files ∧
         Forall (λ c, is_conversion c = true) convs ∧
         (((∃ e, r = Raise e) ∧ convs ≠ [] ∧
           t = pre ++ [os_getcwd; os_chdir d; glob_glob "*.avdl"] ++ convs ∧
           commands convs `prefix_of`
             (command jar (verbosity self) <$> files))
          ∨ (commands convs = command jar (verbosity self) <$> files ∧
             ∃ post,
               t = pre ++ [os_getcwd; os_chdir d; glob_glob "*.avdl"]
                       ++ convs ++ os_chdir cwd :: post ∧
               (((∃ e, r = Raise e) ∧
                 (post = [] ∨
                  post = [utils_log ("Writing schemas to "
                                     +:+ destinationFile self)]))
                ∨ ∃ logs,
                    (logs = [] ∨
                     logs = [utils_log ("Writing schemas to "
                                        +:+ destinationFile self)]) ∧
                    post = logs ++ [SchemaGenerator_run
                                      (version self) d (destinationFile self)
                                      (verbosity self)])))).
Proof.
  cbv zeta. unfold trace, outcome, run. rewrite exec_bind.
  set (d := os_path_join (schemaDir self) (avroPath self)).
  destruct (uses_exec (λ c, is_setup c = true)
              (match sourceDir self with
               | None => getSchemaFromGitHub self
               | Some _ => getSchemaFromLocal os_path_join self
               end) []) as (pre1 & Ht1 & Hpre1).
  { apply fetch_uses. auto. }
  destruct (exec w [] _) as [t1 [[]|e]]; cbn [fst snd app] in Ht1; subst t1.
  2:{ exists pre1. split; [done|]. left. split; [eauto|].
      exists []. split; [by rewrite app_nil_r|apply prefix_nil]. }
  rewrite exec_bind.
  destruct (setupAvroJar_exec self pre1) as (c & Hc & Ht2 & Hr2).
  destruct (exec w pre1 (setupAvroJar self)) as [t2 r2].
  cbn [fst snd] in Ht2, Hr2. subst t2.
  exists (pre1 ++ [c]). split.
  { apply Forall_app. split; [done|]. by constructor. }
  set (pre := pre1 ++ [c]).
  destruct Hr2 as [[e ->]|(jar & -> & Hjar)].
  { left. split; [eauto|].
    exists []. split; [by rewrite app_nil_r|apply prefix_nil]. }
  rewrite exec_bind. exec_do.
  destruct (w pre os_getcwd) as [cwd|e] eqn:Hcwd; cbv beta iota.
  2:{ left. split; [eauto|]. exists [os_getcwd]. split; [done|].
      by apply prefix_cons, prefix_nil. }
  rewrite exec_bind. exec_do.
  destruct (w (pre ++ [os_getcwd]) (os_chdir d)) as [[]|e]; cbv beta iota.
  2:{ left. split; [eauto|]. exists [os_getcwd; os_chdir d].
      split; [by rewrite <-app_assoc|].
      by apply prefix_cons, prefix_cons, prefix_nil. }
  rewrite exec_bind. exec_do.
  destruct (w ((pre ++ [os_getcwd]) ++ [os_chdir d]) (glob_glob "*.avdl"))
    as [files|e] eqn:Hglob; cbv beta iota.
  2:{ left. split; [eauto|].
      exists [os_getcwd; os_chdir d; glob_glob "*.avdl"].
      split; [by rewrite <-!app_assoc|done]. }
  rewrite <-app_assoc in Hglob. cbn [app] in Hglob.
  right. exists jar, cwd, files.
  rewrite exec_bind.
  destruct (convert_loop (with_avroJar self jar) files
              (((pre ++ [os_getcwd]) ++ [os_chdir d])
               ++ [glob_glob "*.avdl"])) as (convs & Ht3 & Hconvs & Hcmd).
  destruct (exec w _ (for_in files _)) as [t3 r3].
  cbn [fst snd] in Ht3, Hcmd. subst t3.
  change (avroJar (with_avroJar self jar)) with jar in Hcmd.
  change (verbosity (with_avroJar self jar)) with (verbosity self) in Hcmd.
  exists convs. split_and!; [|done..|].
  { destruct (avroJarPath self); eauto. }
  assert (∀ post, (((pre ++ [os_getcwd]) ++ [os_chdir d])
                   ++ [glob_glob "*.avdl"]) ++ convs ++ post
                  = pre ++ [os_getcwd; os_chdir d; glob_glob "*.avdl"]
                    ++ convs ++ post) as Hassoc.
  { intros post. by rewrite <-!app_assoc. }
  destruct r3 as [[]|e].
  2:{ left. destruct Hcmd as [Hne Hcmd]. split_and!; [eauto|done| |done].
      cbn [fst]. rewrite <-(app_nil_r convs) at 1. rewrite Hassoc.
      by rewrite app_nil_r. }
  right. split; [done|].
  change (verbosity (with_avroJar self jar)) with (verbosity self).
  change (version (with_avroJar self jar)) with (version self).
  change (destinationFile (with_avroJar self jar))
    with (destinationFile self).
  destruct (0 <? verbosity self)%nat; exec_steps; cbn [fst snd];
    rewrite <-!app_assoc; (eexists; split; [reflexivity|]).
  all: try (left; split; [by eauto|]; by auto).
  - right. eexists [_]. split; [|reflexivity]. by right.
  - right. exists []. split; [by left|reflexivity].
Qed.

Lemma omap_Forall_None {A B} (f : A → option B) (l : list A) :
  Forall (λ x, f x = None) l → omap f l = [].
Proof.
  induction 1 as [|x l Hx _ IH]; [done|]. csimpl. by rewrite Hx, IH.
Qed.

Lemma setup_silent (pre : list call) :
  Forall (λ c, is_setup c = true) pre →
  commands pre = [] ∧ chdirs pre = [] ∧ generated pre = [].
Proof.
  intros Hpre. split_and!; apply omap_Forall_None;
    (eapply Forall_impl; [exact Hpre|]); by intros [].
Qed.

Lemma conversions_stay (convs : list call) :
  Forall (λ c, is_conversion c = true) convs →
  chdirs convs = [] ∧ generated convs = [].
Proof.
  intros Hconvs. split_and!; apply omap_Forall_None;
    (eapply Forall_impl; [exact Hconvs|]); by intros [].
Qed.

Lemma last_Forall {A} (P : A → Prop) (l : list A) (x : A) :
  Forall P l → last l = Some x → P x.
Proof.
  intros Hl Hx. rewrite last_lookup in Hx.
  by eapply (Forall_lookup_1 P l).
Qed.

(** X20: [run] converts the files that [glob] listed, in the order of the
    listing and each with one command, [java -jar <jar> idl2schemata
    <file>]: the commands run are always a beginning of that sequence, and
    all of it when [run] returns.  The same jar is named in all of them,
    the one of the temporary directory without [-j] and what [abspath]
    gave with it; the commands are run silent exactly when the verbosity
    is at most 1.  Before [glob] has answered, [run] runs no command. *)
Theorem conversions_follow_listing (self : SchemaProcessor) :
  let t := trace w (run os_path_join self) in
  let r := outcome w (run os_path_join self) in
  ((∃ e, r = Raise e) ∧ commands t = []) ∨
  ∃ past files jar,
    (past ++ [glob_glob "*.avdl"]) `prefix_of` t ∧
    w past (glob_glob "*.avdl") = Ok files ∧
    match avroJarPath self with
    | None => jar = avroJar self
    | Some path => ∃ past', w past' (os_path_abspath path) = Ok jar
    end ∧
    commands t `prefix_of` (command jar (verbosity self) <$> files) ∧
    (r = Ok tt → commands t = command jar (verbosity self) <$> files).
Proof.
  cbv zeta.
  destruct (run_shape self) as (pre & Hpre & Hcases). cbv zeta in Hcases.
  destruct (setup_silent pre Hpre) as (Hpre_c & _ & _).
  destruct Hcases as [[Hr (stop & -> & Hstop)]
                     |(jar & cwd & files & convs & Hjar & Hcwd & Hglob
                       & Hconvs & Hcases)].
  - left. split; [done|]. rewrite commands_app, Hpre_c.
    destruct Hstop as [rest Hrest].
    assert (commands (stop ++ rest) = []) as Hnone by by rewrite <-Hrest.
    rewrite commands_app in Hnone. by apply app_eq_nil in Hnone as [-> _].
  - right.
    exists (pre ++ [os_getcwd;
                    os_chdir (os_path_join (schemaDir self) (avroPath self))]),
      files, jar.
    destruct Hcases as [(Hr & Hne & -> & Hcmd)|(Hcmd & post & -> & Hpost)].
    + split_and!; [|done|done| |].
      * exists convs. by rewrite <-!app_assoc.
      * rewrite !commands_app, Hpre_c. done.
      * intros Hok. destruct Hr as [e Hr]. congruence.
    + assert (commands post = []) as Hpost_c.
      { by destruct Hpost as [[_ [->| ->]]|(logs & [->| ->] & ->)]. }
      assert (commands
                (pre ++ [os_getcwd;
                         os_chdir (os_path_join (schemaDir self)
                                                (avroPath self));
                         glob_glob "*.avdl"]
                     ++ convs ++ os_chdir cwd :: post)
              = command jar (verbosity self) <$> files) as Hall.
      { rewrite !commands_app, Hpre_c, Hcmd.
        change (os_chdir cwd :: post) with ([os_chdir cwd] ++ post).
        rewrite commands_app, Hpost_c. simpl. by rewrite app_nil_r. }
      split_and!; [|done|done| |].
      * exists (convs ++ os_chdir cwd :: post). by rewrite <-!app_assoc.
      * by rewrite Hall.
      * by rewrite Hall.
Qed.

Lemma chdirs_app (t1 t2 : list call) :
  chdirs (t1 ++ t2) = chdirs t1 ++ chdirs t2.
Proof. apply omap_app. Qed.

Lemma generated_app (t1 t2 : list call) :
  generated (t1 ++ t2) = generated t1 ++ generated t2.
Proof. apply omap_app. Qed.

(** X21: a run whose last call is a command, a conversion that failed, has
    raised; it has changed the working directory once, to the directory of
    the schemas, and not back, and it has run no generator. *)
Theorem failed_conversion_leaves_directory (self : SchemaProcessor)
    (args : list string) (silent : option bool) :
  let t := trace w (run os_path_join self) in
  let r := outcome w (run os_path_join self) in
  last t = Some (utils_runCommandSplits args silent) →
  (∃ e, r = Raise e) ∧
  chdirs t = [os_path_join (schemaDir self) (avroPath self)] ∧
  generated t = [].
Proof.
  cbv zeta.
  destruct (run_shape self) as (pre & Hpre & Hcases). cbv zeta in Hcases.
  destruct (setup_silent pre Hpre) as (_ & Hpre_d & Hpre_g).
  destruct Hcases as [[Hr (stop & -> & Hstop)]
                     |(jar & cwd & files & convs & Hjar & Hcwd & Hglob
                       & Hconvs & Hcases)].
  - intros Hlast. exfalso.
    destruct stop as [|c1 [|c2 [|c3 [|c4 stop]]]].
    + rewrite app_nil_r in Hlast.
      by pose proof (last_Forall _ _ _ Hpre Hlast).
    + destruct Hstop as [rest Hrest]. injection Hrest as <- _.
      by rewrite last_app in Hlast.
    + destruct Hstop as [rest Hrest]. injection Hrest as <- <- _.
      by rewrite last_app in Hlast.
    + destruct Hstop as [rest Hrest]. injection Hrest as <- <- <- _.
      by rewrite last_app in Hlast.
    + destruct Hstop as [rest Hrest]. by destruct rest.
  - destruct (conversions_stay convs Hconvs) as [Hconvs_d Hconvs_g].
    destruct Hcases as [(Hr & Hne & -> & Hcmd)|(Hcmd & post & -> & Hpost)].
    + intros _. split; [done|].
      by rewrite !chdirs_app, !generated_app, Hpre_d, Hpre_g, Hconvs_d,
        Hconvs_g.
    + intros Hlast. exfalso. rewrite !(assoc_L (++)) in Hlast.
      destruct Hpost as [[_ [->| ->]]|(logs & [->| ->] & ->)];
        by rewrite last_app in Hlast.
Qed.

(** X22: when [run] returns, and whenever it has come to run the
    generator, the generator is its last call, after the working directory
    was changed to the directory of the schemas and back to what [getcwd]
    had answered.  It is run once, with the version as it was given, on the
    directory of the schemas in the temporary directory. *)
Theorem generator_runs_last (self : SchemaProcessor) :
  let d := os_path_join (schemaDir self) (avroPath self) in
  let t := trace w (run os_path_join self) in
  let r := outcome w (run os_path_join self) in
  r = Ok tt ∨ generated t ≠ [] →
  ∃ past cwd,
    w past os_getcwd = Ok cwd ∧
    chdirs t = [d; cwd] ∧
    generated t = [(version self, d, destinationFile self, verbosity self)] ∧
    last t = Some (SchemaGenerator_run (version self) d
                     (destinationFile self) (verbosity self)).
Proof.
  cbv zeta.
  destruct (run_shape self) as (pre & Hpre & Hcases). cbv zeta in Hcases.
  destruct (setup_silent pre Hpre) as (_ & Hpre_d & Hpre_g).
  destruct Hcases as [[[e Hr] (stop & -> & Hstop)]
                     |(jar & cwd & files & convs & Hjar & Hcwd & Hglob
                       & Hconvs & Hcases)].
  - intros [Hok|Hgen]; [congruence|]. destruct Hgen.
    rewrite generated_app, Hpre_g. destruct Hstop as [rest Hrest].
    assert (generated (stop ++ rest) = []) as Hnone by by rewrite <-Hrest.
    rewrite generated_app in Hnone. by apply app_eq_nil in Hnone as [-> _].
  - destruct (conversions_stay convs Hconvs) as [Hconvs_d Hconvs_g].
    destruct Hcases as [([e Hr] & Hne & -> & Hcmd)|(Hcmd & post & -> & Hpost)].
    + intros [Hok|Hgen]; [congruence|]. destruct Hgen.
      by rewrite !generated_app, Hpre_g, Hconvs_g.
    + destruct Hpost as [[[e Hr] Hpost]|(logs & Hlogs & ->)].
      * intros [Hok|Hgen]; [congruence|]. destruct Hgen.
        change (os_chdir cwd :: post) with ([os_chdir cwd] ++ post).
        rewrite !generated_app, Hpre_g, Hconvs_g.
        by destruct Hpost as [->| ->].
      * intros _. exists pre, cwd. split; [done|].
        change (os_chdir cwd :: logs ++ ?x)
          with ([os_chdir cwd] ++ logs ++ x).
        rewrite !chdirs_app, !generated_app, Hpre_d, Hpre_g, Hconvs_d,
          Hconvs_g, !(assoc_L (++)), last_snoc.
        by destruct Hlogs as [->| ->].
Qed.






End ProcessorFacts.

(** ** The hypotheses on the samples *)

(** The hypothesis of X2 holds of the sample request, whose object is
    [Variants]. *)
Lemma captured_object_leftmost_longest_witness :
  Re.search "Search" "Request" "SearchVariantsRequest" = Some "Variants" ∧
  ∃ pre post,
    "SearchVariantsRequest" =
      pre +:+ "Search" +:+ "Variants" +:+ "Request" +:+ post ∧
    "Variants" ≠ "" ∧ no_newline "Variants" = true ∧
    (∀ pre' object' post',
       "SearchVariantsRequest" =
         pre' +:+ "Search" +:+ object' +:+ "Request" +:+ post' →
       object' ≠ "" → no_newline object' = true →
       (String.length pre ≤ String.length pre')%nat) ∧
    (∀ object' post',
       "SearchVariantsRequest" =
         pre +:+ "Search" +:+ object' +:+ "Request" +:+ post' →
       no_newline object' = true →
       (String.length object' ≤ String.length "Variants")%nat).
Proof.
  split; [reflexivity|].
  apply (captured_object_leftmost_longest "SearchVariantsRequest" "Variants").
  reflexivity.
Defined.


(** The hypotheses of X6 hold of the row of the sample pair. *)
Lemma table_rows_well_formed_witness :
  makePostSignatures
    [Samples.SearchVariantsRequest; Samples.SearchVariantsResponse] =
    Ok [("/variants/search", "SearchVariantsRequest",
         "SearchVariantsResponse")] ∧
  ("/variants/search", "SearchVariantsRequest", "SearchVariantsResponse") ∈
    [("/variants/search", "SearchVariantsRequest",
      "SearchVariantsResponse")] ∧
  Py.lower "/variants/search" = "/variants/search" ∧
  (9 ≤ String.length "/variants/search")%nat.
Proof.
  assert (("/variants/search", "SearchVariantsRequest",
           "SearchVariantsResponse") ∈
          [("/variants/search", "SearchVariantsRequest",
            "SearchVariantsResponse")]) as Hin.
  { apply elem_of_cons. left. reflexivity. }
  split; [reflexivity|]. split; [exact Hin|].
  destruct (table_rows_well_formed
              [Samples.SearchVariantsRequest; Samples.SearchVariantsResponse]
              [("/variants/search", "SearchVariantsRequest",
                "SearchVariantsResponse")]
              "/variants/search" "SearchVariantsRequest"
              "SearchVariantsResponse" eq_refl Hin)
    as (_ & _ & Hlower & Hlen).
  split; [exact Hlower|exact Hlen].
Defined.

(** The hypothesis of X8 holds of the sample request. *)
Lemma constructor_text_witness :
  schema_fields (schema Samples.SearchVariantsRequest) =
    Ok [ mkField "reference_name" Samples.str false "None";
         mkField "page_token"
           (UnionSchema [Samples.null; Samples.str]) true "None" ] ∧
  res (writeConstructor Samples.fill Samples.SearchVariantsRequest) = Ok tt ∧
  out (writeConstructor Samples.fill Samples.SearchVariantsRequest) =
    constructorText Samples.fill
      (sorted String.le field_name
         [ mkField "reference_name" Samples.str false "None";
           mkField "page_token"
             (UnionSchema [Samples.null; Samples.str]) true "None" ]).
Proof.
  split; [reflexivity|].
  destruct (constructor_text Samples.fill Samples.SearchVariantsRequest
              [ mkField "reference_name" Samples.str false "None";
                mkField "page_token"
                  (UnionSchema [Samples.null; Samples.str]) true "None" ]
              eq_refl) as (Hres & Hout & _).
  split; [exact Hres|exact Hout].
Defined.

(** The hypothesis of X11 holds of the generator of the sample pair, whose
    run returns. *)
Lemma write_returns_iff_witness :
  NoDup (name <$> classes Samples.generator) ∧
  (res (SchemaGenerator_write Samples.fill Samples.wrap Samples.strip
          Samples.generator) = Ok tt ↔
   version Samples.generator ≠ "" ∧
   ∀ c, c ∈ classes Samples.generator →
        res (SchemaClass_write Samples.fill Samples.wrap Samples.strip c)
        = Ok tt).
Proof.
  assert (NoDup (name <$> classes Samples.generator)) as Hnd.
  { apply (bool_decide_unpack _). vm_compute. exact I. }
  split; [exact Hnd|].
  apply (write_returns_iff Samples.fill Samples.wrap Samples.strip
           Samples.generator Hnd).
Defined.

(** The hypotheses of X14 hold of the version [v0.5.1]. *)
Lemma header_drops_leading_v_witness :
  version Samples.generator = String "v" (version More.plainVersion) ∧
  Py.lower_char "v" = "v"%char ∧
  writeHeader Samples.generator = writeHeader More.plainVersion.
Proof.
  split; [reflexivity|]. split; [reflexivity|].
  apply (header_drops_leading_v More.plainVersion Samples.generator "v"
           eq_refl eq_refl).
  - reflexivity.
  - intros d rest Hv. injection Hv as <- _. vm_compute. discriminate.
Defined.

(** The hypothesis of X15 holds of the sample heap: a record with two
    fields, the second of which holds an array of maps behind a union. *)
Lemma strip_loop_blanks_reached_witness :
  StripDocs.loop 3 StripDocs.sample [0] = Some StripDocs.stripped ∧
  length StripDocs.stripped = length StripDocs.sample ∧
  ∀ ref elm, StripDocs.sample !! ref = Some elm →
    ∃ elm',
      StripDocs.stripped !! ref = Some elm' ∧
      elm'.*1 = elm.*1 ∧
      (∀ i k v, elm !! i = Some (k, v) → k ≠ "doc" →
                elm' !! i = Some (k, v)) ∧
      (rtc (StripDocs.link StripDocs.sample) 0 ref →
       ∀ i k v, elm' !! i = Some (k, v) → k = "doc" →
                v = StripDocs.VString "") ∧
      (¬ rtc (StripDocs.link StripDocs.sample) 0 ref → elm' = elm).
Proof.
  assert (StripDocs.loop 3 StripDocs.sample [0] = Some StripDocs.stripped)
    as Hrun by (vm_compute; reflexivity).
  split; [exact Hrun|].
  apply (strip_loop_blanks_reached StripDocs.sample StripDocs.stripped 0 3
           Hrun).
Defined.

(** The hypothesis of X16 holds of the sample heap, whose references go
    forward. *)
Lemma strip_loop_ends_witness :
  StripDocs.forward StripDocs.sample ∧
  (0 < length StripDocs.sample →
   ∀ fuel, (StripDocs.cost StripDocs.sample (length StripDocs.sample) 0
            ≤ fuel)%nat →
           is_Some (StripDocs.loop fuel StripDocs.sample [0])) ∧
  (length StripDocs.sample ≤ 0 →
   ∀ fuel, StripDocs.loop fuel StripDocs.sample [0] = None)%nat.
Proof.
  assert (StripDocs.forward StripDocs.sample) as Hf.
  { apply forwardb_forward. vm_compute. reflexivity. }
  split; [exact Hf|].
  apply (strip_loop_ends StripDocs.sample 0 Hf).
Defined.


(** X18 in the world in which every call returns: the temporary directory
    is made, and its removal is the last call. *)
Lemma cleanup_is_last_call_witness :
  Processor.Samples.fine [] (Processor.tempfile_mkdtemp "ga4gh_")
  = Ok "/tmp/ga4gh_x" ∧
  ((Processor.Args.verbose Processor.Samples.local ≤ 1)%nat ∨
   Processor.outcome Processor.Samples.fine
     (Processor.main Processor.Samples.join Processor.Samples.local)
   = Ok tt) ∧
  last (Processor.trace Processor.Samples.fine
          (Processor.main Processor.Samples.join Processor.Samples.local))
  = Some (Processor.shutil_rmtree "/tmp/ga4gh_x").
Proof.
  assert ((Processor.Args.verbose Processor.Samples.local ≤ 1)%nat ∨
          Processor.outcome Processor.Samples.fine
            (Processor.main Processor.Samples.join Processor.Samples.local)
          = Ok tt) as Hv by (left; simpl; lia).
  split; [reflexivity|]. split; [exact Hv|].
  destruct (cleanup_is_last_call Processor.Samples.join
              Processor.Samples.fine Processor.Samples.local) as [_ H].
  destruct (H "/tmp/ga4gh_x" eq_refl) as (_ & Hlast & _).
  exact (Hlast Hv).
Defined.

(** The hypotheses of X19 hold of the arguments with [-j] and [-i]. *)
Lemma local_run_is_offline_witness :
  Processor.Args.avro_tools_jar Processor.Samples.local
  = Some "avro-tools.jar" ∧
  Processor.Args.inputSchemasDirectory Processor.Samples.local = Some "in" ∧
  Forall (λ c, Processor.is_remote c = false)
    (Processor.trace Processor.Samples.fine
       (Processor.main Processor.Samples.join Processor.Samples.local)).
Proof.
  split; [reflexivity|]. split; [reflexivity|].
  destruct (local_run_is_offline Processor.Samples.join
              Processor.Samples.fine Processor.Samples.local) as [H _].
  exact (H "avro-tools.jar" "in" eq_refl eq_refl).
Defined.

(** X20 in the world in which every call returns: the two files of the
    listing are converted, in its order. *)
Lemma conversions_follow_listing_witness :
  Processor.outcome Processor.Samples.fine
    (Processor.run Processor.Samples.join
       (Processor.Samples.processor Processor.Samples.local)) = Ok tt ∧
  ∃ jar,
    Processor.commands
      (Processor.trace Processor.Samples.fine
         (Processor.run Processor.Samples.join
            (Processor.Samples.processor Processor.Samples.local)))
    = Processor.command jar 0 <$> ["a.avdl"; "b.avdl"].
Proof.
  assert (Processor.outcome Processor.Samples.fine
            (Processor.run Processor.Samples.join
               (Processor.Samples.processor Processor.Samples.local))
          = Ok tt) as Hok by (vm_compute; reflexivity).
  split; [exact Hok|].
  destruct (conversions_follow_listing Processor.Samples.join
              Processor.Samples.fine
              (Processor.Samples.processor Processor.Samples.local))
    as [[[e He] _]|(past & files & jar & _ & Hfiles & _ & _ & Hall)].
  - rewrite Hok in He. discriminate He.
  - exists jar. injection Hfiles as <-. exact (Hall Hok).
Defined.

(** The hypothesis of X21 holds in the world in which the conversion of
    [b.avdl] fails. *)
Lemma failed_conversion_leaves_directory_witness :
  last (Processor.trace Processor.Samples.failing
          (Processor.run Processor.Samples.join
             (Processor.Samples.processor Processor.Samples.remote)))
  = Some (Processor.utils_runCommandSplits
            ["java"; "-jar"; "/tmp/ga4gh_x/schemas-0.5.1/avro-tools.jar";
             "idl2schemata"; "b.avdl"] (Some true)) ∧
  (∃ e, Processor.outcome Processor.Samples.failing
          (Processor.run Processor.Samples.join
             (Processor.Samples.processor Processor.Samples.remote))
        = Raise e) ∧
  Processor.chdirs
    (Processor.trace Processor.Samples.failing
       (Processor.run Processor.Samples.join
          (Processor.Samples.processor Processor.Samples.remote)))
  = ["/tmp/ga4gh_x/schemas-0.5.1/src/main/resources/avro"] ∧
  Processor.generated
    (Processor.trace Processor.Samples.failing
       (Processor.run Processor.Samples.join
          (Processor.Samples.processor Processor.Samples.remote)))
  = [].
Proof.
  assert (last (Processor.trace Processor.Samples.failing
                  (Processor.run Processor.Samples.join
                     (Processor.Samples.processor Processor.Samples.remote)))
          = Some (Processor.utils_runCommandSplits
                    ["java"; "-jar";
                     "/tmp/ga4gh_x/schemas-0.5.1/avro-tools.jar";
                     "idl2schemata"; "b.avdl"] (Some true))) as Hlast
    by (vm_compute; reflexivity).
  split; [exact Hlast|].
  exact (failed_conversion_leaves_directory Processor.Samples.join
           Processor.Samples.failing
           (Processor.Samples.processor Processor.Samples.remote)
           _ _ Hlast).
Defined.

(** The hypothesis of X22 holds in the world in which every call
    returns. *)
Lemma generator_runs_last_witness :
  Processor.outcome Processor.Samples.fine
    (Processor.run Processor.Samples.join
       (Processor.Samples.processor Processor.Samples.local)) = Ok tt ∧
  ∃ past cwd,
    Processor.Samples.fine past Processor.os_getcwd = Ok cwd ∧
    Processor.chdirs
      (Processor.trace Processor.Samples.fine
         (Processor.run Processor.Samples.join
            (Processor.Samples.processor Processor.Samples.local)))
    = ["/tmp/ga4gh_x/schemas-0.5.1/src/main/resources/avro"; cwd] ∧
    Processor.generated
      (Processor.trace Processor.Samples.fine
         (Processor.run Processor.Samples.join
            (Processor.Samples.processor Processor.Samples.local)))
    = [("v0.5.1", "/tmp/ga4gh_x/schemas-0.5.1/src/main/resources/avro",
        "out.py", 0)] ∧
    last (Processor.trace Processor.Samples.fine
            (Processor.run Processor.Samples.join
               (Processor.Samples.processor Processor.Samples.local)))
    = Some (Processor.SchemaGenerator_run "v0.5.1"
              "/tmp/ga4gh_x/schemas-0.5.1/src/main/resources/avro"
              "out.py" 0).
Proof.
  assert (Processor.outcome Processor.Samples.fine
            (Processor.run Processor.Samples.join
               (Processor.Samples.processor Processor.Samples.local))
          = Ok tt) as Hok by (vm_compute; reflexivity).
  split; [exact Hok|].
  exact (generator_runs_last Processor.Samples.join Processor.Samples.fine
           (Processor.Samples.processor Processor.Samples.local)
           (or_introl Hok)).
Defined.

